(** * ILS kickoff report: the segmentation-and-aggregation analyses

    A shallow embedding of section 3 (helpers) and section 4 (the fifteen
    analyses) of [ils_kickoff.py], with the properties of the report tables
    they build.

    Conventions of the embedding.
    - A float64 is a [num]: an exact rational, or one of the three IEEE
      specials.  Arithmetic on the finite part is exact, so the binary
      rounding of float64 is idealised away; division by zero and the
      propagation of NaN are kept as numpy has them.
    - [.round(p)] and [round(x, p)] are round-half-to-even at [p] decimals.
    - A missing value (NaN / None / pd.NA) of a categorical column is [None].
    - A pandas DataFrame is a list of named columns of equal length. *)

From Stdlib Require Import List String Ascii ZArith QArith Qround Qabs.
From Stdlib Require Import Lia Lqa Bool Permutation DecimalString Sorted.
From Stdlib Require Import Morphisms Setoid OrderedTypeEx.
Import ListNotations.
Open Scope string_scope.
Open Scope list_scope.
Open Scope Q_scope.

(* ================================================================= *)
(** ** float64 values *)

Module Num.

Inductive num : Type :=
| Fin (q : Q)
| PInf
| NInf
| NaN.

Definition Qltb (a b : Q) : bool := negb (Qle_bool b a).

(** [a / b] of numpy: a finite quotient, or inf / NaN on a zero divisor. *)
Definition div (a b : num) : num :=
  match a, b with
  | NaN, _ | _, NaN => NaN
  | Fin x, Fin y =>
      if Qeq_bool y 0
      then (if Qeq_bool x 0 then NaN else if Qltb 0 x then PInf else NInf)
      else Fin (x / y)
  | Fin _, (PInf | NInf) => Fin 0
  | PInf, Fin y => if Qltb y 0 then NInf else PInf
  | NInf, Fin y => if Qltb y 0 then PInf else NInf
  | (PInf | NInf), (PInf | NInf) => NaN
  end.

Definition mul (a b : num) : num :=
  match a, b with
  | NaN, _ | _, NaN => NaN
  | Fin x, Fin y => Fin (x * y)
  | Fin x, PInf | PInf, Fin x =>
      if Qeq_bool x 0 then NaN else if Qltb 0 x then PInf else NInf
  | Fin x, NInf | NInf, Fin x =>
      if Qeq_bool x 0 then NaN else if Qltb 0 x then NInf else PInf
  | PInf, PInf | NInf, NInf => PInf
  | PInf, NInf | NInf, PInf => NaN
  end.

Definition add (a b : num) : num :=
  match a, b with
  | NaN, _ | _, NaN => NaN
  | Fin x, Fin y => Fin (x + y)
  | PInf, NInf | NInf, PInf => NaN
  | PInf, _ | _, PInf => PInf
  | NInf, _ | _, NInf => NInf
  end.

(** [a > b]; every comparison with NaN is False. *)
Definition gtb (a b : num) : bool :=
  match a, b with
  | NaN, _ | _, NaN => false
  | Fin x, Fin y => Qltb y x
  | PInf, (Fin _ | NInf) => true
  | Fin _, NInf => true
  | _, _ => false
  end.

Definition isna (a : num) : bool :=
  match a with NaN => true | _ => false end.

Definition pow10 (p : nat) : Q := inject_Z (10 ^ Z.of_nat p).

(** Round half to even, to an integer ([np.rint]). *)
Definition rint (x : Q) : Z :=
  let f := Qfloor x in
  match Qcompare (x - inject_Z f) (1 # 2) with
  | Lt => f
  | Gt => (f + 1)%Z
  | Eq => if Z.even f then f else (f + 1)%Z
  end.

(** [np.round(x, p)] is [rint(x * 10**p) / 10**p]. *)
Definition round_half_even (x : Q) (p : nat) : Q :=
  inject_Z (rint (x * pow10 p)) / pow10 p.

Definition round (a : num) (p : nat) : num :=
  match a with
  | Fin x => Fin (round_half_even x p)
  | other => other
  end.

(** Equality of floats up to the representation of the fraction. *)
Definition eqv (a b : num) : Prop :=
  match a, b with
  | Fin x, Fin y => x == y
  | PInf, PInf | NInf, NInf | NaN, NaN => True
  | _, _ => False
  end.

Definition of_nat (n : nat) : num := Fin (inject_Z (Z.of_nat n)).
Definition of_Z (z : Z) : num := Fin (inject_Z z).

End Num.
Export Num.

Declare Scope num_scope.
Delimit Scope num_scope with num.
Infix "/" := Num.div : num_scope.
Infix "*" := Num.mul : num_scope.
Infix "+" := Num.add : num_scope.
Infix ">?" := Num.gtb (at level 70) : num_scope.
Infix "=~" := Num.eqv (at level 70).

(* ================================================================= *)
(** ** The part of pandas and numpy the analyses use *)

Module Pd.

Inductive cell : Type :=
| Str (s : string)
| Num (v : num).

Definition Series := list cell.

(** Columns in their order; every column has one cell per row. *)
Definition DataFrame := list (string * Series).

Definition strs (l : list string) : Series := map Str l.
Definition nums (l : list num) : Series := map Num l.

(** [s.sum()], which skips NaN. *)
Definition sum (s : list num) : num :=
  fold_right (fun v acc => if isna v then acc else (v + acc)%num) (Fin 0) s.

(** [s.mean()]: NaN on an empty series. *)
Definition mean (s : list num) : num :=
  let kept := filter (fun v => negb (isna v)) s in
  (sum kept / of_nat (List.length kept))%num.

(** Element-wise operations with a scalar, and between two series. *)
Definition s_div (s : list num) (d : num) : list num :=
  map (fun v => (v / d)%num) s.
Definition s_mul (s : list num) (k : num) : list num :=
  map (fun v => (v * k)%num) s.
Definition s_div2 (s t : list num) : list num :=
  map (fun vt : num * num => (fst vt / snd vt)%num) (combine s t).
Definition s_round (s : list num) (p : nat) : list num :=
  map (fun v => round v p) s.
Definition s_gt (s : list num) (k : num) : list bool :=
  map (fun v => (v >? k)%num) s.

(** [np.where(cond, s, k)] with a series condition. *)
Definition np_where (cond : list bool) (s : list num) (k : num) : list num :=
  map (fun bv : bool * num => if fst bv then snd bv else k) (combine cond s).

(** [df[c]]. *)
Fixpoint get (c : string) (df : DataFrame) : option Series :=
  match df with
  | [] => None
  | (c', s) :: rest => if String.eqb c c' then Some s else get c rest
  end.

Definition nrows (df : DataFrame) : nat :=
  match df with
  | [] => 0
  | (_, s) :: _ => List.length s
  end.

Fixpoint lookup {A} (c : string) (row : list (string * A)) : option A :=
  match row with
  | [] => None
  | (c', v) :: rest => if String.eqb c c' then Some v else lookup c rest
  end.

Definition has_col (c : string) (df : DataFrame) : bool :=
  match get c df with Some _ => true | None => false end.

(** [pd.concat([df, pd.DataFrame([row])], ignore_index=True)]: the row goes
    below the others; a column one side lacks is filled with NaN. *)
Definition concat_row (df : DataFrame) (row : list (string * cell)) : DataFrame :=
  map (fun cs =>
         (fst cs,
          snd cs ++ [match lookup (fst cs) row with
                     | Some v => v
                     | None => Num NaN
                     end])) df
  ++ map (fun cv => (fst cv, repeat (Num NaN) (nrows df) ++ [snd cv]))
         (filter (fun cv => negb (has_col (fst cv) df)) row).

(** [df[[c1; ...; cn]]]; the script only lists columns the frame has. *)
Definition select (cols : list string) (df : DataFrame) : DataFrame :=
  map (fun c => (c, match get c df with Some s => s | None => [] end)) cols.

(** The last row, as a dict. *)
Definition last_row (df : DataFrame) : list (string * cell) :=
  map (fun cs => (fst cs, last (snd cs) (Num NaN))) df.

(** The rows above the last one. *)
Definition body (df : DataFrame) : DataFrame :=
  map (fun cs => (fst cs, removelast (snd cs))) df.

(** The numeric cells of a column, for [df[c].sum()]. *)
Definition values (s : Series) : list num :=
  flat_map (fun c => match c with Num v => [v] | Str _ => [] end) s.

Definition col_sum (c : string) (df : DataFrame) : num :=
  match get c df with
  | Some s => sum (values s)
  | None => NaN
  end.

(** *** Binning: [pd.cut(x, bins, labels)] with its defaults
    ([right=True], [include_lowest=False]) *)

Inductive bound : Type :=
| B (q : Q)
| Inf.

Definition bound_ltb (b : bound) (v : Q) : bool :=
  match b with
  | B q => Qltb q v
  | Inf => false
  end.

(** [bins.searchsorted(v, side="left")]: how many edges lie strictly below
    [v], the edges being increasing. *)
Fixpoint searchsorted_left (bins : list bound) (v : Q) : nat :=
  match bins with
  | [] => 0
  | b :: rest => if bound_ltb b v then S (searchsorted_left rest v) else 0
  end.

(** The category code of [v]; [None] is the NaN of a value that no bin
    holds ([ids == 0] or [ids == len(bins)]). *)
Definition cut (bins : list bound) (v : Q) : option nat :=
  let ids := searchsorted_left bins v in
  if (ids =? 0)%nat || (ids =? List.length bins)%nat then None
  else Some (ids - 1)%nat.

Definition cut_label (bins : list bound) (labels : list string) (v : Q)
  : option string :=
  match cut bins v with
  | Some i => nth_error labels i
  | None => None
  end.

(** [pd.cut] refuses edges that do not increase. *)
Fixpoint increasing (bins : list bound) : bool :=
  match bins with
  | B a :: ((B b :: _) as rest) => Qltb a b && increasing rest
  | B _ :: ((Inf :: _) as rest) => increasing rest
  | Inf :: _ :: _ => false
  | _ => true
  end.

End Pd.
Export Pd.

Definition NSF_BINS : list bound := [B (-1); B 0; B 6; B 12; B 24; B 36; B 48; Inf].
Definition NSF_LABELS : list string :=
  ["0"; "1–6"; "7–12"; "13–24"; "25–36"; "37–48"; "49+"].

Definition DEP_BINS : list bound := [B (-1); B 0; B 1; B 2; B 5; B 10; Inf].
Definition DEP_LABELS : list string := ["0"; "1"; "2"; "3–5"; "6–10"; "10+"].

(* ================================================================= *)
(** ** The cleaned source table *)

Record Date : Type := { year : Z; month : Z; day : Z }.

(** One account of [df] after section 2 of the script: the numeric measures
    are zero-filled numbers, [Deposit Count] is an [int], and only the
    Reg E flag and the open date may be missing.  The account number is the
    key of the table and is never missing, so [("AcctNo", "count")] counts
    the rows of a group. *)
Record Row : Type := {
  AcctNo : Z;
  Account_Status : string;
  Business_Flag : string;
  Total_Items : Q;
  Paid_Items : Q;
  OD_Limit : Q;
  OD_Status : string;
  Reg_E_Flag : option string;
  Open_Date : option Date;
  Deposit_Amount : Q;
  Deposit_Count : Z;
  Swipes : Q
}.

(** [df["Year Opened"] = df["Open Date"].dt.year]. *)
Definition Year_Opened (r : Row) : option Z := option_map year (Open_Date r).

(** The numeric columns, as series of floats. *)
Definition total_items (r : Row) : num := Fin (Total_Items r).
Definition paid_items (r : Row) : num := Fin (Paid_Items r).
Definition od_limit (r : Row) : num := Fin (OD_Limit r).
Definition deposit_amount (r : Row) : num := Fin (Deposit_Amount r).
Definition deposit_count (r : Row) : num := of_Z (Deposit_Count r).
Definition swipes (r : Row) : num := Fin (Swipes r).

(** *** [groupby(key)] with its defaults: sorted keys, null keys dropped *)

Section GroupBy.
Context {A K : Type} (cmp : K -> K -> comparison).

(** Puts [r] in the group of [k], keeping the keys sorted and distinct. *)
Fixpoint add_row (k : K) (r : A) (gs : list (K * list A)) : list (K * list A) :=
  match gs with
  | [] => [(k, [r])]
  | (k', rs) :: rest =>
      match cmp k k' with
      | Eq => (k', r :: rs) :: rest
      | Lt => (k, [r]) :: gs
      | Gt => (k', rs) :: add_row k r rest
      end
  end.

Definition groupby (key : A -> option K) (rows : list A) : list (K * list A) :=
  fold_right (fun r gs => match key r with
                          | Some k => add_row k r gs
                          | None => gs
                          end) [] rows.

End GroupBy.

(** The reductions of [.agg]: ["count"], ["sum"] and ["mean"] of a column. *)
Definition agg_count {K} (g : list (K * list Row)) : list num :=
  map (fun kg => of_nat (List.length (snd kg))) g.
Definition agg_sum {K} (f : Row -> num) (g : list (K * list Row)) : list num :=
  map (fun kg => sum (map f (snd kg))) g.
Definition agg_mean {K} (f : Row -> num) (g : list (K * list Row)) : list num :=
  map (fun kg => mean (map f (snd kg))) g.

(** A scalar assigned to a column fills it. *)
Definition fill {K} (g : list (K * list Row)) (k : num) : list num :=
  repeat k (List.length g).

(** [df[c] = df[c].round(p)] on a frame. *)
Definition round_cell (p : nat) (c : cell) : cell :=
  match c with
  | Num v => Num (round v p)
  | Str s => Str s
  end.

Definition round_col (c : string) (p : nat) (df : DataFrame) : DataFrame :=
  map (fun cs => if String.eqb (fst cs) c
                 then (fst cs, map (round_cell p) (snd cs))
                 else cs) df.

(** *** Common filters *)

Definition OPEN_MASK (r : Row) : bool := String.eqb (Account_Status r) "O".
Definition PERSONAL_OPEN (r : Row) : bool :=
  OPEN_MASK r && String.eqb (Business_Flag r) "P".
Definition BUSINESS_OPEN (r : Row) : bool :=
  OPEN_MASK r && String.eqb (Business_Flag r) "B".

(** [x / x.sum() * 100] rounded to [p] decimals, the "% of X" of a column. *)
Definition pct_of_total (x : list num) (p : nat) : list num :=
  s_round (s_mul (s_div x (sum x)) (Fin 100)) p.

(* ================================================================= *)
(** ** Analysis 1: account status summary (all accounts) *)

Definition stat_code_summary (df : list Row) : DataFrame :=
  let g := groupby String.compare (fun r => Some (Account_Status r)) df in
  let accounts := agg_count g in
  let items := agg_sum total_items g in
  let paid := agg_sum paid_items g in
  let pct_accounts := pct_of_total accounts 2 in
  let pct_items := pct_of_total items 2 in
  let pay_ratio :=
    np_where (s_gt items (Fin 0)) (s_round (s_div2 paid items) 2) (Fin 0) in
  let ti := sum items in
  let tp := sum paid in
  let gt := [("Account Status", Str "Grand Total");
             ("# of Accounts", Num (sum accounts));
             ("# of Items", Num ti); ("# of Items Paid", Num tp);
             ("% of Accounts", Num (Fin 100)); ("% of Items", Num (Fin 100));
             ("Pay Ratio",
              Num (if (ti >? Fin 0)%num then round (tp / ti)%num 2 else Fin 0))] in
  select ["Account Status"; "# of Accounts"; "% of Accounts"; "# of Items";
          "% of Items"; "# of Items Paid"; "Pay Ratio"]
    (concat_row
       [("Account Status", strs (map fst g)); ("# of Accounts", nums accounts);
        ("# of Items", nums items); ("# of Items Paid", nums paid);
        ("% of Accounts", nums pct_accounts); ("% of Items", nums pct_items);
        ("Pay Ratio", nums pay_ratio)]
       gt).

(** ** Analysis 2: account type (open accounts) *)

(** [.map({"P": "Personal", "B": "Business"}).fillna(original)]. *)
Definition flag_name (f : string) : string :=
  if String.eqb f "P" then "Personal"
  else if String.eqb f "B" then "Business" else f.

Definition acct_type_summary (df : list Row) : DataFrame :=
  let df_open := filter OPEN_MASK df in
  let g := groupby String.compare (fun r => Some (Business_Flag r)) df_open in
  let accounts := agg_count g in
  let items := agg_sum total_items g in
  let paid := agg_sum paid_items g in
  let pct_accounts := pct_of_total accounts 2 in
  let pct_items := pct_of_total items 2 in
  let pay_ratio :=
    np_where (s_gt items (Fin 0)) (s_round (s_div2 paid items) 2) (Fin 0) in
  let ti2 := sum items in
  let tp2 := sum paid in
  let gt2 := [("Business Flag", Str "Grand Total");
              ("# of Accounts", Num (sum accounts));
              ("# of Items", Num ti2); ("# of Paid Items", Num tp2);
              ("% of Accounts", Num (Fin 100)); ("% of Items", Num (Fin 100));
              ("Pay Ratio",
               Num (if (ti2 >? Fin 0)%num then round (tp2 / ti2)%num 2 else Fin 0))] in
  concat_row
    [("Business Flag", strs (map flag_name (map fst g)));
     ("# of Accounts", nums accounts);
     ("# of Items", nums items); ("# of Paid Items", nums paid);
     ("% of Accounts", nums pct_accounts); ("% of Items", nums pct_items);
     ("Pay Ratio", nums pay_ratio)]
    gt2.

(** ** Analyses 3 and 4: deposit distribution, per ownership class *)

Definition bin_label (labels : list string) (code : nat) : string :=
  nth code labels "".

Definition deposit_summary (mask : Row -> bool) (df : list Row) : DataFrame :=
  let sub := filter mask df in
  let g := groupby Nat.compare
             (fun r => cut DEP_BINS (inject_Z (Deposit_Count r))) sub in
  let accounts := agg_count g in
  let avg_amount := agg_mean deposit_amount g in
  let avg_count := agg_mean deposit_count g in
  let pct_accounts := pct_of_total accounts 2 in
  let gt := [("Deposit Bin", Str "Grand Total");
             ("Accounts", Num (sum accounts));
             ("Avg $$ Deposits", Num (mean (map deposit_amount sub)));
             ("Avg # Deposits", Num (mean (map deposit_count sub)));
             ("% of Accounts", Num (Fin 100))] in
  concat_row
    [("Deposit Bin", strs (map (bin_label DEP_LABELS) (map fst g)));
     ("Accounts", nums accounts);
     ("Avg $$ Deposits", nums avg_amount);
     ("Avg # Deposits", nums avg_count);
     ("% of Accounts", nums pct_accounts)]
    gt.

Definition personal_deposit_summary : list Row -> DataFrame :=
  deposit_summary PERSONAL_OPEN.
Definition business_deposit_summary : list Row -> DataFrame :=
  deposit_summary BUSINESS_OPEN.

(** ** Analyses 5 and 6: NSF stratification by volume *)

Definition nsf_bin (r : Row) : option nat := cut NSF_BINS (Total_Items r).

Definition nsf_strat (mask : Row -> bool) (df : list Row) : DataFrame :=
  let sub := filter mask df in
  let g := groupby Nat.compare nsf_bin sub in
  let accounts := agg_count g in
  let items := agg_sum total_items g in
  let ta5 := sum accounts in
  let ti5 := sum items in
  let pct_accounts := s_round (s_mul (s_div accounts ta5) (Fin 100)) 2 in
  let pct_items :=
    if (ti5 >? Fin 0)%num
    then s_round (s_mul (s_div items ti5) (Fin 100)) 2
    else fill g (Fin 0) in
  let gt5 := [("NSF Bin", Str "Grand Total"); ("# of Accounts", Num ta5);
              ("% of Accounts", Num (Fin 100));
              ("Total OD/NSF Items", Num ti5);
              ("% of Items Presented", Num (Fin 100))] in
  select ["NSF Bin"; "# of Accounts"; "% of Accounts"; "Total OD/NSF Items";
          "% of Items Presented"]
    (concat_row
       [("NSF Bin", strs (map (bin_label NSF_LABELS) (map fst g)));
        ("# of Accounts", nums accounts);
        ("Total OD/NSF Items", nums items);
        ("% of Accounts", nums pct_accounts);
        ("% of Items Presented", nums pct_items)]
       gt5).

Definition nsf_strat1 : list Row -> DataFrame := nsf_strat PERSONAL_OPEN.
Definition nsf_strat_biz : list Row -> DataFrame := nsf_strat BUSINESS_OPEN.

(** ** Analyses 7 and 8: NSF stratification with the pay rate *)

Definition nsf_pay (mask : Row -> bool) (df : list Row) : DataFrame :=
  let sub := filter mask df in
  let g := groupby Nat.compare nsf_bin sub in
  let accounts := agg_count g in
  let items := agg_sum total_items g in
  let paid := agg_sum paid_items g in
  let ta7 := sum accounts in
  let ti7 := sum items in
  let tp7 := sum paid in
  let pct_accounts := s_round (s_mul (s_div accounts ta7) (Fin 100)) 2 in
  let pct_items :=
    if (ti7 >? Fin 0)%num
    then s_round (s_mul (s_div items ti7) (Fin 100)) 2
    else fill g (Fin 0) in
  let pay_rate :=
    np_where (s_gt items (Fin 0))
      (s_round (s_mul (s_div2 paid items) (Fin 100)) 1) (Fin 0) in
  let gt7 := [("NSF Bin", Str "Grand Total"); ("# of Accounts", Num ta7);
              ("% of Accounts", Num (Fin 100));
              ("Total OD/NSF Items", Num ti7);
              ("% of Items Presented", Num (Fin 100));
              ("# of Items Paid", Num tp7);
              ("% Pay Rate",
               Num (if (ti7 >? Fin 0)%num
                    then round (tp7 / ti7 * Fin 100)%num 1 else Fin 0))] in
  concat_row
    [("NSF Bin", strs (map (bin_label NSF_LABELS) (map fst g)));
     ("# of Accounts", nums accounts);
     ("Total OD/NSF Items", nums items);
     ("# of Items Paid", nums paid);
     ("% of Accounts", nums pct_accounts);
     ("% of Items Presented", nums pct_items);
     ("% Pay Rate", nums pay_rate)]
    gt7.

Definition nsf_pay_p : list Row -> DataFrame := nsf_pay PERSONAL_OPEN.
Definition nsf_pay_b : list Row -> DataFrame := nsf_pay BUSINESS_OPEN.

(** ** Analyses 9 and 10: NSF stratification with deposits and swipes *)

Definition nsf_deps (mask : Row -> bool) (df : list Row) : DataFrame :=
  let p9 := filter mask df in
  let g := groupby Nat.compare nsf_bin p9 in
  let accounts := agg_count g in
  let items := agg_sum total_items g in
  let paid := agg_sum paid_items g in
  let ta9 := sum accounts in
  let ti9 := sum items in
  let tp9 := sum paid in
  let pct_accounts := s_round (s_mul (s_div accounts ta9) (Fin 100)) 2 in
  let pct_items :=
    if (ti9 >? Fin 0)%num
    then s_round (s_mul (s_div items ti9) (Fin 100)) 2
    else fill g (Fin 0) in
  let pay_rate :=
    np_where (s_gt items (Fin 0))
      (s_round (s_mul (s_div2 paid items) (Fin 100)) 1) (Fin 0) in
  let gt9 := [("NSF Bin", Str "Grand Total"); ("# of Accounts", Num ta9);
              ("% of Accounts", Num (Fin 100));
              ("Total OD/NSF Items", Num ti9);
              ("% of Items Presented", Num (Fin 100));
              ("# of Items Paid", Num tp9);
              ("% Pay Rate",
               Num (if (ti9 >? Fin 0)%num
                    then round (tp9 / ti9 * Fin 100)%num 1 else Fin 0));
              ("Avg # Dep/Month", Num (mean (map deposit_count p9)));
              ("Avg $$ Dep/Month", Num (mean (map deposit_amount p9)));
              ("Average of OD Limit", Num (mean (map od_limit p9)));
              ("Average of Swipes", Num (mean (map swipes p9)))] in
  round_col "Average of Swipes" 2
    (round_col "Average of OD Limit" 2
       (round_col "Avg $$ Dep/Month" 2
          (round_col "Avg # Dep/Month" 2
             (concat_row
                [("NSF Bin", strs (map (bin_label NSF_LABELS) (map fst g)));
                 ("# of Accounts", nums accounts);
                 ("Total OD/NSF Items", nums items);
                 ("# of Items Paid", nums paid);
                 ("Avg # Dep/Month", nums (agg_mean deposit_count g));
                 ("Avg $$ Dep/Month", nums (agg_mean deposit_amount g));
                 ("Average of OD Limit", nums (agg_mean od_limit g));
                 ("Average of Swipes", nums (agg_mean swipes g));
                 ("% of Accounts", nums pct_accounts);
                 ("% of Items Presented", nums pct_items);
                 ("% Pay Rate", nums pay_rate)]
                gt9)))).

Definition nsf_deps_p : list Row -> DataFrame := nsf_deps PERSONAL_OPEN.
Definition nsf_deps_b : list Row -> DataFrame := nsf_deps BUSINESS_OPEN.

(** ** Analyses 11 and 12: OD status stratification *)

Definition od_status (mask : Row -> bool) (df : list Row) : DataFrame :=
  let p_od := filter mask df in
  let g := groupby String.compare (fun r => Some (OD_Status r)) p_od in
  let accounts := agg_count g in
  let items := agg_sum total_items g in
  let paid := agg_sum paid_items g in
  let ta11 := sum accounts in
  let ti11 := sum items in
  let tp11 := sum paid in
  let pct_accounts := s_round (s_mul (s_div accounts ta11) (Fin 100)) 2 in
  let pct_items :=
    if (ti11 >? Fin 0)%num
    then s_round (s_mul (s_div items ti11) (Fin 100)) 2
    else fill g (Fin 0) in
  let pay_ratio :=
    np_where (s_gt items (Fin 0)) (s_round (s_div2 paid items) 4) (Fin 0) in
  let gt11 := [("OD Status", Str "Grand Total"); ("# of Accounts", Num ta11);
               ("% of Accounts", Num (Fin 100));
               ("Total OD/NSF Items", Num ti11);
               ("% of Items Presented", Num (Fin 100));
               ("# of Items Paid", Num tp11);
               ("Pay Ratio",
                Num (if (ti11 >? Fin 0)%num
                     then round (tp11 / ti11)%num 4 else Fin 0))] in
  concat_row
    [("OD Status", strs (map fst g));
     ("# of Accounts", nums accounts);
     ("Total OD/NSF Items", nums items);
     ("# of Items Paid", nums paid);
     ("% of Accounts", nums pct_accounts);
     ("% of Items Presented", nums pct_items);
     ("Pay Ratio", nums pay_ratio)]
    gt11.

Definition od_status_personal : list Row -> DataFrame := od_status PERSONAL_OPEN.
Definition od_status_business : list Row -> DataFrame := od_status BUSINESS_OPEN.

(** ** Analysis 13: Reg E summary (personal) *)

Definition reg_e_summary (df : list Row) : DataFrame :=
  let p_rege := filter PERSONAL_OPEN df in
  let g := groupby String.compare Reg_E_Flag p_rege in
  let accounts := agg_count g in
  let ta13 := sum accounts in
  let pct_accounts := s_round (s_mul (s_div accounts ta13) (Fin 100)) 2 in
  let gt13 := [("Reg E Flag", Str "Grand Total"); ("# of Accounts", Num ta13);
               ("% of Accounts", Num (Fin 100))] in
  concat_row
    [("Reg E Flag", strs (map fst g));
     ("# of Accounts", nums accounts);
     ("% of Accounts", nums pct_accounts)]
    gt13.

(** ** Analysis 14: OD limit stratification (personal) *)

(** [.astype(int).astype(str)]: truncation toward zero, printed in decimal. *)
Definition int_str (q : Q) : string :=
  NilZero.string_of_int (Z.to_int (Z.quot (Qnum q) (Zpos (Qden q)))).

Definition od_limit_summary (df : list Row) : DataFrame :=
  let p_odl := filter PERSONAL_OPEN df in
  let g := groupby Qcompare (fun r => Some (OD_Limit r)) p_odl in
  let accounts := agg_count g in
  let items := agg_sum total_items g in
  let paid := agg_sum paid_items g in
  let ta14 := sum accounts in
  let ti14 := sum items in
  let tp14 := sum paid in
  let pct_accounts := s_round (s_mul (s_div accounts ta14) (Fin 100)) 2 in
  let pct_items :=
    if (ti14 >? Fin 0)%num
    then s_round (s_mul (s_div items ti14) (Fin 100)) 2
    else fill g (Fin 0) in
  let pay_ratio :=
    np_where (s_gt items (Fin 0)) (s_round (s_div2 paid items) 4) (Fin 0) in
  let gt14 := [("OD Limit", Str "Grand Total"); ("# of Accounts", Num ta14);
               ("% of Accounts", Num (Fin 100));
               ("Total OD/NSF Items", Num ti14);
               ("% of Items", Num (Fin 100));
               ("# of Items Paid", Num tp14);
               ("Pay Ratio",
                Num (if (ti14 >? Fin 0)%num
                     then round (tp14 / ti14)%num 4 else Fin 0));
               ("Avg # Dep/Month", Num (mean (map deposit_count p_odl)));
               ("Avg $$ Dep/Month", Num (mean (map deposit_amount p_odl)));
               ("Average of Swipes", Num (mean (map swipes p_odl)))] in
  select ["OD Limit"; "# of Accounts"; "% of Accounts"; "Total OD/NSF Items";
          "% of Items"; "# of Items Paid"; "Pay Ratio"; "Avg # Dep/Month";
          "Avg $$ Dep/Month"; "Average of Swipes"]
    (concat_row
       [("OD Limit", strs (map int_str (map fst g)));
        ("# of Accounts", nums accounts);
        ("Total OD/NSF Items", nums items);
        ("# of Items Paid", nums paid);
        ("Avg # Dep/Month", nums (agg_mean deposit_count g));
        ("Avg $$ Dep/Month", nums (agg_mean deposit_amount g));
        ("Average of Swipes", nums (agg_mean swipes g));
        ("% of Accounts", nums pct_accounts);
        ("% of Items", nums pct_items);
        ("Pay Ratio", nums pay_ratio)]
       gt14).

(** ** Analysis 15: historical Reg E by year opened *)

Definition str (z : Z) : string := NilZero.string_of_int (Z.to_int z).

Definition assign_year_bin (year : option Z) : string :=
  match year with
  | None => "Unknown"
  | Some y =>
      if (y <? 2010)%Z then "<2010"
      else if (y <=? 2025)%Z then str y
      else "2025+"
  end.

(** Keys of a [groupby(..., dropna=False)]: the null key sorts last. *)
Definition cmp_flag (a b : option string) : comparison :=
  match a, b with
  | Some x, Some y => String.compare x y
  | Some _, None => Lt
  | None, Some _ => Gt
  | None, None => Eq
  end.

Definition cmp_pair (a b : string * option string) : comparison :=
  match String.compare (fst a) (fst b) with
  | Eq => cmp_flag (snd a) (snd b)
  | c => c
  end.

(** The distinct values of a key column, sorted. *)
Definition unique_sorted {K} (cmp : K -> K -> comparison) (l : list K) : list K :=
  map fst (groupby cmp (fun k => Some k) l).

(** Python's [sorted] on strings. *)
Fixpoint insert_sorted (x : string) (l : list string) : list string :=
  match l with
  | [] => [x]
  | y :: rest =>
      match String.compare x y with
      | Gt => y :: insert_sorted x rest
      | _ => x :: l
      end
  end.

Definition sorted (l : list string) : list string :=
  fold_right insert_sorted [] l.

Definition fillna1 (v k : num) : num := if isna v then k else v.

Definition fillna (s : list num) (k : num) : list num :=
  map (fun v => fillna1 v k) s.

(** [df.sum(axis=1)] of a frame of [n] rows. *)
Definition sum_axis1 (n : nat) (df : DataFrame) : list num :=
  map (fun i => sum (flat_map (fun cs => values [nth i (snd cs) (Num NaN)]) df))
    (seq 0 n).

(** [s.replace({0: pd.NA})]. *)
Definition replace_zero_na (s : list num) : list num :=
  map (fun v => match v with
                | Fin q => if Qeq_bool q 0 then NaN else v
                | _ => v
                end) s.

(** [df[c] = s]: replaces the column, or adds it at the end. *)
Fixpoint assign (c : string) (s : Series) (df : DataFrame) : DataFrame :=
  match df with
  | [] => [(c, s)]
  | (c', s') :: rest =>
      if String.eqb c c' then (c, s) :: rest else (c', s') :: assign c s rest
  end.

Fixpoint lookup_assign {A} (c : string) (v : A) (row : list (string * A))
  : list (string * A) :=
  match row with
  | [] => [(c, v)]
  | (c', v') :: rest =>
      if String.eqb c c' then (c, v) :: rest
      else (c', v') :: lookup_assign c v rest
  end.

Definition get_nums (c : string) (df : DataFrame) : list num :=
  match get c df with
  | Some s => values s
  | None => []
  end.

Definition lookup_num (c : string) (row : list (string * cell)) : num :=
  match lookup c row with
  | Some (Num v) => v
  | _ => NaN
  end.

(** Python's [sub in s] on strings. *)
Fixpoint contains (sub s : string) : bool :=
  String.prefix sub s ||
  match s with
  | EmptyString => false
  | String _ rest => contains sub rest
  end.

Definition sort_order : list string :=
  ["<2010"] ++ map (fun i => str (2010 + Z.of_nat i)) (seq 0 16)
  ++ ["2025+"; "Unknown"; "Grand Total"].

(** The code of a value in [pd.Categorical(..., categories)]: its position,
    [None] (NaN) when it is no category. *)
Fixpoint index_of (s : string) (l : list string) : option nat :=
  match l with
  | [] => None
  | x :: rest =>
      if String.eqb s x then Some 0%nat else option_map S (index_of s rest)
  end.

Definition category_code (categories : list string) (c : cell) : option nat :=
  match c with
  | Str s => index_of s categories
  | Num _ => None
  end.

(** Order of the codes in [sort_values]: ascending, NaN last. *)
Definition code_leb (a b : option nat) : bool :=
  match a, b with
  | Some x, Some y => (x <=? y)%nat
  | _, None => true
  | None, Some _ => false
  end.

Fixpoint insert_by (x : option nat * nat) (l : list (option nat * nat))
  : list (option nat * nat) :=
  match l with
  | [] => [x]
  | y :: rest =>
      if code_leb (fst x) (fst y) then x :: l else y :: insert_by x rest
  end.

(** The row positions in sorted order (a stable sort). *)
Definition argsort (codes : list (option nat)) : list nat :=
  map snd (fold_right insert_by []
             (combine codes (seq 0 (List.length codes)))).

Definition take (idx : list nat) (df : DataFrame) : DataFrame :=
  map (fun cs => (fst cs, map (fun i => nth i (snd cs) (Num NaN)) idx)) df.

(** [df.sort_values(c)] for a categorical column [c]. *)
Definition sort_values (c : string) (categories : list string) (df : DataFrame)
  : DataFrame :=
  match get c df with
  | Some s => take (argsort (map (category_code categories) s)) df
  | None => df
  end.

Definition year_bin (r : Row) : string := assign_year_bin (Year_Opened r).

Definition notna {A} (o : option A) : bool :=
  match o with Some _ => true | None => false end.

(** The count of one (year bin, flag) cell of the pivot; NaN when the pair
    does not occur. *)
Definition pivot_value (raw : list ((string * option string) * list Row))
  (y : string) (f : option string) : num :=
  match find (fun kg => match cmp_pair (fst kg) (y, f) with
                        | Eq => true
                        | _ => false
                        end) raw with
  | Some kg => of_nat (List.length (snd kg))
  | None => NaN
  end.

Definition is_truthy (o : option string) : bool :=
  match o with
  | Some s => negb (String.eqb s "")
  | None => false
  end.

Definition flag_or_empty (o : option string) : string :=
  match o with Some s => s | None => "" end.

(** The steps of the block, one definition per assignment. *)

Definition p_hist (df : list Row) : list Row :=
  filter (fun r => notna (Open_Date r)) (filter PERSONAL_OPEN df).

Definition pivot_raw (df : list Row)
  : list ((string * option string) * list Row) :=
  groupby cmp_pair (fun r => Some (year_bin r, Reg_E_Flag r)) (p_hist df).

(** [pivot_raw.pivot(index="Year Bin", columns="Reg E Flag", ...)]: its
    index, its columns, and one column of it after [.fillna(0)]. *)
Definition pivot_index (df : list Row) : list string :=
  unique_sorted String.compare (map (fun kg => fst (fst kg)) (pivot_raw df)).

Definition pivot_columns (df : list Row) : list (option string) :=
  unique_sorted cmp_flag (map (fun kg => snd (fst kg)) (pivot_raw df)).

Definition pivoted (df : list Row) (f : option string) : list num :=
  fillna (map (fun y => pivot_value (pivot_raw df) y f) (pivot_index df))
    (Fin 0).

(** [sorted([c for c in pivot_table.columns if c is not None])]. *)
Definition reg_e_flags (df : list Row) : list string :=
  sorted (flat_map (fun c => match c with Some s => [s] | None => [] end)
            (pivot_columns df)).

(** [pivot_table.reindex(columns=reg_e_flags)]. *)
Definition pivot_reindexed (df : list Row) : DataFrame :=
  map (fun f => (f, nums (pivoted df (Some f)))) (reg_e_flags df).

Definition pivot_with_accounts (df : list Row) : DataFrame :=
  assign "# of Accounts"
    (nums (sum_axis1 (List.length (pivot_index df)) (pivot_reindexed df)))
    (pivot_reindexed df).

Definition opt_in_flag (df : list Row) : option string :=
  if existsb (String.eqb "Y") (reg_e_flags df) then Some "Y"
  else hd_error (reg_e_flags df).

Definition opt_in (df : list Row) : list num :=
  if is_truthy (opt_in_flag df)
  then
    let denom :=
      replace_zero_na (get_nums "# of Accounts" (pivot_with_accounts df)) in
    fillna (s_mul (s_div2 (get_nums (flag_or_empty (opt_in_flag df))
                             (pivot_with_accounts df)) denom)
              (Fin 100)) (Fin 0)
  else repeat (Fin 0) (List.length (pivot_index df)).

Definition pivot_with_opt_in (df : list Row) : DataFrame :=
  assign "Opt In %" (nums (opt_in df)) (pivot_with_accounts df).

(** [pivot_table.sum(numeric_only=True)], then the opt-in rate of the
    totals. *)
Definition column_sums (t : DataFrame) : list (string * cell) :=
  map (fun cs => (fst cs, Num (sum (values (snd cs))))) t.

Definition grand_total_hist (df : list Row) : list (string * cell) :=
  let sums := column_sums (pivot_with_opt_in df) in
  if is_truthy (opt_in_flag df)
  then lookup_assign "Opt In %"
         (Num (fillna1 (lookup_num (flag_or_empty (opt_in_flag df)) sums
                        / lookup_num "# of Accounts" sums
                        * Fin 100)%num (Fin 0)))
         sums
  else sums.

Definition pivot_joined (df : list Row) : DataFrame :=
  concat_row (pivot_with_opt_in df) (grand_total_hist df).

(** The "clean types" step: counts to integers, the rate to one decimal. *)
Definition int_cols (df : list Row) : list string :=
  filter (fun c => existsb (String.eqb c) (reg_e_flags df) || contains "# of" c)
    (map fst (pivot_joined df)).

Definition pivot_cleaned (df : list Row) : DataFrame :=
  round_col "Opt In %" 1
    (fold_left (fun t c => round_col c 0 t) (int_cols df) (pivot_joined df)).

(** [reset_index()] and the renaming of the index column. *)
Definition pivot_with_index (df : list Row) : DataFrame :=
  ("Year Opened", strs (pivot_index df ++ ["Grand Total"])) :: pivot_cleaned df.

Definition pivot_table (df : list Row) : DataFrame :=
  sort_values "Year Opened" sort_order (pivot_with_index df).

(* ================================================================= *)
(** ** The helper [add_grand_total] *)

(** [str.lower] on the ASCII letters. *)
Definition lower_ascii (c : ascii) : ascii :=
  let n := nat_of_ascii c in
  if (65 <=? n)%nat && (n <=? 90)%nat then ascii_of_nat (n + 32) else c.

Fixpoint lower (s : string) : string :=
  match s with
  | EmptyString => EmptyString
  | String c rest => String (lower_ascii c) (lower rest)
  end.

Definition is_num (c : cell) : bool :=
  match c with Num _ => true | Str _ => false end.

Definition cell_text (c : cell) : string :=
  match c with Str s => s | Num _ => "" end.

(** [summary_df[col].sum()]: the sum of a numeric column, the concatenation
    of a column of strings; [None] is the TypeError of a mixed column. *)
Definition series_sum (s : Series) : option cell :=
  if forallb is_num s then Some (Num (sum (values s)))
  else if forallb (fun c => negb (is_num c)) s
       then Some (Str (String.concat "" (map cell_text s)))
       else None.

(** The test of the [elif] branch, as the source writes it. *)
Definition is_placeholder (col : string) : bool :=
  contains "%" col || contains "Ratio" (lower col) || contains "Avg" col
  || contains "Average" col || contains "Med" col.

Definition add_grand_total (summary_df : DataFrame) (label_col label : string)
  : option (list (string * cell)) :=
  fold_left
    (fun totals cs =>
       match totals with
       | None => None
       | Some t =>
           let col := fst cs in
           if String.eqb col label_col then Some (lookup_assign col (Str label) t)
           else if is_placeholder col then Some (lookup_assign col (Num NaN) t)
           else option_map (fun v => lookup_assign col v t) (series_sum (snd cs))
       end)
    summary_df (Some []).

(* ================================================================= *)
(** ** Section 4 of the script as a program *)

(** The script runs at module level: every statement reads the global [df]
    and binds a global variable; an exception nobody catches ends it. *)

Inductive exn : Type :=
| KeyError (col : string).

Record Frame : Type := {
  frame_columns : list string;
  frame_rows : list Row
}.

Record Env : Type := {
  df : Frame;
  clock : Z;
  globals : list (string * DataFrame)
}.

Definition M (A : Type) : Type := Env -> exn + (A * Env).

Definition ret {A} (a : A) : M A := fun e => inr (a, e).

Definition bind {A B} (m : M A) (k : A -> M B) : M B :=
  fun e => match m e with
           | inl x => inl x
           | inr (a, e') => k a e'
           end.

Notation "m ;; k" := (bind m (fun _ => k)) (at level 61, right associativity).

(** [df[c]] raises KeyError when the frame has no such column. *)
Definition require (c : string) : M unit :=
  fun e => if existsb (String.eqb c) (frame_columns (df e))
           then inr (tt, e) else inl (KeyError c).

Fixpoint require_all (cs : list string) : M unit :=
  match cs with
  | [] => ret tt
  | c :: rest => require c ;; require_all rest
  end.

Definition set_global (name : string) (build : list Row -> DataFrame) : M unit :=
  fun e => inr (tt, {| df := df e;
                       clock := clock e;
                       globals := lookup_assign name
                                    (build (frame_rows (df e))) (globals e) |}).

(** One analysis block: the columns it reads, in the order it reads them,
    then the table it binds. *)
Definition analysis (name : string) (reads : list string)
  (build : list Row -> DataFrame) : M unit :=
  require_all reads ;; set_global name build.

Definition common_filters : M unit :=
  require_all ["Account Status"; "Business Flag"].

Definition script : list (string * M unit) :=
  [("Analysis 1",
    analysis "stat_code_summary"
      ["Account Status"; "AcctNo"; "Total Items"; "Paid Items"]
      stat_code_summary);
   ("Analysis 2",
    analysis "acct_type_summary"
      ["Business Flag"; "AcctNo"; "Total Items"; "Paid Items"]
      acct_type_summary);
   ("Analysis 3",
    analysis "personal_deposit_summary"
      ["Deposit Count"; "AcctNo"; "Deposit Amount"] personal_deposit_summary);
   ("Analysis 4",
    analysis "business_deposit_summary"
      ["Deposit Count"; "AcctNo"; "Deposit Amount"] business_deposit_summary);
   ("Analysis 5",
    analysis "nsf_strat1" ["Total Items"; "AcctNo"] nsf_strat1);
   ("Analysis 6",
    analysis "nsf_strat_biz" ["Total Items"; "AcctNo"] nsf_strat_biz);
   ("Analysis 7",
    analysis "nsf_pay_p" ["Total Items"; "AcctNo"; "Paid Items"] nsf_pay_p);
   ("Analysis 8",
    analysis "nsf_pay_b" ["Total Items"; "AcctNo"; "Paid Items"] nsf_pay_b);
   ("Analysis 9",
    analysis "nsf_deps_p"
      ["Total Items"; "AcctNo"; "Paid Items"; "Deposit Count";
       "Deposit Amount"; "OD Limit"; "Swipes"] nsf_deps_p);
   ("Analysis 10",
    analysis "nsf_deps_b"
      ["Total Items"; "AcctNo"; "Paid Items"; "Deposit Count";
       "Deposit Amount"; "OD Limit"; "Swipes"] nsf_deps_b);
   ("Analysis 11",
    analysis "od_status_personal"
      ["OD Status"; "AcctNo"; "Total Items"; "Paid Items"] od_status_personal);
   ("Analysis 12",
    analysis "od_status_business"
      ["OD Status"; "AcctNo"; "Total Items"; "Paid Items"] od_status_business);
   ("Analysis 13",
    analysis "reg_e_summary" ["Reg E Flag"; "AcctNo"] reg_e_summary);
   ("Analysis 14",
    analysis "od_limit_summary"
      ["OD Limit"; "AcctNo"; "Total Items"; "Paid Items"; "Deposit Count";
       "Deposit Amount"; "Swipes"] od_limit_summary);
   ("Analysis 15",
    analysis "pivot_table"
      ["Open Date"; "Year Opened"; "Reg E Flag"; "AcctNo"] pivot_table)].

(** The blocks one after the other, as the interpreter runs them. *)
Fixpoint run_steps (steps : list (string * M unit)) : M unit :=
  match steps with
  | [] => ret tt
  | s :: rest => snd s ;; run_steps rest
  end.

Definition run_analyses : M unit := common_filters ;; run_steps script.

Definition table_of (e : Env) (name : string) : DataFrame :=
  match lookup name (globals e) with
  | Some t => t
  | None => []
  end.

(** The [tabs] list handed to the renderers. *)
Definition tabs (e : Env) : list (string * DataFrame) :=
  [("Stat_Code_Analysis", table_of e "stat_code_summary");
   ("Account_Type", table_of e "acct_type_summary");
   ("Personal_Deposits", table_of e "personal_deposit_summary");
   ("Business_Deposits", table_of e "business_deposit_summary");
   ("NSF_Strat_Personal", table_of e "nsf_strat1");
   ("NSF_Strat_Business", table_of e "nsf_strat_biz");
   ("NSF_PayRatio_Personal", table_of e "nsf_pay_p");
   ("NSF_PayRatio_Business", table_of e "nsf_pay_b");
   ("NSF_Full_Personal", table_of e "nsf_deps_p");
   ("NSF_Full_Business", table_of e "nsf_deps_b");
   ("OD_Status_Personal", table_of e "od_status_personal");
   ("OD_Status_Business", table_of e "od_status_business");
   ("Reg_E_Summary", table_of e "reg_e_summary");
   ("OD_Limit_Strat", table_of e "od_limit_summary");
   ("Historical_Reg_E", table_of e "pivot_table")].

(** A run: the tables reach the renderers only when no block raised. *)
Definition main (e : Env) : exn + list (string * DataFrame) :=
  match run_analyses e with
  | inl x => inl x
  | inr (_, e') => inr (tabs e')
  end.

(* ================================================================= *)
(** ** Section 3 of the script: the slide tables *)

(** [f"{val:,}"] for an integer: the decimal digits in groups of three,
    counted from the right. *)
Fixpoint group3 (rev_digits : list ascii) : list ascii :=
  match rev_digits with
  | a :: b :: c :: ((_ :: _) as rest) =>
      a :: b :: c :: ","%char :: group3 rest
  | _ => rev_digits
  end.

Definition thousands (val : Z) : string :=
  let digits := list_ascii_of_string (str (Z.abs val)) in
  let grouped := string_of_list_ascii (rev (group3 (rev digits))) in
  if (val <? 0)%Z then String "-" grouped else grouped.

(** [format_ppt_table] makes a row bold when the text of its first cell, in
    lower case, holds "total" or "grand".  The text of a number (digits,
    sign, point, exponent, nan, inf) holds neither word. *)
Definition bold_row (first : cell) : bool :=
  match first with
  | Str s =>
      let first_val := lower s in
      contains "total" first_val || contains "grand" first_val
  | Num _ => false
  end.

(** [min(a, b)]: the first argument unless the second is smaller. *)
Definition min2 (a b : Q) : Q := if Qltb b a then b else a.

Definition shape (data : DataFrame) : nat * nat :=
  (nrows data, List.length data).

Inductive arith_exn : Type :=
| ZeroDivisionError.

(** The arguments of [slide.shapes.add_table], the lengths in inches. *)
Record TableBox : Type := {
  n_rows : nat;
  n_cols : nat;
  box_left : Q;
  box_top : Q;
  table_width : Q;
  table_height : Q
}.

Definition of_int (n : nat) : Q := inject_Z (Z.of_nat n).

(** The sizing of [add_slide_with_table]: one more row than the frame for
    the header; [9.0 / n_cols] raises on a frame without columns. *)
Definition add_slide_with_table (data_df : DataFrame) : arith_exn + TableBox :=
  let n_rows := S (fst (shape data_df)) in
  let n_cols := snd (shape data_df) in
  let row_height := 28 # 100 in
  let table_height := min2 (row_height * of_int n_rows + (3 # 10)) (55 # 10) in
  if (n_cols =? 0)%nat then inl ZeroDivisionError
  else
    let col_width := min2 (9 / of_int n_cols) (15 # 10) in
    let table_width := min2 (col_width * of_int n_cols + (5 # 10)) (95 # 10) in
    inr {| n_rows := n_rows; n_cols := n_cols;
           box_left := 3 # 10; box_top := 12 # 10;
           table_width := table_width; table_height := table_height |}.

(* ================================================================= *)
(** ** Vocabulary of the statements *)

(** The cell of the last row of a table in column [c]. *)
Definition total_cell (c : string) (T : DataFrame) : option cell :=
  lookup c (last_row T).

(** The cells of column [c] above the last row. *)
Definition group_cells (c : string) (T : DataFrame) : option Series :=
  get c (body T).

(** The last row holds the number [v] in column [c]. *)
Definition total_is (T : DataFrame) (c : string) (v : num) : Prop :=
  exists w, total_cell c T = Some (Num w) /\ w =~ v.

(** The exact sum of a measure over rows. *)
Definition qsum {A} (f : A -> Q) (l : list A) : Q :=
  fold_right (fun r acc => f r + acc) 0 l.

Definition qcount {A} (l : list A) : Q := inject_Z (Z.of_nat (List.length l)).

(** Paid over presented, for whole populations: [scale] is 1 for a ratio
    and 100 for a rate, [p] the decimals kept. *)
Definition ratio_of_totals (paid items scale : Q) (p : nat) : num :=
  if Qltb 0 items then Fin (round_half_even (paid / items * scale) p)
  else Fin 0.

(** The mean of a measure over a population; NaN on an empty one. *)
Definition population_mean (f : Row -> Q) (rows : list Row) : num :=
  match rows with
  | [] => NaN
  | _ => Fin (qsum f rows / qcount rows)
  end.

(** The invariant of the records on item counts. *)
Definition nonneg_items (df : list Row) : Prop :=
  Forall (fun r => 0 <= Total_Items r) df.

(** The fifteen tables of a run, in the order of the report. *)
Definition report_tables (df : list Row) : list DataFrame :=
  [stat_code_summary df; acct_type_summary df;
   personal_deposit_summary df; business_deposit_summary df;
   nsf_strat1 df; nsf_strat_biz df; nsf_pay_p df; nsf_pay_b df;
   nsf_deps_p df; nsf_deps_b df;
   od_status_personal df; od_status_business df;
   reg_e_summary df; od_limit_summary df; pivot_table df].

(** The columns that hold counts. *)
Definition count_columns : list string :=
  ["# of Accounts"; "Accounts"; "# of Items"; "Total OD/NSF Items";
   "# of Items Paid"; "# of Paid Items"].

(** The last row of [T] holds, in column [c], the sum of the rows above. *)
Definition reconciles (c : string) (T : DataFrame) : Prop :=
  total_is T c (col_sum c (body T)).

(** Scenario C: two personal open accounts, items presented [100, 0] and
    items paid [40, 0]. *)
Definition account (status flag : string) (items paid : Q) : Row :=
  {| AcctNo := 0; Account_Status := status; Business_Flag := flag;
     Total_Items := items; Paid_Items := paid; OD_Limit := 0;
     OD_Status := "A"; Reg_E_Flag := None; Open_Date := None;
     Deposit_Amount := 0; Deposit_Count := 0; Swipes := 0 |}.

Definition scenario_C : list Row :=
  [account "O" "P" 100 40; account "O" "P" 0 0].

(** In column [c], the last row of [T] holds paid over presented items of
    the population [pop]. *)
Definition pay_total_is (T : DataFrame) (c : string) (pop : list Row)
  (scale : Q) (p : nat) : Prop :=
  total_is T c
    (ratio_of_totals (qsum Paid_Items pop) (qsum Total_Items pop) scale p).

Definition Deposit_Count_Q (r : Row) : Q := inject_Z (Deposit_Count r).

(** The pairs (value column, its "% of X" column) of the tables. *)
Definition pct_pairs : list (string * string) :=
  [("# of Accounts", "% of Accounts"); ("Accounts", "% of Accounts");
   ("# of Items", "% of Items");
   ("Total OD/NSF Items", "% of Items Presented");
   ("Total OD/NSF Items", "% of Items")].

(** Above the total, column [dst] is column [src] over its unrounded sum,
    times 100, rounded once to [p] decimals. *)
Definition pct_of (T : DataFrame) (src dst : string) (p : nat) : Prop :=
  exists xs,
    group_cells src T = Some (nums xs) /\
    group_cells dst T
    = Some (nums (map (fun x => round (x / sum xs * Fin 100)%num p) xs)).

(** Above the total, column [dst] sums to 100 within n * 10^-p. *)
Definition closes (T : DataFrame) (dst : string) (p : nat) : Prop :=
  exists s,
    col_sum dst (body T) = Fin s /\
    Qabs (s - 100) <= inject_Z (Z.of_nat (nrows (body T))) / pow10 p.

(** The fourteen tables grouped by a single key. *)
Definition single_key_tables (df : list Row) : list DataFrame :=
  removelast (report_tables df).

(** The first column of a table, which holds the row labels. *)
Definition label_column (T : DataFrame) : Series :=
  match T with
  | (_, s) :: _ => s
  | [] => []
  end.

(** Scenario D: twenty personal open accounts, three without a flag. *)
Definition flagged (f : option string) : Row :=
  {| AcctNo := 0; Account_Status := "O"; Business_Flag := "P";
     Total_Items := 0; Paid_Items := 0; OD_Limit := 0;
     OD_Status := "A"; Reg_E_Flag := f; Open_Date := None;
     Deposit_Amount := 0; Deposit_Count := 0; Swipes := 0 |}.

Definition scenario_D : list Row :=
  repeat (flagged (Some "Y")) 10 ++ repeat (flagged (Some "N")) 7
  ++ repeat (flagged None) 3.

Definition column (c : string) (T : DataFrame) : Series :=
  match get c T with
  | Some s => s
  | None => []
  end.

(** [T] has a row for the null key (its label is NaN) whose count is [n]. *)
Definition emits_null_group (T : DataFrame) (key count : string) (n : nat)
  : Prop :=
  exists i v,
    nth_error (column key T) i = Some (Num NaN) /\
    nth_error (column count T) i = Some (Num v) /\ v =~ of_nat n.

(** How many rows carry the flag [f]. *)
Definition flag_count (f : string) (pop : list Row) : nat :=
  List.length
    (filter (fun r => match Reg_E_Flag r with
                      | Some f' => String.eqb f' f
                      | None => false
                      end) pop).

Definition flag_recorded (pop : list Row) : list Row :=
  filter (fun r => notna (Reg_E_Flag r)) pop.

(** The report of a run over [rows], by sheet name. *)
Definition named_tables (rows : list Row) : list (string * DataFrame) :=
  combine
    ["Stat_Code_Analysis"; "Account_Type"; "Personal_Deposits";
     "Business_Deposits"; "NSF_Strat_Personal"; "NSF_Strat_Business";
     "NSF_PayRatio_Personal"; "NSF_PayRatio_Business"; "NSF_Full_Personal";
     "NSF_Full_Business"; "OD_Status_Personal"; "OD_Status_Business";
     "Reg_E_Summary"; "OD_Limit_Strat"; "Historical_Reg_E"]
    (report_tables rows).

(** A cleaned frame whose source file had no [ODStatus] column. *)
Definition no_od_status : Env :=
  {| df := {| frame_columns :=
                ["AcctNo"; "Account Status"; "Business Flag"; "Total Items";
                 "Paid Items"; "Returned Items"; "OD Limit"; "Reg E Flag";
                 "Open Date"; "Year Opened"; "Avg Bal"; "Deposit Amount";
                 "Deposit Count"; "Swipes"; "Spend"];
              frame_rows := scenario_C |};
     clock := 0;
     globals := [] |}.

(** The run goes through: the renderers receive the tables. *)
Definition completes (e : Env) : Prop := exists out, main e = inr out.

(** The block [step] raises nothing when run on its own from [e]. *)
Definition succeeds (step : M unit) (e : Env) : Prop :=
  exists e', step e = inr (tt, e').

(** A cleaned frame with every column the script reads. *)
Definition all_columns : list string :=
  ["AcctNo"; "Account Status"; "Business Flag"; "Total Items"; "Paid Items";
   "Returned Items"; "OD Limit"; "OD Status"; "Reg E Flag"; "Open Date";
   "Year Opened"; "Avg Bal"; "Deposit Amount"; "Deposit Count"; "Swipes";
   "Spend"].

Definition first_run : Env :=
  {| df := {| frame_columns := all_columns; frame_rows := scenario_D |};
     clock := 0;
     globals := [] |}.

(** The same frame, later, with a table left over from an earlier run. *)
Definition later_run : Env :=
  {| df := df first_run;
     clock := 86400;
     globals := [("stat_code_summary", [])] |}.

(** A summary with a ratio column, as the analyses build them. *)
Definition ratio_summary : DataFrame :=
  [("Account Status", [Str "O"; Str "C"]);
   ("# of Accounts", [Num (Fin 6); Num (Fin 4)]);
   ("% of Accounts", [Num (Fin 60); Num (Fin 40)]);
   ("Pay Ratio", [Num (Fin (1 # 2)); Num (Fin (1 # 4))])].

(** Personal open accounts with an open date, for the historical table. *)
Definition opened (y : Z) (f : option string) : Row :=
  {| AcctNo := 0; Account_Status := "O"; Business_Flag := "P";
     Total_Items := 0; Paid_Items := 0; OD_Limit := 0;
     OD_Status := "A"; Reg_E_Flag := f;
     Open_Date := Some {| year := y; month := 1; day := 1 |};
     Deposit_Amount := 0; Deposit_Count := 0; Swipes := 0 |}.

Definition scenario_hist : list Row :=
  [opened 2030 (Some "N"); opened 2012 (Some "Y"); opened 2012 None;
   opened 2005 (Some "Y"); opened 2013 None].

(** The tables with a pay ratio or a pay rate, each with its column of
    presented items and its ratio column. *)
Definition ratio_tables (mask : Row -> bool) (df : list Row)
  : list (DataFrame * string * string) :=
  [(stat_code_summary df, "# of Items", "Pay Ratio");
   (acct_type_summary df, "# of Items", "Pay Ratio");
   (nsf_pay mask df, "Total OD/NSF Items", "% Pay Rate");
   (nsf_deps mask df, "Total OD/NSF Items", "% Pay Rate");
   (od_status mask df, "Total OD/NSF Items", "Pay Ratio");
   (od_limit_summary df, "Total OD/NSF Items", "Pay Ratio")].

(** *** Bins *)

Definition bound_lt (b : bound) (v : Q) : Prop :=
  match b with
  | B q => q < v
  | Inf => False
  end.

Definition le_bound (v : Q) (b : bound) : Prop :=
  match b with
  | B q => v <= q
  | Inf => True
  end.

(** [v] lies in the half-open interval number [i] of [bins]. *)
Definition in_bin (bins : list bound) (i : nat) (v : Q) : Prop :=
  exists lo hi,
    nth_error bins i = Some lo /\ nth_error bins (S i) = Some hi /\
    bound_lt lo v /\ le_bound v hi.

(** *** Groups *)

Section GroupVocabulary.
Context {A K : Type} (cmp : K -> K -> comparison).

(** The sum of [f] over the rows of all groups. *)
Definition gsum (f : A -> Q) (g : list (K * list A)) : Q :=
  qsum (fun kg => qsum f (snd kg)) g.

Definition has_key (key : A -> option K) (r : A) : bool :=
  match key r with Some _ => true | None => false end.

Definition key_lt (a b : K) : Prop := cmp a b = Lt.

(** The rows filed under [k]. *)
Fixpoint assoc (k : K) (gs : list (K * list A)) : list A :=
  match gs with
  | [] => []
  | (k', rs) :: rest =>
      match cmp k k' with
      | Eq => rs
      | _ => assoc k rest
      end
  end.

Definition keys (gs : list (K * list A)) : list K := map fst gs.

(** The rows of [rows] whose key is [k]. *)
Definition rows_with (key : A -> option K) (k : K) (rows : list A) : list A :=
  filter (fun r => match key r with
                   | Some k' => match cmp k' k with Eq => true | _ => false end
                   | None => false
                   end) rows.

End GroupVocabulary.

(** *** Sorting by category code, whole numbers, and the script's blocks *)

(** [a] sorts strictly before [b]. *)
Definition code_lt (a b : option nat) : Prop := code_leb b a = false.

Definition is_fin (v : num) : Prop := exists q, v = Fin q.
Definition integral (v : num) : Prop := exists z, v =~ of_Z z.

(** What a block may do: fail or not by the frame alone, and leave the
    frame and the clock as they were. *)
Definition frame_only (m : M unit) : Prop :=
  (forall e e', m e = inr (tt, e') -> df e' = df e /\ clock e' = clock e) /\
  (forall e1 e2 x, df e1 = df e2 -> m e1 = inl x -> m e2 = inl x).

(** *** Populations of the tables *)

(** The rows that [pd.cut] files under a bin: those above the first edge. *)
Definition binned_items (pop : list Row) : list Row :=
  filter (fun r => Qltb (-1) (Total_Items r)) pop.

Definition binned_deposits (pop : list Row) : list Row :=
  filter (fun r => (-1 <? Deposit_Count r)%Z) pop.

Definition with_status (k : string) (pop : list Row) : list Row :=
  filter (fun r => String.eqb (Account_Status r) k) pop.

(** Open accounts that are neither personal nor business. *)
Definition OTHER_OPEN (r : Row) : bool :=
  OPEN_MASK r && negb (String.eqb (Business_Flag r) "P")
  && negb (String.eqb (Business_Flag r) "B").

(** *** The run *)

(** The frame has no column [c]. *)
Definition missing (f : Frame) (c : string) : bool :=
  negb (existsb (String.eqb c) (frame_columns f)).

(** The columns the script reads, in the order in which it reads them: the
    common filters, then the fifteen analyses. *)
Definition read_order : list string :=
  ["Account Status"; "Business Flag"]
  ++ ["Account Status"; "AcctNo"; "Total Items"; "Paid Items"]
  ++ ["Business Flag"; "AcctNo"; "Total Items"; "Paid Items"]
  ++ ["Deposit Count"; "AcctNo"; "Deposit Amount"]
  ++ ["Deposit Count"; "AcctNo"; "Deposit Amount"]
  ++ ["Total Items"; "AcctNo"]
  ++ ["Total Items"; "AcctNo"]
  ++ ["Total Items"; "AcctNo"; "Paid Items"]
  ++ ["Total Items"; "AcctNo"; "Paid Items"]
  ++ ["Total Items"; "AcctNo"; "Paid Items"; "Deposit Count";
      "Deposit Amount"; "OD Limit"; "Swipes"]
  ++ ["Total Items"; "AcctNo"; "Paid Items"; "Deposit Count";
      "Deposit Amount"; "OD Limit"; "Swipes"]
  ++ ["OD Status"; "AcctNo"; "Total Items"; "Paid Items"]
  ++ ["OD Status"; "AcctNo"; "Total Items"; "Paid Items"]
  ++ ["Reg E Flag"; "AcctNo"]
  ++ ["OD Limit"; "AcctNo"; "Total Items"; "Paid Items"; "Deposit Count";
      "Deposit Amount"; "Swipes"]
  ++ ["Open Date"; "Year Opened"; "Reg E Flag"; "AcctNo"].

(** The thirteen columns a run needs. *)
Definition needed_columns : list string :=
  ["Account Status"; "Business Flag"; "AcctNo"; "Total Items"; "Paid Items";
   "Deposit Count"; "Deposit Amount"; "OD Limit"; "Swipes"; "OD Status";
   "Reg E Flag"; "Open Date"; "Year Opened"].

(** *** The helper [add_grand_total] *)

(** What the helper stores for one column; [None] when the sum raises. *)
Definition total_entry (label_col label : string) (cs : string * Series)
  : option cell :=
  if String.eqb (fst cs) label_col then Some (Str label)
  else if is_placeholder (fst cs) then Some (Num NaN)
  else series_sum (snd cs).

(** *** The slide tables *)

(** The tables whose rows are bins. *)
Definition binned_tables (mask : Row -> bool) (df : list Row) : list DataFrame :=
  [deposit_summary mask df; nsf_strat mask df; nsf_pay mask df;
   nsf_deps mask df].

(** The text without its commas. *)
Definition strip_commas (s : string) : string :=
  string_of_list_ascii
    (filter (fun c => negb (Ascii.eqb c ",")) (list_ascii_of_string s)).

(** The character of [s] at place [i] counted from the right, from 0. *)
Definition from_right (s : string) (i : nat) : option ascii :=
  nth_error (rev (list_ascii_of_string s)) i.

(** *** The historical table *)

(** [a] comes strictly before [b] in the list of categories. *)
Definition before (categories : list string) (a b : string) : Prop :=
  exists i j,
    index_of a categories = Some i /\ index_of b categories = Some j /\
    (i < j)%nat.

(** The account [r] carries the Reg E flag [f]; it was opened in the year
    bin [y]. *)
Definition carries (f : string) (r : Row) : bool :=
  match Reg_E_Flag r with
  | Some f' => String.eqb f' f
  | None => false
  end.

Definition in_year_bin (y : string) (r : Row) : bool :=
  String.eqb (year_bin r) y.

(** The accounts of the historical population in the year bin [y]: those
    with the flag [f], and those with a recorded flag. *)
Definition hist_count (df : list Row) (y f : string) : nat :=
  List.length (filter (fun r => in_year_bin y r && carries f r) (p_hist df)).

Definition hist_recorded (df : list Row) (y : string) : nat :=
  List.length
    (filter (fun r => in_year_bin y r && notna (Reg_E_Flag r)) (p_hist df)).

(** [a] out of [n], in percent; 0 when [n] is 0. *)
Definition share (a n : nat) : num :=
  match n with
  | O => Fin 0
  | _ => Fin (inject_Z (Z.of_nat a) / inject_Z (Z.of_nat n) * 100)
  end.

(** The opt-in rate of a year bin: the share with one decimal. *)
Definition opt_in_rate (a n : nat) : num := round (share a n) 1.

(** *** Averages *)

(** The mean of the group means, each weighted by the size of its group. *)
Definition weighted_mean (counts avgs : list Q) : Q :=
  qsum (fun p => fst p * snd p) (combine counts avgs)
  / qsum (fun n => n) counts.

(** Does the last row of [T] hold, in column [c], the mean of the rows
    above, weighted by the counts of column [n]? *)
Definition total_is_weighted_mean (T : DataFrame) (n c : string) : Prop :=
  exists counts avgs total,
    group_cells n T = Some (nums (map Fin counts)) /\
    group_cells c T = Some (nums (map Fin avgs)) /\
    total_cell c T = Some (Num (Fin total)) /\
    total == weighted_mean counts avgs.

(** *** Ranges *)

(** No account has a negative number of paid items, nor more paid than
    presented items. *)
Definition paid_within_presented (df : list Row) : Prop :=
  Forall (fun r => 0 <= Paid_Items r /\ Paid_Items r <= Total_Items r) df.

(** Every cell of column [c] of [T] is a number between 0 and [hi]. *)
Definition column_within (T : DataFrame) (c : string) (hi : Q) : Prop :=
  exists s,
    get c T = Some s /\
    Forall (fun x => exists q, x = Num (Fin q) /\ 0 <= q /\ q <= hi) s.

(* ================================================================= *)
(** * Properties *)

(* ================================================================= *)
(** ** Rounding *)

Section Rounding.

Lemma Qltb_lt (a b : Q) : Qltb a b = true <-> a < b.
Proof.
  unfold Qltb. rewrite negb_true_iff.
  split; intro H.
  - apply Qnot_le_lt. intro Hle. apply Qle_bool_iff in Hle. congruence.
  - destruct (Qle_bool b a) eqn:E; [|reflexivity].
    apply Qle_bool_iff in E. exfalso. apply (Qlt_not_le _ _ H E).
Qed.

Lemma Qltb_ge (a b : Q) : Qltb a b = false <-> b <= a.
Proof.
  unfold Qltb. rewrite negb_false_iff. apply Qle_bool_iff.
Qed.

Lemma Qltb_comp (a a' b b' : Q) : a == a' -> b == b' -> Qltb a b = Qltb a' b'.
Proof.
  intros Ha Hb. unfold Qltb. now rewrite Ha, Hb.
Qed.

Lemma pow10_pos (p : nat) : 0 < pow10 p.
Proof.
  unfold pow10. change 0 with (inject_Z 0). rewrite <- Zlt_Qlt.
  apply Z.pow_pos_nonneg; lia.
Qed.

Lemma rint_comp (x y : Q) : x == y -> rint x = rint y.
Proof.
  intro H. unfold rint. rewrite (Qfloor_comp _ _ H).
  now rewrite H.
Qed.

Lemma rint_err (x : Q) : Qabs (inject_Z (rint x) - x) <= 1 # 2.
Proof.
  unfold rint.
  pose proof (Qfloor_le x) as Hlo.
  pose proof (Qlt_floor x) as Hhi.
  rewrite inject_Z_plus in Hhi. change (inject_Z 1) with 1 in Hhi.
  set (f := Qfloor x) in *.
  apply Qabs_Qle_condition.
  destruct (Qcompare (x - inject_Z f) (1 # 2)) eqn:E.
  - apply Qeq_alt in E.
    destruct (Z.even f); [|rewrite inject_Z_plus; change (inject_Z 1) with 1];
      split; lra.
  - apply Qlt_alt in E. split; lra.
  - apply Qgt_alt in E. rewrite inject_Z_plus. change (inject_Z 1) with 1.
    split; lra.
Qed.

Lemma round_half_even_comp (x y : Q) (p : nat) :
  x == y -> round_half_even x p == round_half_even y p.
Proof.
  intro H. unfold round_half_even.
  rewrite (rint_comp (x * pow10 p) (y * pow10 p)); [reflexivity|].
  now rewrite H.
Qed.

Lemma round_half_even_err (x : Q) (p : nat) :
  Qabs (round_half_even x p - x) <= (1 # 2) / pow10 p.
Proof.
  unfold round_half_even.
  pose proof (pow10_pos p) as Hp.
  pose proof (rint_err (x * pow10 p)) as He.
  set (k := inject_Z (rint (x * pow10 p))) in *.
  assert (Heq : k / pow10 p - x == (k - x * pow10 p) / pow10 p).
  { field. lra. }
  rewrite Heq. unfold Qdiv. rewrite Qabs_Qmult.
  rewrite (Qabs_pos (/ pow10 p)).
  - apply Qmult_le_compat_r; [exact He|].
    apply Qlt_le_weak, Qinv_lt_0_compat, Hp.
  - apply Qlt_le_weak, Qinv_lt_0_compat, Hp.
Qed.

End Rounding.

(* ================================================================= *)
(** ** Binning *)

Section Binning.

Lemma bound_ltb_lt (b : bound) (v : Q) : bound_ltb b v = true <-> bound_lt b v.
Proof.
  destruct b; simpl; [apply Qltb_lt|]. split; [discriminate|tauto].
Qed.

Lemma bound_ltb_le (b : bound) (v : Q) : bound_ltb b v = false <-> le_bound v b.
Proof.
  destruct b; simpl; [apply Qltb_ge|]. tauto.
Qed.

Lemma increasing_tail (b : bound) (rest : list bound) :
  increasing (b :: rest) = true -> increasing rest = true.
Proof.
  destruct b as [a|]; destruct rest as [|[c|] rest']; simpl; try congruence;
    try tauto.
  rewrite andb_true_iff. tauto.
Qed.

Lemma increasing_head (b b' : bound) (rest : list bound) (v : Q) :
  increasing (b :: b' :: rest) = true -> bound_lt b' v -> bound_lt b v.
Proof.
  destruct b as [a|], b' as [c|]; simpl; try tauto; try discriminate.
  rewrite andb_true_iff. intros [Hac _] Hcv. apply Qltb_lt in Hac. lra.
Qed.

Lemma increasing_below (rest : list bound) :
  forall (b : bound) (j : nat) (lo : bound) (v : Q),
    increasing (b :: rest) = true -> nth_error rest j = Some lo ->
    bound_lt lo v -> bound_lt b v.
Proof.
  induction rest as [|b' rest IH]; intros b j lo v Hinc Hnth Hlt.
  - destruct j; discriminate.
  - destruct j as [|j]; simpl in Hnth.
    + injection Hnth as <-. eapply increasing_head; eauto.
    + eapply increasing_head; [exact Hinc|].
      eapply IH; eauto. eapply increasing_tail; eauto.
Qed.

Lemma searchsorted_left_le (bins : list bound) (v : Q) :
  (searchsorted_left bins v <= List.length bins)%nat.
Proof.
  induction bins as [|b rest IH]; simpl; [lia|].
  destruct (bound_ltb b v); lia.
Qed.

Lemma searchsorted_left_zero (bins : list bound) (v : Q) :
  searchsorted_left bins v = 0%nat <->
  match hd_error bins with Some b => le_bound v b | None => True end.
Proof.
  destruct bins as [|b rest]; simpl; [tauto|].
  destruct (bound_ltb b v) eqn:E.
  - split; [discriminate|]. intro H. apply bound_ltb_le in H. congruence.
  - apply bound_ltb_le in E. tauto.
Qed.

Lemma searchsorted_left_succ (bins : list bound) :
  forall (v : Q) (i : nat),
    increasing bins = true ->
    (searchsorted_left bins v = S i <->
     (exists lo, nth_error bins i = Some lo /\ bound_lt lo v) /\
     match nth_error bins (S i) with
     | Some hi => le_bound v hi
     | None => True
     end).
Proof.
  induction bins as [|b rest IH]; intros v i Hinc.
  - simpl. split; [discriminate|]. intros [[lo [H _]] _].
    destruct i; discriminate.
  - pose proof (increasing_tail _ _ Hinc) as Hrest.
    simpl searchsorted_left. destruct i as [|j].
    + simpl nth_error.
      destruct (bound_ltb b v) eqn:E.
      * apply bound_ltb_lt in E.
        split.
        -- intro H. injection H as H. apply searchsorted_left_zero in H.
           split; [eauto|]. destruct rest; simpl in *; auto.
        -- intros [_ H]. f_equal. apply searchsorted_left_zero.
           destruct rest; simpl in *; auto.
      * split; [discriminate|]. intros [[lo [Hlo Hlt]] _].
        injection Hlo as <-. apply bound_ltb_lt in Hlt. congruence.
    + change (nth_error (b :: rest) (S j)) with (nth_error rest j).
      change (nth_error (b :: rest) (S (S j))) with (nth_error rest (S j)).
      destruct (bound_ltb b v) eqn:E.
      * rewrite <- (IH v j Hrest). split; intro H; [injection H as H; exact H | now rewrite H].
      * split; [discriminate|]. intros [[lo [Hlo Hlt]] _].
        assert (bound_lt b v) by (eapply increasing_below; eauto).
        apply bound_ltb_lt in H. congruence.
Qed.

Lemma cut_some (bins : list bound) (v : Q) (i : nat) :
  cut bins v = Some i <->
  searchsorted_left bins v = S i /\ (S i < List.length bins)%nat.
Proof.
  unfold cut. pose proof (searchsorted_left_le bins v) as Hle.
  destruct (searchsorted_left bins v) as [|n] eqn:E.
  - simpl. split; [discriminate|]. intros [H _]. discriminate.
  - replace ((S n =? 0)%nat || (S n =? List.length bins)%nat)
      with ((S n =? List.length bins)%nat) by reflexivity.
    destruct (Nat.eqb_spec (S n) (List.length bins)) as [Hn|Hn].
    + split; [discriminate|]. intros [[= ->] H]. lia.
    + simpl. rewrite Nat.sub_0_r. split.
      * intros [= ->]. split; [reflexivity|lia].
      * intros [[= ->] _]. reflexivity.
Qed.

Lemma cut_in_bin (bins : list bound) (v : Q) (i : nat) :
  increasing bins = true -> (cut bins v = Some i <-> in_bin bins i v).
Proof.
  intro Hinc. rewrite cut_some, (searchsorted_left_succ bins v i Hinc).
  unfold in_bin. split.
  - intros [[[lo [Hlo Hlt]] Hhi] Hlen].
    destruct (nth_error bins (S i)) as [hi|] eqn:E.
    + exists lo, hi. auto.
    + apply nth_error_None in E. lia.
  - intros [lo [hi [Hlo [Hhi [Hlt Hle]]]]]. rewrite Hhi. repeat split; eauto.
    apply nth_error_Some. congruence.
Qed.

Lemma cut_below_first (bins : list bound) (v : Q) (b0 : bound) :
  hd_error bins = Some b0 -> le_bound v b0 -> cut bins v = None.
Proof.
  intros Hhd Hle. unfold cut.
  assert (H : searchsorted_left bins v = 0%nat).
  { apply searchsorted_left_zero. now rewrite Hhd. }
  now rewrite H.
Qed.

End Binning.

(** C2 (amended).  For increasing edges and one label per interval,
    [pd.cut] gives [v] the code [i] exactly when
    [bins[i] < v <= bins[i+1]], and the label of that code; a value at or
    below the first edge gets no label (NaN).  Deposit counts
    [0, 0, 1, 3, 7, 12] fall in the bins 0, 0, 1, 3–5, 6–10, 10+. *)
Theorem cut_maps_half_open_intervals (bins : list bound) (labels : list string) (v : Q) :
  increasing bins = true ->
  S (List.length labels) = List.length bins ->
  (forall i, cut bins v = Some i <-> in_bin bins i v) /\
  (forall i, cut bins v = Some i ->
             exists l, nth_error labels i = Some l /\
                       cut_label bins labels v = Some l) /\
  (forall b0, hd_error bins = Some b0 -> le_bound v b0 ->
              cut_label bins labels v = None) /\
  map (fun n => cut_label DEP_BINS DEP_LABELS (inject_Z n)) [0; 0; 1; 3; 7; 12]%Z
  = [Some "0"; Some "0"; Some "1"; Some "3–5"; Some "6–10"; Some "10+"].
Proof.
  intros Hinc Hlen. repeat split.
  - apply cut_in_bin; assumption.
  - apply cut_in_bin; assumption.
  - intros i Hi. pose proof Hi as Hi'. apply cut_some in Hi' as [_ Hlt].
    destruct (nth_error labels i) as [l|] eqn:E.
    + exists l. split; [reflexivity|]. unfold cut_label. now rewrite Hi.
    + apply nth_error_None in E. lia.
  - intros b0 Hhd Hle. unfold cut_label.
    now rewrite (cut_below_first bins v b0 Hhd Hle).
Qed.

(** C2, at the deposit bins and the value 3. *)
Lemma cut_maps_half_open_intervals_witness :
  (forall i, cut DEP_BINS 3 = Some i <-> in_bin DEP_BINS i 3) /\
  (forall i, cut DEP_BINS 3 = Some i ->
             exists l, nth_error DEP_LABELS i = Some l /\
                       cut_label DEP_BINS DEP_LABELS 3 = Some l) /\
  (forall b0, hd_error DEP_BINS = Some b0 -> le_bound 3 b0 ->
              cut_label DEP_BINS DEP_LABELS 3 = None) /\
  map (fun n => cut_label DEP_BINS DEP_LABELS (inject_Z n)) [0; 0; 1; 3; 7; 12]%Z
  = [Some "0"; Some "0"; Some "1"; Some "3–5"; Some "6–10"; Some "10+"].
Proof.
  apply (cut_maps_half_open_intervals DEP_BINS DEP_LABELS 3); reflexivity.
Defined.

(** C2, as first stated, fails: a value at the first edge of the deposit
    bins does not get the first label. *)
Lemma cut_first_boundary_unlabelled :
  ~ (forall v : Q, v <= -1 -> cut_label DEP_BINS DEP_LABELS v = Some "0").
Proof.
  intro H. specialize (H (-1) ltac:(lra)). vm_compute in H. discriminate.
Qed.

(* ================================================================= *)
(** ** Sums and groups *)

Section Floats.

Lemma eqv_refl (a : num) : a =~ a.
Proof. destruct a; simpl; auto. reflexivity. Qed.

Lemma eqv_sym (a b : num) : a =~ b -> b =~ a.
Proof. destruct a, b; simpl; auto. intro H. now symmetry. Qed.

Lemma eqv_trans (a b c : num) : a =~ b -> b =~ c -> a =~ c.
Proof.
  destruct a, b, c; simpl; auto; try tauto. intros H1 H2. now rewrite H1.
Qed.

Lemma round_eqv (a b : num) (p : nat) : a =~ b -> round a p =~ round b p.
Proof.
  destruct a, b; simpl; auto. apply round_half_even_comp.
Qed.

Lemma gtb_Fin (x y : Q) : (Fin x >? Fin y)%num = Qltb y x.
Proof. reflexivity. Qed.

Lemma div_Fin_pos (x y : Q) : 0 < y -> (Fin x / Fin y)%num = Fin (x / y).
Proof.
  intro H. simpl. destruct (Qeq_bool y 0) eqn:E; [|reflexivity].
  apply Qeq_bool_iff in E. lra.
Qed.

Lemma div_Fin_nonzero (x y : Q) : ~ y == 0 -> (Fin x / Fin y)%num = Fin (x / y).
Proof.
  intro H. simpl. destruct (Qeq_bool y 0) eqn:E; [|reflexivity].
  apply Qeq_bool_iff in E. contradiction.
Qed.

End Floats.

Section Sums.
Context {A : Type}.

Lemma sum_map_Fin (f : A -> Q) (l : list A) :
  sum (map (fun r => Fin (f r)) l) = Fin (qsum f l).
Proof.
  induction l as [|r l IH]; [reflexivity|].
  change (sum (map (fun r0 => Fin (f r0)) (r :: l)))
    with (Fin (f r) + sum (map (fun r0 => Fin (f r0)) l))%num.
  now rewrite IH.
Qed.

Lemma qsum_app (f : A -> Q) (l1 l2 : list A) :
  qsum f (l1 ++ l2) == qsum f l1 + qsum f l2.
Proof.
  induction l1 as [|r l1 IH]; simpl; [lra|]. rewrite IH. lra.
Qed.

Lemma qsum_ext (f g : A -> Q) (l : list A) :
  (forall r, In r l -> f r == g r) -> qsum f l == qsum g l.
Proof.
  induction l as [|r l IH]; intro H; simpl; [reflexivity|].
  rewrite (H r (or_introl eq_refl)), IH; [reflexivity|].
  intros r' Hr'. apply H. now right.
Qed.

Lemma qsum_nonneg (f : A -> Q) (l : list A) :
  (forall r, In r l -> 0 <= f r) -> 0 <= qsum f l.
Proof.
  induction l as [|r l IH]; intro H; simpl; [lra|].
  pose proof (H r (or_introl eq_refl)).
  assert (0 <= qsum f l) by (apply IH; intros; apply H; now right). lra.
Qed.

Lemma qsum_ones (l : list A) : qsum (fun _ => 1) l == qcount l.
Proof.
  unfold qcount. induction l as [|r l IH]; [reflexivity|].
  cbn [qsum fold_right List.length]. fold (qsum (fun _ : A => 1) l).
  rewrite IH, Nat2Z.inj_succ, <- Z.add_1_l, inject_Z_plus. reflexivity.
Qed.

Lemma qsum_filter_all (f : A -> Q) (keep : A -> bool) (l : list A) :
  (forall r, In r l -> keep r = true) -> filter keep l = l.
Proof.
  induction l as [|r l IH]; intro H; simpl; [reflexivity|].
  rewrite (H r (or_introl eq_refl)). f_equal. apply IH.
  intros r' Hr'. apply H. now right.
Qed.

End Sums.

(** *** What [groupby] keeps: every row with a key, once *)

Section GroupTotals.
Context {A K : Type} (cmp : K -> K -> comparison).

Lemma gsum_add_row (f : A -> Q) (k : K) (r : A) (gs : list (K * list A)) :
  gsum f (add_row cmp k r gs) == f r + gsum f gs.
Proof.
  unfold gsum. induction gs as [|[k' rs] gs IH]; simpl.
  - lra.
  - destruct (cmp k k'); simpl.
    + lra.
    + lra.
    + rewrite IH. lra.
Qed.

Lemma gsum_groupby (f : A -> Q) (key : A -> option K) (rows : list A) :
  gsum f (groupby cmp key rows) == qsum f (filter (has_key key) rows).
Proof.
  induction rows as [|r rows IH]; simpl; [reflexivity|].
  unfold has_key at 1. destruct (key r) as [k|]; simpl.
  - rewrite gsum_add_row. fold (groupby cmp key rows). rewrite IH. reflexivity.
  - exact IH.
Qed.

Lemma add_row_nonempty (k : K) (r : A) (gs : list (K * list A)) :
  Forall (fun kg => snd kg <> []) gs ->
  Forall (fun kg => snd kg <> []) (add_row cmp k r gs).
Proof.
  induction gs as [|[k' rs] gs IH]; intro H; simpl.
  - constructor; [discriminate|constructor].
  - inversion H as [|? ? Hrs Hgs]; subst. destruct (cmp k k').
    + constructor; [discriminate|assumption].
    + constructor; [discriminate|assumption].
    + constructor; [assumption|]. apply IH. assumption.
Qed.

Lemma groupby_nonempty (key : A -> option K) (rows : list A) :
  Forall (fun kg => snd kg <> []) (groupby cmp key rows).
Proof.
  induction rows as [|r rows IH]; simpl; [constructor|].
  destruct (key r); [apply add_row_nonempty|]; exact IH.
Qed.

End GroupTotals.

(** *** The aggregated columns are finite *)

Section Aggregates.
Context {K : Type}.

Lemma agg_sum_Fin (f : Row -> Q) (g : list (K * list Row)) :
  agg_sum (fun r => Fin (f r)) g = map (fun kg => Fin (qsum f (snd kg))) g.
Proof.
  unfold agg_sum. apply map_ext. intro kg. apply sum_map_Fin.
Qed.

Lemma sum_agg_sum (f : Row -> Q) (g : list (K * list Row)) :
  sum (agg_sum (fun r => Fin (f r)) g) = Fin (gsum f g).
Proof.
  rewrite agg_sum_Fin. apply (sum_map_Fin (fun kg => qsum f (snd kg))).
Qed.

Lemma sum_agg_count (g : list (K * list Row)) :
  sum (agg_count g) = Fin (qsum (fun kg => qcount (snd kg)) g).
Proof.
  unfold agg_count, of_nat. apply (sum_map_Fin (fun kg => qcount (snd kg))).
Qed.

Lemma gsum_ones (g : list (K * list Row)) :
  qsum (fun kg => qcount (snd kg)) g == gsum (fun _ => 1) g.
Proof.
  unfold gsum. apply qsum_ext. intros kg _. symmetry. apply qsum_ones.
Qed.

End Aggregates.

(* ================================================================= *)
(** ** Reading the tables *)

Section Frames.

Lemma values_nums (l : list num) : values (nums l) = l.
Proof.
  unfold values, nums. induction l as [|v l IH]; [reflexivity|].
  simpl. now rewrite IH.
Qed.

Lemma values_app (s t : Series) : values (s ++ t) = values s ++ values t.
Proof. unfold values. apply flat_map_app. Qed.

End Frames.

Ltac unfold_tables :=
  unfold personal_deposit_summary, business_deposit_summary,
    nsf_strat1, nsf_strat_biz, nsf_pay_p, nsf_pay_b, nsf_deps_p, nsf_deps_b,
    od_status_personal, od_status_business;
  unfold stat_code_summary, acct_type_summary, deposit_summary, nsf_strat,
    nsf_pay, nsf_deps, od_status, reg_e_summary, od_limit_summary.

(** Computes a lookup in one of the fourteen single-key tables. *)
Ltac table_simpl :=
  unfold reconciles, total_is, total_cell, group_cells, col_sum;
  unfold_tables; simpl;
  rewrite ?map_app; simpl;
  rewrite ?last_last, ?removelast_last, ?values_nums.

Ltac reconcile :=
  table_simpl; eexists; split; [reflexivity|apply eqv_refl].

Lemma single_key_reconcile (df : list Row) (T : DataFrame) (c : string) :
  In T (single_key_tables df) -> In c count_columns ->
  has_col c T = true -> reconciles c T.
Proof.
  intros HT Hc.
  unfold single_key_tables, report_tables in HT. simpl in HT.
  unfold count_columns in Hc. simpl in Hc.
  repeat (destruct HT as [<-|HT]; [
    repeat (destruct Hc as [<-|Hc];
            [first [ now (intro Hf; vm_compute in Hf; discriminate Hf)
                   | intros _; reconcile ]|]);
    destruct Hc|]).
  destruct HT.
Qed.

(* ================================================================= *)
(** ** Totals over a population *)

Section Totals.

Lemma ratio_eqv (tp ti P I : Q) (p : nat) :
  tp == P -> ti == I ->
  (if (Fin ti >? Fin 0)%num then round (Fin tp / Fin ti)%num p else Fin 0)
  =~ ratio_of_totals P I 1 p.
Proof.
  intros HP HI. rewrite gtb_Fin. unfold ratio_of_totals.
  rewrite (Qltb_comp 0 0 ti I (Qeq_refl 0) HI).
  destruct (Qltb 0 I) eqn:E; [|apply eqv_refl].
  apply Qltb_lt in E.
  rewrite div_Fin_pos by (rewrite HI; exact E).
  simpl. apply round_half_even_comp. rewrite HP, HI. field. lra.
Qed.

Lemma rate_eqv (tp ti P I : Q) (p : nat) :
  tp == P -> ti == I ->
  (if (Fin ti >? Fin 0)%num
   then round (Fin tp / Fin ti * Fin 100)%num p else Fin 0)
  =~ ratio_of_totals P I 100 p.
Proof.
  intros HP HI. rewrite gtb_Fin. unfold ratio_of_totals.
  rewrite (Qltb_comp 0 0 ti I (Qeq_refl 0) HI).
  destruct (Qltb 0 I) eqn:E; [|apply eqv_refl].
  apply Qltb_lt in E.
  rewrite div_Fin_pos by (rewrite HI; exact E).
  simpl. apply round_half_even_comp. now rewrite HP, HI.
Qed.

Lemma qcount_pos {A} (r : A) (l : list A) : 0 < qcount (r :: l).
Proof.
  unfold qcount. change 0 with (inject_Z 0). rewrite <- Zlt_Qlt.
  simpl List.length. lia.
Qed.

Lemma filter_notna_Fin {A} (f : A -> Q) (l : list A) :
  filter (fun v => negb (isna v)) (map (fun r => Fin (f r)) l)
  = map (fun r => Fin (f r)) l.
Proof.
  induction l as [|r l IH]; [reflexivity|]. simpl. now rewrite IH.
Qed.

Lemma mean_population (f : Row -> Q) (rows : list Row) :
  mean (map (fun r => Fin (f r)) rows) = population_mean f rows.
Proof.
  unfold mean. rewrite filter_notna_Fin, sum_map_Fin, length_map.
  destruct rows as [|r rows]; [reflexivity|].
  unfold population_mean, of_nat. fold (qcount (r :: rows)).
  apply div_Fin_pos, qcount_pos.
Qed.

(** Rows grouped by a key that is never missing are all kept. *)
Lemma gsum_total_key {K} (cmp : K -> K -> comparison) (f : Row -> Q)
  (k : Row -> K) (rows : list Row) :
  gsum f (groupby cmp (fun r => Some (k r)) rows) == qsum f rows.
Proof.
  rewrite gsum_groupby.
  rewrite (qsum_filter_all f); [reflexivity|]. intros r _. reflexivity.
Qed.

Lemma searchsorted_left_before_inf (bins : list bound) (v : Q) :
  In Inf bins -> (searchsorted_left bins v < List.length bins)%nat.
Proof.
  induction bins as [|b rest IH]; intro H; [destruct H|].
  simpl. destruct (bound_ltb b v) eqn:E; [|lia].
  destruct H as [->|H]; [discriminate|]. specialize (IH H). lia.
Qed.

Lemma cut_covered (bins : list bound) (v : Q) (b0 : Q) :
  hd_error bins = Some (B b0) -> b0 < v -> In Inf bins ->
  exists i, cut bins v = Some i.
Proof.
  intros Hhd Hlt Hinf. unfold cut.
  pose proof (searchsorted_left_before_inf bins v Hinf) as Hlen.
  destruct bins as [|b rest]; [discriminate|]. injection Hhd as ->.
  simpl in *. apply Qltb_lt in Hlt. rewrite Hlt in *.
  destruct (Nat.eqb_spec (S (searchsorted_left rest v)) (S (List.length rest)));
    [lia|]. simpl. eauto.
Qed.

Lemma nsf_bin_covered (r : Row) : 0 <= Total_Items r -> has_key nsf_bin r = true.
Proof.
  intro H. unfold has_key, nsf_bin.
  destruct (cut_covered NSF_BINS (Total_Items r) (-1)) as [i ->];
    [reflexivity|lra|simpl; tauto|reflexivity].
Qed.

Lemma gsum_nsf (f : Row -> Q) (mask : Row -> bool) (df : list Row) :
  nonneg_items df ->
  gsum f (groupby Nat.compare nsf_bin (filter mask df))
  == qsum f (filter mask df).
Proof.
  intro Hv. rewrite gsum_groupby.
  rewrite (qsum_filter_all f); [reflexivity|].
  intros r Hr. apply nsf_bin_covered.
  apply filter_In in Hr as [Hr _].
  unfold nonneg_items in Hv. rewrite Forall_forall in Hv. now apply Hv.
Qed.

End Totals.

(* ================================================================= *)
(** ** Rounded shares *)

Section Closure.

Lemma qsum_round_err {A} (g : A -> Q) (p : nat) (l : list A) :
  Qabs (qsum (fun a => round_half_even (g a) p) l - qsum g l)
  <= qcount l * ((1 # 2) / pow10 p).
Proof.
  induction l as [|a l IH].
  - change (qcount (@nil A)) with 0.
    change (qsum (fun a => round_half_even (g a) p) []) with 0.
    change (qsum g []) with 0.
    apply Qabs_Qle_condition. split; lra.
  - cbn [qsum fold_right].
    fold (qsum (fun a => round_half_even (g a) p) l). fold (qsum g l).
    assert (Hc : qcount (a :: l) == 1 + qcount l).
    { unfold qcount. simpl List.length.
      rewrite Nat2Z.inj_succ, <- Z.add_1_l, inject_Z_plus. reflexivity. }
    rewrite Hc.
    pose proof (round_half_even_err (g a) p) as Ha.
    set (e := (1 # 2) / pow10 p) in *.
    set (ra := round_half_even (g a) p) in *.
    set (rs := qsum (fun a0 => round_half_even (g a0) p) l) in *.
    assert (Heq : ra + rs - (g a + qsum g l) == (ra - g a) + (rs - qsum g l))
      by ring.
    rewrite Heq.
    eapply Qle_trans; [apply Qabs_triangle|]. lra.
Qed.

Lemma qsum_scale {A} (g : A -> Q) (k : Q) (l : list A) :
  qsum (fun a => g a * k) l == qsum g l * k.
Proof.
  induction l as [|a l IH]; simpl; [ring|].
  fold (qsum (fun a => g a * k) l). fold (qsum g l). rewrite IH. ring.
Qed.

Lemma qcount_nonneg {A} (l : list A) : 0 <= qcount l.
Proof.
  unfold qcount. change 0 with (inject_Z 0). rewrite <- Zle_Qle. lia.
Qed.

Lemma pct_map (xs : list num) (d : num) (p : nat) :
  s_round (s_mul (s_div xs d) (Fin 100)) p
  = map (fun x => round (x / d * Fin 100)%num p) xs.
Proof.
  unfold s_round, s_mul, s_div. now rewrite !map_map.
Qed.

Lemma pct_Fin (qs : list Q) (X : Q) (p : nat) :
  ~ X == 0 ->
  map (fun x => round (x / Fin X * Fin 100)%num p) (map Fin qs)
  = map (fun q => Fin (round_half_even (q / X * 100) p)) qs.
Proof.
  intro HX. rewrite map_map. apply map_ext. intro q.
  now rewrite div_Fin_nonzero.
Qed.

(** The rounded shares of a column with a non-zero sum add up to 100, up
    to half a unit of the last place per share. *)
Lemma pct_column_closes (qs : list Q) (p : nat) :
  ~ qsum (fun q => q) qs == 0 ->
  exists s,
    sum (map (fun x => round (x / sum (map Fin qs) * Fin 100)%num p)
           (map Fin qs)) = Fin s /\
    Qabs (s - 100) <= qcount qs / pow10 p.
Proof.
  intro HX. rewrite (sum_map_Fin (fun q => q)).
  set (X := qsum (fun q => q) qs) in *.
  rewrite (pct_Fin qs X p HX).
  rewrite (sum_map_Fin (fun q => round_half_even (q / X * 100) p)).
  eexists. split; [reflexivity|].
  pose proof (qsum_round_err (fun q => q / X * 100) p qs) as He.
  assert (H100 : qsum (fun q => q / X * 100) qs == 100).
  { unfold Qdiv.
    rewrite (qsum_ext (fun q => q * / X * 100) (fun q => q * (/ X * 100)))
      by (intros; ring).
    rewrite qsum_scale. fold X. field. exact HX. }
  rewrite H100 in He.
  eapply Qle_trans; [exact He|].
  pose proof (pow10_pos p) as Hp. pose proof (qcount_nonneg qs) as Hn.
  unfold Qdiv. rewrite Qmult_assoc.
  apply Qmult_le_compat_r; [lra|].
  apply Qlt_le_weak, Qinv_lt_0_compat, Hp.
Qed.

End Closure.

(** *** The groups of [groupby] under a lawful comparison *)

Section GroupContents.
Context {A K : Type} (cmp : K -> K -> comparison).
Hypothesis cmp_eq : forall a b, cmp a b = Eq <-> a = b.
Hypothesis cmp_trans :
  forall a b c, cmp a b = Lt -> cmp b c = Lt -> cmp a c = Lt.
Hypothesis cmp_antisym : forall a b, cmp a b = CompOpp (cmp b a).

Lemma cmp_refl (a : K) : cmp a a = Eq.
Proof. now apply cmp_eq. Qed.

Lemma cmp_gt_lt (a b : K) : cmp a b = Gt -> cmp b a = Lt.
Proof.
  intro H. rewrite cmp_antisym in H. destruct (cmp b a); simpl in H; congruence.
Qed.

Lemma assoc_absent (k : K) (gs : list (K * list A)) :
  Forall (key_lt cmp k) (keys gs) -> assoc cmp k gs = [].
Proof.
  induction gs as [|[k' rs] gs IH]; intro H; [reflexivity|].
  inversion H as [|? ? Hk Hrest]; subst. simpl. unfold key_lt in Hk.
  rewrite Hk. now apply IH.
Qed.

Lemma keys_add_row (k : K) (r : A) (gs : list (K * list A)) (x : K) :
  In x (keys (add_row cmp k r gs)) <-> x = k \/ In x (keys gs).
Proof.
  induction gs as [|[k' rs] gs IH]; simpl.
  - intuition.
  - destruct (cmp k k') eqn:E; simpl.
    + apply cmp_eq in E. subst. intuition.
    + intuition.
    + unfold keys in IH. rewrite IH. intuition.
Qed.

Lemma sorted_add_row (k : K) (r : A) (gs : list (K * list A)) :
  StronglySorted (key_lt cmp) (keys gs) ->
  StronglySorted (key_lt cmp) (keys (add_row cmp k r gs)).
Proof.
  induction gs as [|[k' rs] gs IH]; intro Hs; simpl.
  - repeat constructor.
  - inversion Hs as [|? ? Hrest Hall]; subst.
    destruct (cmp k k') eqn:E; simpl.
    + exact Hs.
    + constructor; [exact Hs|]. constructor; [exact E|].
      eapply Forall_impl; [|exact Hall]. intros c Hc. eapply cmp_trans; eauto.
    + constructor; [now apply IH|].
      apply Forall_forall. intros x Hx. apply keys_add_row in Hx as [->|Hx].
      * now apply cmp_gt_lt.
      * rewrite Forall_forall in Hall. now apply Hall.
Qed.

Lemma assoc_add_row_same (k : K) (r : A) (gs : list (K * list A)) :
  StronglySorted (key_lt cmp) (keys gs) ->
  assoc cmp k (add_row cmp k r gs) = r :: assoc cmp k gs.
Proof.
  induction gs as [|[k' rs] gs IH]; intro Hs; simpl.
  - now rewrite cmp_refl.
  - inversion Hs as [|? ? Hrest Hall]; subst.
    destruct (cmp k k') eqn:E; simpl.
    + now rewrite E.
    + rewrite cmp_refl. f_equal. symmetry. apply assoc_absent.
      eapply Forall_impl; [|exact Hall]. intros c Hc. eapply cmp_trans; eauto.
    + rewrite E. now apply IH.
Qed.

Lemma assoc_add_row_other (k x : K) (r : A) (gs : list (K * list A)) :
  x <> k -> assoc cmp x (add_row cmp k r gs) = assoc cmp x gs.
Proof.
  intro Hne. induction gs as [|[k' rs] gs IH]; simpl.
  - destruct (cmp x k) eqn:E; try reflexivity. apply cmp_eq in E. contradiction.
  - destruct (cmp k k') eqn:E; simpl.
    + apply cmp_eq in E. subst k'.
      destruct (cmp x k) eqn:E'; try reflexivity.
      apply cmp_eq in E'. contradiction.
    + destruct (cmp x k) eqn:E'; try reflexivity.
      apply cmp_eq in E'. contradiction.
    + now rewrite IH.
Qed.

Lemma assoc_member (gs : list (K * list A)) :
  StronglySorted (key_lt cmp) (keys gs) ->
  forall kg, In kg gs -> assoc cmp (fst kg) gs = snd kg.
Proof.
  induction gs as [|[k' rs] gs IH]; intros Hs kg Hin; [destruct Hin|].
  inversion Hs as [|? ? Hrest Hall]; subst. simpl.
  destruct Hin as [<-|Hin].
  - simpl. now rewrite cmp_refl.
  - assert (Hlt : key_lt cmp k' (fst kg)).
    { rewrite Forall_forall in Hall. apply Hall. now apply in_map. }
    unfold key_lt in Hlt.
    rewrite cmp_antisym, Hlt. simpl. now apply IH.
Qed.

Lemma sorted_nodup (l : list K) : StronglySorted (key_lt cmp) l -> NoDup l.
Proof.
  induction 1 as [|a l Hs IH Hall]; constructor; [|assumption].
  intro Hin. rewrite Forall_forall in Hall. specialize (Hall a Hin).
  unfold key_lt in Hall. rewrite cmp_refl in Hall. discriminate.
Qed.

Variable key : A -> option K.

Lemma groupby_sorted (rows : list A) :
  StronglySorted (key_lt cmp) (keys (groupby cmp key rows)).
Proof.
  induction rows as [|r rows IH]; simpl; [constructor|].
  destruct (key r); [now apply sorted_add_row|exact IH].
Qed.

Lemma groupby_assoc (k : K) (rows : list A) :
  assoc cmp k (groupby cmp key rows) = rows_with cmp key k rows.
Proof.
  induction rows as [|r rows IH]; simpl; [reflexivity|].
  destruct (key r) as [k'|]; [|exact IH].
  destruct (cmp k' k) eqn:E.
  - apply cmp_eq in E. subst k'.
    rewrite assoc_add_row_same by apply groupby_sorted. now rewrite IH.
  - rewrite assoc_add_row_other; [exact IH|].
    intros ->. rewrite cmp_refl in E. discriminate.
  - rewrite assoc_add_row_other; [exact IH|].
    intros ->. rewrite cmp_refl in E. discriminate.
Qed.

Lemma groupby_group (rows : list A) (kg : K * list A) :
  In kg (groupby cmp key rows) -> snd kg = rows_with cmp key (fst kg) rows.
Proof.
  intro Hin. rewrite <- groupby_assoc. symmetry.
  apply assoc_member; [apply groupby_sorted|exact Hin].
Qed.

Lemma groupby_keys (rows : list A) (k : K) :
  In k (keys (groupby cmp key rows)) <-> exists r, In r rows /\ key r = Some k.
Proof.
  induction rows as [|r rows IH]; simpl.
  - split; [tauto|]. intros [r [[] _]].
  - destruct (key r) as [k'|] eqn:E.
    + rewrite keys_add_row, IH. split.
      * intros [->|[r' [Hin Hk]]]; [exists r; auto|exists r'; auto].
      * intros [r' [[<-|Hin] Hk]].
        -- left. congruence.
        -- right. eauto.
    + rewrite IH. split.
      * intros [r' [Hin Hk]]. eauto.
      * intros [r' [[<-|Hin] Hk]]; [congruence|eauto].
Qed.

Lemma groupby_counts (rows : list A) :
  map (fun kg => List.length (snd kg)) (groupby cmp key rows)
  = map (fun k => List.length (rows_with cmp key k rows)) (keys (groupby cmp key rows)).
Proof.
  unfold keys. rewrite map_map. apply map_ext_in.
  intros kg Hin. now rewrite (groupby_group rows kg Hin).
Qed.

End GroupContents.

Section StringKeys.

Lemma string_cmp_eq (a b : string) : String.compare a b = Eq <-> a = b.
Proof. apply String_as_OT.cmp_eq. Qed.

Lemma string_cmp_trans (a b c : string) :
  String.compare a b = Lt -> String.compare b c = Lt -> String.compare a c = Lt.
Proof.
  intros H1 H2. apply String_as_OT.cmp_lt in H1, H2.
  apply String_as_OT.cmp_lt. eapply String_as_OT.lt_trans; eauto.
Qed.

End StringKeys.

(** *** Lookups in frames *)

Section FrameLookups.

Lemma get_assign (c c' : string) (s : Series) (df : DataFrame) :
  get c (assign c' s df) = if String.eqb c c' then Some s else get c df.
Proof.
  induction df as [|[c0 s0] df IH]; simpl.
  - destruct (String.eqb c c'); reflexivity.
  - destruct (String.eqb_spec c' c0) as [->|Hne]; simpl.
    + destruct (String.eqb c c0); reflexivity.
    + destruct (String.eqb_spec c c0) as [->|Hne'].
      * destruct (String.eqb_spec c0 c'); [congruence|reflexivity].
      * exact IH.
Qed.

Lemma get_round_col (c c' : string) (p : nat) (df : DataFrame) :
  get c (round_col c' p df)
  = if String.eqb c c' then option_map (map (round_cell p)) (get c df)
    else get c df.
Proof.
  induction df as [|[c0 s0] df IH]; simpl.
  - destruct (String.eqb c c'); reflexivity.
  - destruct (String.eqb_spec c0 c') as [->|Hne]; simpl.
    + destruct (String.eqb_spec c c') as [->|Hne']; [reflexivity|exact IH].
    + destruct (String.eqb_spec c c0) as [->|Hne'].
      * destruct (String.eqb_spec c0 c'); [congruence|reflexivity].
      * exact IH.
Qed.

Lemma get_map_columns (f : string -> Series -> Series) (c : string) (df : DataFrame) :
  get c (map (fun cs => (fst cs, f (fst cs) (snd cs))) df)
  = option_map (f c) (get c df).
Proof.
  induction df as [|[c0 s0] df IH]; simpl; [reflexivity|].
  destruct (String.eqb_spec c c0) as [->|Hne]; [reflexivity|exact IH].
Qed.

Lemma get_app (c : string) (df1 df2 : DataFrame) :
  get c (df1 ++ df2)
  = match get c df1 with Some s => Some s | None => get c df2 end.
Proof.
  induction df1 as [|[c0 s0] df1 IH]; simpl; [reflexivity|].
  destruct (String.eqb c c0); [reflexivity|exact IH].
Qed.

Lemma get_take (c : string) (idx : list nat) (df : DataFrame) :
  get c (take idx df)
  = option_map (fun s => map (fun i => nth i s (Num NaN)) idx) (get c df).
Proof.
  unfold take.
  apply (get_map_columns (fun _ s => map (fun i => nth i s (Num NaN)) idx)).
Qed.

Lemma get_body (c : string) (df : DataFrame) :
  get c (body df) = option_map (@removelast cell) (get c df).
Proof.
  unfold body. apply (get_map_columns (fun _ s => removelast s)).
Qed.

Lemma lookup_last_row (c : string) (df : DataFrame) :
  lookup c (last_row df)
  = option_map (fun s => last s (Num NaN)) (get c df).
Proof.
  unfold last_row.
  induction df as [|[c0 s0] df IH]; simpl; [reflexivity|].
  destruct (String.eqb c c0); [reflexivity|exact IH].
Qed.

Lemma get_concat_row (c : string) (df : DataFrame) (row : list (string * cell))
  (s : Series) :
  get c df = Some s ->
  get c (concat_row df row)
  = Some (s ++ [match lookup c row with Some v => v | None => Num NaN end]).
Proof.
  intro H. unfold concat_row. rewrite get_app.
  rewrite (get_map_columns
             (fun c0 s0 => s0 ++ [match lookup c0 row with
                                  | Some v => v
                                  | None => Num NaN
                                  end])).
  now rewrite H.
Qed.

Lemma get_new_columns (c : string) (n : nat) (keep : string * cell -> bool)
  (row : list (string * cell)) :
  lookup c row = None ->
  get c (map (fun cv => (fst cv, repeat (Num NaN) n ++ [snd cv]))
           (filter keep row)) = None.
Proof.
  induction row as [|[c0 v0] row IH]; simpl; [reflexivity|].
  destruct (String.eqb_spec c c0) as [->|Hne]; [discriminate|].
  intro H. destruct (keep (c0, v0)); simpl.
  - destruct (String.eqb_spec c c0); [contradiction|]. now apply IH.
  - now apply IH.
Qed.

Lemma get_concat_row_none (c : string) (df : DataFrame)
  (row : list (string * cell)) :
  get c df = None -> lookup c row = None -> get c (concat_row df row) = None.
Proof.
  intros H1 H2. unfold concat_row. rewrite get_app.
  rewrite (get_map_columns
             (fun c0 s0 => s0 ++ [match lookup c0 row with
                                  | Some v => v
                                  | None => Num NaN
                                  end])).
  rewrite H1. simpl. now apply get_new_columns.
Qed.

Lemma lookup_lookup_assign {A} (c c' : string) (v : A) (row : list (string * A)) :
  lookup c (lookup_assign c' v row)
  = if String.eqb c c' then Some v else lookup c row.
Proof.
  induction row as [|[c0 v0] row IH]; simpl.
  - destruct (String.eqb c c'); reflexivity.
  - destruct (String.eqb_spec c' c0) as [->|Hne]; simpl.
    + destruct (String.eqb c c0); reflexivity.
    + destruct (String.eqb_spec c c0) as [->|Hne'].
      * destruct (String.eqb_spec c0 c'); [congruence|reflexivity].
      * exact IH.
Qed.

Lemma lookup_map_columns {A} (f : Series -> A) (c : string) (df : DataFrame) :
  lookup c (map (fun cs => (fst cs, f (snd cs))) df) = option_map f (get c df).
Proof.
  induction df as [|[c0 s0] df IH]; simpl; [reflexivity|].
  destruct (String.eqb c c0); [reflexivity|exact IH].
Qed.

Lemma get_In (c : string) (s : Series) (df : DataFrame) :
  get c df = Some s -> In (c, s) df.
Proof.
  induction df as [|[c0 s0] df IH]; simpl; [discriminate|].
  destruct (String.eqb_spec c c0) as [->|Hne].
  - intros [= ->]. now left.
  - intro H. right. now apply IH.
Qed.

End FrameLookups.

(** *** [sort_values] keeps a row whose code is the greatest at the end *)

Section Sorting.

Lemma code_lt_leb (a b : option nat) : code_lt a b -> code_leb a b = true.
Proof.
  unfold code_lt. destruct a as [x|], b as [y|]; simpl; try congruence.
  intro H. apply Nat.leb_gt in H. apply Nat.leb_le. lia.
Qed.

Lemma insert_by_snoc (y x : option nat * nat) (l : list (option nat * nat)) :
  code_lt (fst y) (fst x) ->
  insert_by y (l ++ [x]) = insert_by y l ++ [x].
Proof.
  intro H. induction l as [|z l IH]; simpl.
  - now rewrite (code_lt_leb _ _ H).
  - destruct (code_leb (fst y) (fst z)); [reflexivity|]. now rewrite IH.
Qed.

Lemma isort_snoc (x : option nat * nat) (l : list (option nat * nat)) :
  Forall (fun y => code_lt (fst y) (fst x)) l ->
  fold_right insert_by [] (l ++ [x]) = fold_right insert_by [] l ++ [x].
Proof.
  induction 1 as [|y l Hy Hl IH]; simpl; [reflexivity|].
  rewrite IH. now apply insert_by_snoc.
Qed.

Lemma insert_by_perm (x : option nat * nat) (l : list (option nat * nat)) :
  Permutation (insert_by x l) (x :: l).
Proof.
  induction l as [|z l IH]; simpl; [reflexivity|].
  destruct (code_leb (fst x) (fst z)); [reflexivity|].
  rewrite IH. apply perm_swap.
Qed.

Lemma isort_perm (l : list (option nat * nat)) :
  Permutation (fold_right insert_by [] l) l.
Proof.
  induction l as [|x l IH]; simpl; [reflexivity|].
  rewrite insert_by_perm. now constructor.
Qed.

Lemma combine_snoc {X Y} (l : list X) (l' : list Y) (a : X) (b : Y) :
  List.length l = List.length l' ->
  combine (l ++ [a]) (l' ++ [b]) = combine l l' ++ [(a, b)].
Proof.
  revert l'. induction l as [|x l IH]; intros [|y l'] H; simpl in *;
    try discriminate; [reflexivity|].
  f_equal. apply IH. now injection H.
Qed.

Lemma map_snd_combine {X Y} (l : list X) (l' : list Y) :
  List.length l = List.length l' -> map snd (combine l l') = l'.
Proof.
  revert l'. induction l as [|x l IH]; intros [|y l'] H; simpl in *;
    try discriminate; [reflexivity|].
  f_equal. apply IH. now injection H.
Qed.

Lemma argsort_snoc (codes : list (option nat)) (g : option nat) :
  Forall (fun c => code_lt c g) codes ->
  exists P,
    argsort (codes ++ [g]) = P ++ [List.length codes] /\
    Permutation P (seq 0 (List.length codes)).
Proof.
  intro H. unfold argsort.
  rewrite length_app. simpl List.length. rewrite Nat.add_1_r.
  rewrite seq_S. simpl.
  rewrite combine_snoc by (now rewrite length_seq).
  rewrite isort_snoc.
  - rewrite map_app. simpl.
    exists (map snd (fold_right insert_by []
                       (combine codes (seq 0 (List.length codes))))).
    split; [reflexivity|].
    rewrite isort_perm.
    rewrite map_snd_combine by (now rewrite length_seq).
    reflexivity.
  - apply Forall_forall. intros [c i] Hin. simpl.
    apply in_combine_l in Hin. rewrite Forall_forall in H. now apply H.
Qed.

End Sorting.

Section PivotOrder.

Lemma add_row_keys_from {A K} (cmp : K -> K -> comparison) (k : K) (r : A)
  (gs : list (K * list A)) (x : K) :
  In x (map fst (add_row cmp k r gs)) -> x = k \/ In x (map fst gs).
Proof.
  induction gs as [|[k' rs] gs IH]; simpl.
  - intuition.
  - destruct (cmp k k'); simpl; intuition.
Qed.

Lemma groupby_keys_from {A K} (cmp : K -> K -> comparison)
  (key : A -> option K) (rows : list A) (x : K) :
  In x (map fst (groupby cmp key rows)) ->
  exists r, In r rows /\ key r = Some x.
Proof.
  induction rows as [|r rows IH]; simpl; [tauto|].
  destruct (key r) as [k|] eqn:E; intro H.
  - apply add_row_keys_from in H as [->|H].
    + exists r. auto.
    + destruct (IH H) as [r' [Hin Hk]]. exists r'. auto.
  - destruct (IH H) as [r' [Hin Hk]]. exists r'. auto.
Qed.

Lemma pivot_index_year_bin (df : list Row) (y : string) :
  In y (pivot_index df) -> exists r, y = year_bin r.
Proof.
  unfold pivot_index, unique_sorted. intro H.
  apply groupby_keys_from in H as [y' [Hin [= ->]]].
  apply in_map_iff in Hin as [[[y0 f] rs] [Hy Hin]]. simpl in Hy. subst y0.
  unfold pivot_raw in Hin.
  assert (Hk : In (y, f) (map fst (groupby cmp_pair
             (fun r => Some (year_bin r, Reg_E_Flag r)) (p_hist df)))).
  { apply in_map_iff. exists ((y, f), rs). auto. }
  apply groupby_keys_from in Hk as [r [_ [= Hy _]]]. exists r. auto.
Qed.

Lemma year_bin_code (yo : option Z) :
  exists c, index_of (assign_year_bin yo) sort_order = Some c /\ (c < 19)%nat.
Proof.
  destruct yo as [y|]; simpl.
  - destruct (Z.ltb_spec y 2010).
    + exists 0%nat. split; [reflexivity|lia].
    + destruct (Z.leb_spec y 2025).
      * assert (Hy : exists i, (i < 16)%nat /\ y = (2010 + Z.of_nat i)%Z).
        { exists (Z.to_nat (y - 2010)). split; lia. }
        destruct Hy as [i [Hi ->]].
        exists (S i). split; [|lia].
        do 16 (destruct i as [|i]; [reflexivity|]). lia.
      * exists 17%nat. split; [reflexivity|lia].
  - exists 18%nat. split; [reflexivity|lia].
Qed.

Lemma pivot_index_codes (df : list Row) :
  Forall (fun c => code_lt c (Some 19%nat))
    (map (category_code sort_order) (strs (pivot_index df))).
Proof.
  apply Forall_forall. intros c Hc. unfold strs in Hc. rewrite map_map in Hc.
  apply in_map_iff in Hc as [y [<- Hy]].
  destruct (pivot_index_year_bin df y Hy) as [r ->].
  destruct (year_bin_code (Year_Opened r)) as [c [Hc Hlt]].
  change (category_code sort_order (Str (year_bin r)))
    with (index_of (assign_year_bin (Year_Opened r)) sort_order).
  rewrite Hc. unfold code_lt, code_leb.
  apply Nat.leb_gt. lia.
Qed.

(** The sort of the last step moves the rows above the total only. *)
Lemma pivot_table_sorted (df : list Row) :
  exists P,
    pivot_table df
    = take (P ++ [List.length (pivot_index df)]) (pivot_with_index df) /\
    Permutation P (seq 0 (List.length (pivot_index df))).
Proof.
  unfold pivot_table, sort_values.
  change (get "Year Opened" (pivot_with_index df))
    with (Some (strs (pivot_index df ++ ["Grand Total"]))).
  unfold strs. rewrite !map_app. simpl map at 1.
  change (index_of "Grand Total" sort_order) with (Some 19%nat).
  destruct (argsort_snoc _ (Some 19%nat) (pivot_index_codes df)) as [P [HP Hperm]].
  unfold strs in HP, Hperm. rewrite !length_map in HP, Hperm.
  exists P. split; [|exact Hperm]. now rewrite <- HP.
Qed.

Lemma nth_snoc_last {X} (l : list X) (x d : X) : nth (List.length l) (l ++ [x]) d = x.
Proof.
  rewrite app_nth2 by lia. now rewrite Nat.sub_diag.
Qed.

Lemma pivot_table_labels_last (df : list Row) :
  last (label_column (pivot_table df)) (Num NaN) = Str "Grand Total".
Proof.
  destruct (pivot_table_sorted df) as [P [-> _]].
  unfold pivot_with_index, take. simpl.
  rewrite map_app. cbn [map]. rewrite last_last.
  unfold strs. rewrite map_app. simpl.
  rewrite <- (length_map Str (pivot_index df)).
  apply nth_snoc_last.
Qed.

End PivotOrder.

(** *** Columns of whole numbers *)

Section Integral.

Lemma integral_fin (v : num) : integral v -> is_fin v.
Proof.
  intros [z H]. destruct v; simpl in H; try contradiction. now exists q.
Qed.

Lemma integral_eqv (v w : num) : v =~ w -> integral w -> integral v.
Proof.
  intros H [z Hz]. exists z. eapply eqv_trans; eauto.
Qed.

Lemma of_nat_integral (n : nat) : integral (of_nat n).
Proof. exists (Z.of_nat n). apply eqv_refl. Qed.

Lemma rint_inject_Z (z : Z) : rint (inject_Z z) = z.
Proof.
  unfold rint. rewrite Qfloor_Z.
  assert (H : Qcompare (inject_Z z - inject_Z z) (1 # 2) = Lt).
  { apply (proj1 (Qlt_alt _ _)). lra. }
  now rewrite H.
Qed.

Lemma round_integral (v : num) : integral v -> round v 0 =~ v.
Proof.
  intros [z H]. destruct v; simpl in H; try contradiction. simpl.
  unfold round_half_even.
  assert (Hq : q * pow10 0 == inject_Z z).
  { unfold pow10. simpl. rewrite H. ring. }
  rewrite (rint_comp _ _ Hq), rint_inject_Z, H.
  unfold pow10. simpl. field.
Qed.

Lemma add_eqv (a b a' b' : num) : a =~ a' -> b =~ b' -> (a + b)%num =~ (a' + b')%num.
Proof.
  destruct a, a', b, b'; simpl; try tauto. intros H1 H2. now rewrite H1, H2.
Qed.

Lemma sum_cons_fin (v : num) (l : list num) :
  is_fin v -> sum (v :: l) = (v + sum l)%num.
Proof. intros [q ->]. reflexivity. Qed.

Lemma sum_fin (l : list num) : Forall is_fin l -> is_fin (sum l).
Proof.
  induction 1 as [|v l Hv Hl IH]; [now exists 0|].
  rewrite sum_cons_fin by assumption.
  destruct Hv as [q ->], IH as [q' ->]. now exists (q + q').
Qed.

Lemma sum_integral (l : list num) :
  Forall (fun v => integral v \/ v = NaN) l -> integral (sum l).
Proof.
  induction 1 as [|v l Hv Hl IH]; [exists 0%Z; apply eqv_refl|].
  destruct Hv as [Hv| ->]; [|exact IH].
  rewrite sum_cons_fin by (now apply integral_fin).
  destruct Hv as [z Hz], IH as [z' Hz']. exists (z + z')%Z.
  eapply eqv_trans; [apply add_eqv; eassumption|].
  simpl. rewrite inject_Z_plus. reflexivity.
Qed.

Lemma sum_Forall2 (l l' : list num) :
  Forall2 Num.eqv l l' -> Forall is_fin l -> sum l =~ sum l'.
Proof.
  induction 1 as [|v w l l' Hvw Hl IH]; intro Hf; [apply eqv_refl|].
  inversion Hf as [|? ? Hv Hfl]; subst.
  assert (Hw : is_fin w).
  { destruct Hv as [q ->]. destruct w; simpl in Hvw; try contradiction.
    now exists q0. }
  rewrite !sum_cons_fin by assumption. apply add_eqv; auto.
Qed.

Lemma sum_perm (l l' : list num) :
  Permutation l l' -> Forall is_fin l -> sum l =~ sum l'.
Proof.
  induction 1 as [|x l l' Hp IH|x y l|l l' l'' H1 IH1 H2 IH2]; intro Hf.
  - apply eqv_refl.
  - inversion Hf as [|? ? Hx Hl]; subst.
    rewrite !sum_cons_fin by assumption.
    apply add_eqv; [apply eqv_refl|auto].
  - inversion Hf as [|? ? Hy Hl]; subst. inversion Hl as [|? ? Hx Hl']; subst.
    rewrite !sum_cons_fin by assumption.
    destruct Hx as [qx ->], Hy as [qy ->], (sum_fin l Hl') as [q ->].
    simpl. ring.
  - eapply eqv_trans; [now apply IH1|]. apply IH2.
    eapply Permutation_Forall; eauto.
Qed.

End Integral.

Section Lists.

Lemma map_nth_seq {X} (l : list X) (d : X) :
  map (fun i => nth i l d) (seq 0 (List.length l)) = l.
Proof.
  induction l as [|x l IH]; [reflexivity|].
  simpl. f_equal. rewrite <- seq_shift, map_map. exact IH.
Qed.

Lemma map_nth_app1 {X} (l : list X) (x d : X) (P : list nat) :
  Forall (fun i => (i < List.length l)%nat) P ->
  map (fun i => nth i (l ++ [x]) d) P = map (fun i => nth i l d) P.
Proof.
  intro H. apply map_ext_in. intros i Hi.
  rewrite Forall_forall in H. now rewrite app_nth1 by (now apply H).
Qed.

Lemma perm_seq_bound (P : list nat) (n : nat) :
  Permutation P (seq 0 n) -> Forall (fun i => (i < n)%nat) P.
Proof.
  intro H. apply Forall_forall. intros i Hi.
  apply (Permutation_in _ H) in Hi. apply in_seq in Hi. lia.
Qed.

End Lists.

Section PivotTotals.

Lemma pivot_value_integral (raw : list ((string * option string) * list Row))
  (y : string) (f : option string) :
  integral (fillna1 (pivot_value raw y f) (Fin 0)).
Proof.
  unfold pivot_value.
  destruct (find _ raw) as [kg|]; simpl.
  - apply of_nat_integral.
  - exists 0%Z. apply eqv_refl.
Qed.

Lemma pivoted_integral (df : list Row) (f : option string) :
  Forall integral (pivoted df f).
Proof.
  unfold pivoted, fillna. apply Forall_forall. intros v Hv.
  rewrite map_map in Hv. apply in_map_iff in Hv as [y [<- _]].
  apply pivot_value_integral.
Qed.

Lemma pivoted_length (df : list Row) (f : option string) :
  List.length (pivoted df f) = List.length (pivot_index df).
Proof. unfold pivoted, fillna. now rewrite !length_map. Qed.

Lemma pivot_reindexed_columns (df : list Row) (c : string) (s : Series) :
  In (c, s) (pivot_reindexed df) -> s = nums (pivoted df (Some c)).
Proof.
  unfold pivot_reindexed. intro H.
  apply in_map_iff in H as [f [[= <- <-] _]]. reflexivity.
Qed.

Lemma sum_axis1_integral (n : nat) (df : list Row) :
  Forall integral (sum_axis1 n (pivot_reindexed df)).
Proof.
  unfold sum_axis1. apply Forall_forall. intros v Hv.
  apply in_map_iff in Hv as [i [<- _]].
  apply sum_integral. apply Forall_forall. intros w Hw.
  apply in_flat_map in Hw as [[c s] [Hcs Hw]].
  rewrite (pivot_reindexed_columns df c s Hcs) in Hw. simpl in Hw.
  unfold nums in Hw.
  change (Num NaN) with (Num Num.NaN) in Hw.
  rewrite (map_nth Num) in Hw. simpl in Hw. destruct Hw as [<-|[]].
  destruct (nth_in_or_default i (pivoted df (Some c)) NaN) as [Hin| ->].
  - left. pose proof (pivoted_integral df (Some c)) as Hall.
    rewrite Forall_forall in Hall. now apply Hall.
  - now right.
Qed.

(** Every column of the pivot but the rate holds whole numbers, one per
    year bin. *)
Lemma pivot_column_integral (df : list Row) (c : string) (s : Series) :
  c <> "Opt In %" -> get c (pivot_with_opt_in df) = Some s ->
  exists vs, s = nums vs /\ Forall integral vs /\
             List.length vs = List.length (pivot_index df).
Proof.
  intros Hc H. unfold pivot_with_opt_in in H. rewrite get_assign in H.
  destruct (String.eqb_spec c "Opt In %"); [contradiction|].
  unfold pivot_with_accounts in H. rewrite get_assign in H.
  destruct (String.eqb c "# of Accounts").
  - injection H as <-. eexists. split; [reflexivity|]. split.
    + apply sum_axis1_integral.
    + unfold sum_axis1. now rewrite length_map, length_seq.
  - apply get_In in H. apply pivot_reindexed_columns in H. subst s.
    eexists. split; [reflexivity|]. split.
    + apply pivoted_integral.
    + apply pivoted_length.
Qed.

Lemma lookup_grand_total_hist (df : list Row) (c : string) :
  c <> "Opt In %" ->
  lookup c (grand_total_hist df)
  = option_map (fun s => Num (sum (values s))) (get c (pivot_with_opt_in df)).
Proof.
  intro Hc. unfold grand_total_hist, column_sums.
  destruct (is_truthy (opt_in_flag df)).
  - rewrite lookup_lookup_assign.
    destruct (String.eqb_spec c "Opt In %"); [contradiction|].
    apply (lookup_map_columns (fun s => Num (sum (values s)))).
  - apply (lookup_map_columns (fun s => Num (sum (values s)))).
Qed.

Lemma get_fold_round (c : string) (l : list string) :
  forall X : DataFrame,
  exists k,
    get c (fold_left (fun t c' => round_col c' 0 t) l X)
    = option_map (map (Nat.iter k (round_cell 0))) (get c X).
Proof.
  induction l as [|c' l IH]; intro X; simpl.
  - exists 0%nat. simpl. destruct (get c X); [|reflexivity].
    simpl. now rewrite map_id.
  - destruct (IH (round_col c' 0 X)) as [k Hk]. rewrite Hk, get_round_col.
    destruct (String.eqb c c').
    + exists (S k). destruct (get c X); [|reflexivity]. simpl. f_equal.
      rewrite map_map. apply map_ext. intro x.
      now rewrite <- Nat.iter_succ_r.
    + now exists k.
Qed.

Lemma iter_round_integral (k : nat) (v : num) :
  integral v ->
  exists v', Nat.iter k (round_cell 0) (Num v) = Num v' /\ v' =~ v.
Proof.
  intro Hv. induction k as [|k [v' [Hk Hv']]].
  - exists v. split; [reflexivity|apply eqv_refl].
  - simpl. rewrite Hk. simpl. exists (round v' 0). split; [reflexivity|].
    eapply eqv_trans; [|exact Hv'].
    apply round_integral. eapply integral_eqv; eauto.
Qed.

Lemma iter_round_column (k : nat) (vs : list num) :
  Forall integral vs ->
  exists vs', map (Nat.iter k (round_cell 0)) (nums vs) = nums vs' /\
              Forall2 Num.eqv vs' vs.
Proof.
  induction 1 as [|v vs Hv Hvs [vs' [Hmap Hall]]].
  - exists []. split; [reflexivity|constructor].
  - destruct (iter_round_integral k v Hv) as [v' [Hk Hv']].
    exists (v' :: vs'). split.
    + simpl. now rewrite Hk, Hmap.
    + now constructor.
Qed.

Lemma Forall2_length {X Y} (R : X -> Y -> Prop) (l : list X) (l' : list Y) :
  Forall2 R l l' -> List.length l = List.length l'.
Proof. induction 1; simpl; auto. Qed.

Lemma Forall2_fin (vs' vs : list num) :
  Forall2 Num.eqv vs' vs -> Forall integral vs -> Forall is_fin vs'.
Proof.
  induction 1 as [|v' v vs' vs Hv Hvs IH]; intro H; constructor;
    inversion H; subst.
  - apply integral_fin. eapply integral_eqv; eauto.
  - now apply IH.
Qed.

(** The total of the pivot reconciles with the rows the sort moved. *)
Lemma pivot_reconciles (df : list Row) (c : string) :
  c <> "Opt In %" -> c <> "Year Opened" ->
  has_col c (pivot_table df) = true -> reconciles c (pivot_table df).
Proof.
  intros Hc1 Hc2 Hhas.
  destruct (pivot_table_sorted df) as [P [HT HP]].
  assert (Hidx : get c (pivot_with_index df) = get c (pivot_cleaned df)).
  { unfold pivot_with_index. simpl.
    destruct (String.eqb_spec c "Year Opened"); [contradiction|reflexivity]. }
  assert (Hclean : exists k,
             get c (pivot_cleaned df)
             = option_map (map (Nat.iter k (round_cell 0)))
                 (get c (pivot_joined df))).
  { unfold pivot_cleaned. rewrite get_round_col.
    destruct (String.eqb_spec c "Opt In %"); [contradiction|].
    apply get_fold_round. }
  destruct Hclean as [k Hclean].
  destruct (get c (pivot_with_opt_in df)) as [s|] eqn:Hs.
  - destruct (pivot_column_integral df c s Hc1 Hs) as [vs [-> [Hint Hlen]]].
    assert (Hjoin : get c (pivot_joined df)
                    = Some (nums vs ++ [Num (sum vs)])).
    { unfold pivot_joined. rewrite (get_concat_row c _ _ _ Hs).
      rewrite (lookup_grand_total_hist df c Hc1), Hs. simpl.
      now rewrite values_nums. }
    rewrite Hjoin in Hclean. simpl in Hclean. rewrite map_app in Hclean.
    simpl in Hclean.
    destruct (iter_round_column k vs Hint) as [vs' [Hmap Hall]].
    assert (Hsum : integral (sum vs)).
    { apply sum_integral. eapply Forall_impl; [|exact Hint]. tauto. }
    destruct (iter_round_integral k (sum vs) Hsum) as [t [Ht Hteq]].
    rewrite Hmap, Ht in Hclean.
    assert (Hlen' : List.length (nums vs') = List.length (pivot_index df)).
    { unfold nums. rewrite length_map, (Forall2_length _ _ _ Hall). exact Hlen. }
    unfold reconciles, total_is, total_cell, col_sum.
    rewrite lookup_last_row, get_body, HT, get_take, Hidx, Hclean. simpl.
    rewrite map_app. cbn [map]. rewrite last_last, removelast_last.
    rewrite <- Hlen', nth_snoc_last.
    exists t. split; [reflexivity|].
    rewrite map_nth_app1
      by (rewrite Hlen'; now apply perm_seq_bound).
    unfold nums at 1.
    rewrite (map_ext_in _ (fun i => Num (nth i vs' NaN)))
      by (intros i _; apply (map_nth Num)).
    rewrite <- (map_map (fun i => nth i vs' NaN) Num).
    fold (nums (map (fun i => nth i vs' NaN) P)). rewrite values_nums.
    eapply eqv_trans; [exact Hteq|].
    apply eqv_sym.
    eapply eqv_trans; [|apply (sum_Forall2 _ _ Hall), (Forall2_fin _ _ Hall Hint)].
    apply eqv_sym. apply sum_perm.
    + rewrite <- (map_nth_seq vs' NaN) at 1.
      apply Permutation_map, Permutation_sym.
      unfold nums in Hlen'. rewrite length_map in Hlen'. now rewrite Hlen'.
    + apply (Forall2_fin _ _ Hall Hint).
  - exfalso. unfold has_col in Hhas.
    rewrite HT, get_take, Hidx, Hclean in Hhas.
    unfold pivot_joined in Hhas.
    rewrite get_concat_row_none in Hhas; [discriminate|exact Hs|].
    rewrite (lookup_grand_total_hist df c Hc1), Hs. reflexivity.
Qed.

End PivotTotals.

(** *** The zero guards of the ratio, rate and opt-in columns *)

Section Guards.

(** [np.where(items > 0, s, 0)] is 0 on a row without items. *)
Lemma np_where_guard (items s : list num) :
  forall (i : nat) (x : num),
    nth_error items i = Some x -> (x >? Fin 0)%num = false ->
    (i < List.length s)%nat ->
    nth_error (np_where (s_gt items (Fin 0)) s (Fin 0)) i = Some (Fin 0).
Proof.
  revert s. induction items as [|y items IH]; intros s i x Hx Hgt Hi.
  - destruct i; discriminate Hx.
  - destruct s as [|v s]; [simpl in Hi; lia|].
    destruct i as [|i]; simpl in *.
    + injection Hx as ->. now rewrite Hgt.
    + apply (IH s i x Hx Hgt). lia.
Qed.

(** The opt-in rate of a year bin without accounts is 0. *)
Lemma opt_in_guard (flags accounts : list num) :
  forall (i : nat) (f : num) (q : Q),
    nth_error flags i = Some f -> nth_error accounts i = Some (Fin q) ->
    q == 0 ->
    nth_error (fillna (s_mul (s_div2 flags (replace_zero_na accounts))
                         (Fin 100)) (Fin 0)) i = Some (Fin 0).
Proof.
  revert accounts. induction flags as [|g flags IH]; intros accounts i f q Hf Ha Hq.
  - destruct i; discriminate Hf.
  - destruct accounts as [|a accounts]; [destruct i; discriminate Ha|].
    destruct i as [|i]; simpl in *.
    + injection Ha as ->. apply Qeq_bool_iff in Hq. rewrite Hq.
      destruct g; reflexivity.
    + apply (IH accounts i f q Hf Ha Hq).
Qed.

End Guards.

(* ================================================================= *)
(** ** The grand-total row *)

Ltac fin_sums :=
  unfold total_items, paid_items, deposit_amount, deposit_count, od_limit,
    swipes, of_Z;
  rewrite ?sum_agg_sum.

Ltac total_ratio Hgroups :=
  unfold pay_total_is; table_simpl; eexists; split; [reflexivity|];
  fin_sums; first [apply ratio_eqv | apply rate_eqv]; apply Hgroups.

Ltac total_mean :=
  table_simpl; eexists; split; [reflexivity|];
  fin_sums; unfold Deposit_Count_Q; rewrite mean_population; apply eqv_refl.


(* ================================================================= *)
(** ** Percentage closure *)

Section Shapes.

Lemma closure_of_shape (T : DataFrame) (src dst : string) (qs : list Q) (p : nat) :
  group_cells src T = Some (nums (map Fin qs)) ->
  group_cells dst T
  = Some (nums (s_round (s_mul (s_div (map Fin qs) (sum (map Fin qs)))
                           (Fin 100)) p)) ->
  nrows (body T) = List.length qs ->
  ~ col_sum src (body T) =~ Fin 0 ->
  pct_of T src dst p /\ closes T dst p.
Proof.
  unfold group_cells, col_sum, pct_of, closes.
  intros Hsrc Hdst Hn HX. rewrite Hsrc in HX. rewrite values_nums in HX.
  rewrite pct_map in Hdst. split.
  - exists (map Fin qs). unfold group_cells. auto.
  - unfold col_sum. rewrite Hdst, values_nums, Hn. fold (qcount qs).
    apply pct_column_closes.
    rewrite (sum_map_Fin (fun q => q)) in HX. exact HX.
Qed.

Lemma closure_of_guarded_shape (T : DataFrame) (src dst : string)
  (qs : list Q) (alt : list num) (p : nat) :
  group_cells src T = Some (nums (map Fin qs)) ->
  group_cells dst T
  = Some (nums (if (sum (map Fin qs) >? Fin 0)%num
                then s_round (s_mul (s_div (map Fin qs) (sum (map Fin qs)))
                                (Fin 100)) p
                else alt)) ->
  nrows (body T) = List.length qs ->
  (forall q, In q qs -> 0 <= q) ->
  ~ col_sum src (body T) =~ Fin 0 ->
  pct_of T src dst p /\ closes T dst p.
Proof.
  intros Hsrc Hdst Hn Hpos HX.
  apply (closure_of_shape T src dst qs p); auto.
  rewrite Hdst. do 2 f_equal.
  assert (Hgt : (sum (map Fin qs) >? Fin 0)%num = true).
  { unfold col_sum in HX. unfold group_cells in Hsrc. rewrite Hsrc in HX.
    rewrite values_nums in HX.
    rewrite (sum_map_Fin (fun q => q)) in *. rewrite gtb_Fin.
    apply Qltb_lt. simpl in HX.
    pose proof (qsum_nonneg (fun q => q) qs Hpos). lra. }
  now rewrite Hgt.
Qed.

Context {K : Type} (cmp : K -> K -> comparison).

Lemma agg_count_Fin (g : list (K * list Row)) :
  agg_count g = map Fin (map (fun kg => qcount (snd kg)) g).
Proof. unfold agg_count, of_nat, qcount. now rewrite map_map. Qed.

Lemma agg_sum_Fin_map (f : Row -> Q) (g : list (K * list Row)) :
  agg_sum (fun r => Fin (f r)) g = map Fin (map (fun kg => qsum f (snd kg)) g).
Proof. rewrite agg_sum_Fin. now rewrite map_map. Qed.

Lemma add_row_rows (k : K) (r : Row) (gs : list (K * list Row)) :
  forall kg x, In kg (add_row cmp k r gs) -> In x (snd kg) ->
               x = r \/ exists kg', In kg' gs /\ In x (snd kg').
Proof.
  induction gs as [|[k' rs] gs IH]; intros kg x Hkg Hx; simpl in Hkg.
  - destruct Hkg as [<-|[]]. simpl in Hx. destruct Hx as [<-|[]]. now left.
  - destruct (cmp k k').
    + destruct Hkg as [<-|Hkg].
      * simpl in Hx. destruct Hx as [<-|Hx]; [now left|].
        right. exists (k', rs). split; [now left|assumption].
      * right. exists kg. split; [now right|assumption].
    + destruct Hkg as [<-|Hkg].
      * simpl in Hx. destruct Hx as [<-|[]]. now left.
      * right. exists kg. split; assumption.
    + destruct Hkg as [<-|Hkg].
      * right. exists (k', rs). split; [now left|assumption].
      * destruct (IH kg x Hkg Hx) as [->|[kg' [Hin Hx']]]; [now left|].
        right. exists kg'. split; [now right|assumption].
Qed.

Lemma groupby_rows (key : Row -> option K) (rows : list Row) :
  forall kg x, In kg (groupby cmp key rows) -> In x (snd kg) -> In x rows.
Proof.
  induction rows as [|r rows IH]; intros kg x Hkg Hx; simpl in Hkg.
  - destruct Hkg.
  - destruct (key r) as [k|].
    + destruct (add_row_rows k r _ kg x Hkg Hx) as [->|[kg' [Hin Hx']]].
      * now left.
      * right. eapply IH; eauto.
    + right. eapply IH; eauto.
Qed.

Lemma group_items_nonneg (key : Row -> option K) (mask : Row -> bool)
  (df : list Row) :
  nonneg_items df ->
  forall q,
    In q (map (fun kg => qsum Total_Items (snd kg))
            (groupby cmp key (filter mask df))) -> 0 <= q.
Proof.
  intros Hv q Hq. apply in_map_iff in Hq as [kg [<- Hkg]].
  apply qsum_nonneg. intros r Hr.
  pose proof (groupby_rows key _ kg r Hkg Hr) as Hin.
  apply filter_In in Hin as [Hin _].
  unfold nonneg_items in Hv. rewrite Forall_forall in Hv. now apply Hv.
Qed.

End Shapes.

Ltac shape_premise :=
  unfold group_cells; unfold_tables; simpl;
  rewrite ?removelast_last; unfold strs; rewrite ?length_map;
  unfold total_items;
  rewrite ?agg_count_Fin, ?agg_sum_Fin_map, ?length_map;
  reflexivity.

Ltac close_case Hv HX :=
  first
    [ eapply (closure_of_shape _ _ _ _ 2);
      [shape_premise | shape_premise | shape_premise | exact HX]
    | eapply (closure_of_guarded_shape _ _ _ _ _ 2);
      [shape_premise | shape_premise | shape_premise
      | first [ apply (group_items_nonneg _ _ _ _ Hv)
              | apply (group_items_nonneg _ _ (fun _ => true) _ Hv) ]
      | exact HX] ].

(** C6.  In every single-key table, for records with non-negative item
    counts and a value column whose total is not zero: each "% of X" above
    the total is the unrounded group value over the unrounded total of the
    column, times 100, rounded once to 2 decimals; and these percentages
    sum to 100 within n * 10^-2, n the number of groups. *)
Theorem percentages_close (df : list Row) (T : DataFrame) (src dst : string) :
  nonneg_items df ->
  In T (single_key_tables df) -> In (src, dst) pct_pairs ->
  has_col src T = true -> has_col dst T = true ->
  ~ col_sum src (body T) =~ Fin 0 ->
  pct_of T src dst 2 /\ closes T dst 2.
Proof.
  intros Hv HT Hp.
  unfold single_key_tables, report_tables in HT. simpl in HT.
  unfold pct_pairs in Hp. simpl in Hp.
  repeat (destruct HT as [<-|HT]; [
    repeat (destruct Hp as [Hp|Hp];
            [injection Hp as <- <-;
             first [ now (intro Hf; vm_compute in Hf; discriminate Hf)
                   | now (intros _ Hf; vm_compute in Hf; discriminate Hf)
                   | intros _ _ HX; close_case Hv HX ]|]);
    destruct Hp|]).
  destruct HT.
Qed.

(* ================================================================= *)
(** ** Reconciliation and the place of the total *)

Lemma report_tables_split (df : list Row) (T : DataFrame) :
  In T (report_tables df) -> In T (single_key_tables df) \/ T = pivot_table df.
Proof.
  unfold single_key_tables, report_tables. simpl. intuition.
Qed.



(* ================================================================= *)
(** ** Null keys and zero denominators *)


Section RegE.

Lemma rows_with_flag_count (k : string) (pop : list Row) :
  List.length (rows_with String.compare Reg_E_Flag k pop) = flag_count k pop.
Proof.
  unfold rows_with, flag_count. f_equal. apply filter_ext. intro r.
  destruct (Reg_E_Flag r) as [f|]; [|reflexivity].
  destruct (String.eqb_spec f k) as [->|Hne].
  - now rewrite (proj2 (string_cmp_eq k k) eq_refl).
  - destruct (String.compare f k) eqn:E; try reflexivity.
    apply string_cmp_eq in E. contradiction.
Qed.

Lemma reg_e_counts (pop : list Row) :
  agg_count (groupby String.compare Reg_E_Flag pop)
  = map (fun k => of_nat (flag_count k pop))
      (map fst (groupby String.compare Reg_E_Flag pop)).
Proof.
  unfold agg_count.
  rewrite <- (map_map (fun kg => List.length (snd kg)) of_nat).
  rewrite (groupby_counts String.compare string_cmp_eq string_cmp_trans
             String.compare_antisym Reg_E_Flag pop).
  unfold keys. rewrite !map_map. apply map_ext. intro kg.
  now rewrite rows_with_flag_count.
Qed.

Lemma reg_e_total (pop : list Row) :
  sum (agg_count (groupby String.compare Reg_E_Flag pop))
  =~ of_nat (List.length (flag_recorded pop)).
Proof.
  rewrite sum_agg_count. simpl.
  rewrite gsum_ones, gsum_groupby, qsum_ones. reflexivity.
Qed.

End RegE.

(** C4, at a table whose only account has no items: the account status
    summary holds NaN under "% of Items", where its pay ratio is guarded and
    the NSF stratification guards the same percentage. *)
Theorem pct_of_items_unguarded :
  let no_items := [account "O" "P" 0 0] in
  group_cells "# of Items" (stat_code_summary no_items) = Some [Num (Fin 0)] /\
  group_cells "% of Items" (stat_code_summary no_items) = Some [Num NaN] /\
  total_cell "% of Items" (stat_code_summary no_items) = Some (Num (Fin 100)) /\
  group_cells "% of Items" (acct_type_summary no_items) = Some [Num NaN] /\
  group_cells "Pay Ratio" (stat_code_summary no_items) = Some [Num (Fin 0)] /\
  group_cells "% of Items Presented" (nsf_strat1 no_items) = Some [Num (Fin 0)] /\
  group_cells "% of Items Presented" (od_status_personal no_items)
  = Some [Num (Fin 0)].
Proof.
  repeat split; vm_compute; reflexivity.
Qed.

Section PivotKeys.

Lemma cmp_flag_eq (a b : option string) : cmp_flag a b = Eq <-> a = b.
Proof.
  destruct a as [x|], b as [y|]; simpl; try (split; [discriminate|congruence]).
  - rewrite string_cmp_eq. split; congruence.
  - tauto.
Qed.

Lemma cmp_pair_eq (a b : string * option string) : cmp_pair a b = Eq <-> a = b.
Proof.
  destruct a as [y f], b as [y' f']. unfold cmp_pair. simpl.
  destruct (String.compare y y') eqn:E.
  - apply string_cmp_eq in E. subst y'. rewrite cmp_flag_eq.
    split; congruence.
  - split; [discriminate|]. intros [= -> _].
    rewrite (proj2 (string_cmp_eq y' y') eq_refl) in E. discriminate E.
  - split; [discriminate|]. intros [= -> _].
    rewrite (proj2 (string_cmp_eq y' y') eq_refl) in E. discriminate E.
Qed.

Lemma insert_sorted_In (x y : string) (l : list string) :
  In x (insert_sorted y l) <-> x = y \/ In x l.
Proof.
  induction l as [|z l IH]; simpl.
  - intuition.
  - destruct (String.compare y z); simpl; try rewrite IH; intuition.
Qed.

Lemma sorted_In (x : string) (l : list string) : In x (sorted l) <-> In x l.
Proof.
  induction l as [|y l IH]; simpl; [tauto|].
  rewrite insert_sorted_In, IH. intuition.
Qed.

Lemma unique_sorted_In {K} (cmp : K -> K -> comparison)
  (cmp_eq : forall a b, cmp a b = Eq <-> a = b) (l : list K) (x : K) :
  In x (unique_sorted cmp l) <-> In x l.
Proof.
  unfold unique_sorted.
  rewrite (groupby_keys cmp cmp_eq (fun k => Some k) l x).
  split.
  - intros [r [Hr [= ->]]]. exact Hr.
  - intro H. exists x. auto.
Qed.

(** The grouping with [dropna=False] keeps every pair, the null flag too. *)
Lemma pivot_raw_keys (df : list Row) (y : string) (f : option string) :
  In (y, f) (keys (pivot_raw df)) <->
  exists r, In r (p_hist df) /\ year_bin r = y /\ Reg_E_Flag r = f.
Proof.
  unfold pivot_raw.
  rewrite (groupby_keys cmp_pair cmp_pair_eq).
  split; intros [r [Hr H]]; exists r.
  - injection H as <- <-. auto.
  - destruct H as [<- <-]. auto.
Qed.

(** The flag columns of the historical table are the recorded flags. *)
Lemma reg_e_flags_recorded (df : list Row) (c : string) :
  In c (reg_e_flags df) <->
  exists r, In r (p_hist df) /\ Reg_E_Flag r = Some c.
Proof.
  unfold reg_e_flags. rewrite sorted_In, in_flat_map. split.
  - intros [[f|] [Hf Hc]]; [|destruct Hc].
    destruct Hc as [->|[]].
    unfold pivot_columns in Hf.
    apply (proj1 (unique_sorted_In cmp_flag cmp_flag_eq _ _)) in Hf.
    apply in_map_iff in Hf as [[[y f] rs] [Hy Hin]]. simpl in Hy. subst f.
    assert (Hk : In (y, Some c) (keys (pivot_raw df))).
    { unfold keys. apply in_map_iff. exists ((y, Some c), rs). auto. }
    apply (proj1 (pivot_raw_keys df y (Some c))) in Hk as [r [Hr [_ Hf]]]. eauto.
  - intros [r [Hr Hf]]. exists (Some c). split; [|now left].
    unfold pivot_columns.
    apply (proj2 (unique_sorted_In cmp_flag cmp_flag_eq _ _)).
    assert (Hk : In (year_bin r, Some c) (keys (pivot_raw df))).
    { apply (proj2 (pivot_raw_keys df (year_bin r) (Some c))). exists r. auto. }
    unfold keys in Hk. apply in_map_iff in Hk as [kg [Hkg Hin]].
    apply in_map_iff. exists kg. split; [now rewrite Hkg|exact Hin].
Qed.

End PivotKeys.


(* ================================================================= *)
(** ** The run *)

(** C8, as first stated, fails: on a frame without the OD status column
    the Reg E block succeeds on its own, yet the run ends without a report. *)
Lemma sibling_tables_lost_on_failure :
  ~ (forall e name step,
        In (name, step) script -> succeeds step e -> completes e).
Proof.
  intro H.
  destruct (H no_od_status "Analysis 13"
              (analysis "reg_e_summary" ["Reg E Flag"; "AcctNo"] reg_e_summary))
    as [out Hout].
  - unfold script. simpl. tauto.
  - eexists. reflexivity.
  - vm_compute in Hout. discriminate Hout.
Qed.

(** *** The blocks read [df] and bind one global each *)

Section Script.

Lemma frame_only_ret : frame_only (ret tt).
Proof.
  split.
  - intros e e' [= <-]. auto.
  - intros e1 e2 x _ H. discriminate H.
Qed.

Lemma frame_only_require (c : string) : frame_only (require c).
Proof.
  split.
  - intros e e'. unfold require.
    destruct (existsb _ _); [|discriminate]. intros [= <-]. auto.
  - intros e1 e2 x Hdf. unfold require. rewrite Hdf.
    destruct (existsb _ _); [discriminate|auto].
Qed.

Lemma frame_only_set_global (name : string) (build : list Row -> DataFrame) :
  frame_only (set_global name build).
Proof.
  split.
  - intros e e' [= <-]. auto.
  - intros e1 e2 x _ H. discriminate H.
Qed.

Lemma frame_only_bind (m k : M unit) :
  frame_only m -> frame_only k -> frame_only (m ;; k).
Proof.
  intros [Hm1 Hm2] [Hk1 Hk2]. split.
  - intros e e'. unfold bind. destruct (m e) as [x|[[] e1]] eqn:E; [discriminate|].
    intro H. destruct (Hm1 _ _ E) as [Hd Hc]. destruct (Hk1 _ _ H) as [Hd' Hc'].
    split; congruence.
  - intros e1 e2 x Hdf. unfold bind.
    destruct (m e1) as [x1|[[] e1']] eqn:E1.
    + intros [= <-]. now rewrite (Hm2 _ _ _ Hdf E1).
    + intro H. destruct (m e2) as [x2|[[] e2']] eqn:E2.
      * symmetry in Hdf. rewrite (Hm2 _ _ _ Hdf E2) in E1. discriminate E1.
      * apply (Hk2 e1' e2' x); [|exact H].
        destruct (Hm1 _ _ E1), (Hm1 _ _ E2). congruence.
Qed.

Lemma frame_only_require_all (cs : list string) : frame_only (require_all cs).
Proof.
  induction cs as [|c cs IH]; simpl.
  - apply frame_only_ret.
  - apply frame_only_bind; [apply frame_only_require|exact IH].
Qed.

Lemma frame_only_analysis (name : string) (reads : list string)
  (build : list Row -> DataFrame) :
  frame_only (analysis name reads build).
Proof.
  apply frame_only_bind;
    [apply frame_only_require_all|apply frame_only_set_global].
Qed.

Lemma frame_only_script (name : string) (step : M unit) :
  In (name, step) script -> frame_only step.
Proof.
  unfold script. simpl. intro H.
  repeat (destruct H as [[= <- <-]|H]; [apply frame_only_analysis|]).
  destruct H.
Qed.

Lemma frame_only_run_steps (steps : list (string * M unit)) :
  (forall s, In s steps -> frame_only (snd s)) -> frame_only (run_steps steps).
Proof.
  induction steps as [|s steps IH]; intro H; simpl.
  - apply frame_only_ret.
  - apply frame_only_bind; [apply H; now left|].
    apply IH. intros s' Hs'. apply H. now right.
Qed.

Lemma frame_only_run_analyses : frame_only run_analyses.
Proof.
  apply frame_only_bind; [apply frame_only_require_all|].
  apply frame_only_run_steps. intros [name step] H.
  now apply (frame_only_script name).
Qed.

(** A failing block ends the sequence it is part of. *)
Lemma run_steps_aborts (steps : list (string * M unit)) :
  (forall s, In s steps -> frame_only (snd s)) ->
  forall e s x, In s steps -> snd s e = inl x ->
                exists x', run_steps steps e = inl x'.
Proof.
  induction steps as [|s0 steps IH]; intros Hfo e s x Hin Hfail;
    [destruct Hin|].
  simpl. unfold bind.
  destruct (snd s0 e) as [x0|[[] e1]] eqn:E0; [eauto|].
  destruct Hin as [->|Hin]; [congruence|].
  apply (IH (fun s' Hs' => Hfo s' (or_intror Hs')) e1 s x Hin).
  destruct (Hfo s (or_intror Hin)) as [_ Hs2].
  destruct (Hfo s0 (or_introl eq_refl)) as [Hs1 _].
  apply (Hs2 e e1 x); [|exact Hfail].
  symmetry. apply (Hs1 _ _ E0).
Qed.

Lemma bind_ok {X Y} (m : M X) (k : X -> M Y) (e : Env) (r : Y * Env) :
  bind m k e = inr r -> exists a e1, m e = inr (a, e1) /\ k a e1 = inr r.
Proof.
  unfold bind. destruct (m e) as [x|[a e1]]; [discriminate|eauto].
Qed.

Lemma require_all_ok (cs : list string) (e e' : Env) :
  require_all cs e = inr (tt, e') -> e' = e.
Proof.
  revert e. induction cs as [|c cs IH]; intros e H; simpl in H.
  - now injection H.
  - apply bind_ok in H as [[] [e1 [H1 H2]]]. unfold require in H1.
    destruct (existsb _ _); [|discriminate]. injection H1 as <-. now apply IH.
Qed.

Lemma analysis_ok (name : string) (reads : list string)
  (build : list Row -> DataFrame) (e e' : Env) :
  analysis name reads build e = inr (tt, e') ->
  df e' = df e /\ clock e' = clock e /\
  globals e' = lookup_assign name (build (frame_rows (df e))) (globals e).
Proof.
  unfold analysis. intro H. apply bind_ok in H as [[] [e1 [H1 H2]]].
  apply require_all_ok in H1. subst e1. injection H2 as <-. auto.
Qed.

Ltac step_ok H :=
  let e1 := fresh "e" in
  let H1 := fresh "Hstep" in
  apply bind_ok in H as [[] [e1 [H1 H]]];
  apply analysis_ok in H1 as (? & ? & ?).

Lemma run_analyses_tabs (e e' : Env) :
  run_analyses e = inr (tt, e') -> tabs e' = named_tables (frame_rows (df e)).
Proof.
  unfold run_analyses, common_filters. intro H.
  apply bind_ok in H as [[] [e0 [H0 H]]]. apply require_all_ok in H0. subst e0.
  unfold script, run_steps in H. cbn [snd] in H.
  do 15 step_ok H. injection H as <-.
  unfold tabs, table_of, named_tables, report_tables. simpl combine.
  repeat match goal with
         | Hg : globals ?a = _ |- _ => rewrite Hg; clear Hg
         end.
  repeat match goal with
         | Hd : df ?a = _ |- _ => rewrite Hd in *; clear Hd
         end.
  rewrite !lookup_lookup_assign. reflexivity.
Qed.

End Script.

(** C8 (amended).  No block catches an error: when a block of the script
    raises, the run ends with an error and no table reaches the renderers,
    whatever the other blocks would have produced. *)
Theorem failing_analysis_aborts_run (e : Env) (name : string) (step : M unit)
  (x : exn) :
  In (name, step) script -> step e = inl x ->
  (exists x', main e = inl x') /\ ~ completes e.
Proof.
  intros Hin Hfail.
  assert (Hrun : exists x', run_analyses e = inl x').
  { unfold run_analyses, bind.
    destruct (common_filters e) as [x0|[[] e0]] eqn:H0; [eauto|].
    assert (He0 : e0 = e)
      by (now apply (require_all_ok ["Account Status"; "Business Flag"] e e0)).
    subst e0.
    apply (run_steps_aborts script) with (s := (name, step)) (x := x); auto.
    intros [n s] Hs. now apply (frame_only_script n). }
  destruct Hrun as [x' Hx']. unfold completes, main. rewrite Hx'.
  split; [eauto|]. intros [out Hout]. discriminate Hout.
Qed.

(** C8 (amended), at a frame without the OD status column. *)
Lemma failing_analysis_aborts_run_witness :
  (exists x', main no_od_status = inl x') /\ ~ completes no_od_status.
Proof.
  apply (failing_analysis_aborts_run no_od_status "Analysis 11"
           (analysis "od_status_personal"
              ["OD Status"; "AcctNo"; "Total Items"; "Paid Items"]
              od_status_personal)
           (KeyError "OD Status")).
  - unfold script. simpl. tauto.
  - reflexivity.
Defined.



(* ================================================================= *)
(** ** The helper [add_grand_total] *)

Section Placeholder.

Lemma lower_ascii_not_R (c : ascii) : lower_ascii c <> "R"%char.
Proof.
  destruct c as [[] [] [] [] [] [] [] []]; vm_compute; discriminate.
Qed.

Lemma prefix_Ratio_lower (s : string) : String.prefix "Ratio" (lower s) = false.
Proof.
  destruct s as [|c s]; [reflexivity|].
  change (String.prefix "Ratio" (lower (String c s)))
    with (if ascii_dec "R" (lower_ascii c)
          then String.prefix "atio" (lower s) else false).
  destruct (ascii_dec "R" (lower_ascii c)) as [E|]; [|reflexivity].
  symmetry in E. now apply lower_ascii_not_R in E.
Qed.

(** No lower-cased name holds the capitalised ["Ratio"]. *)
Lemma ratio_test_is_dead (col : string) : contains "Ratio" (lower col) = false.
Proof.
  induction col as [|c col IH]; [reflexivity|].
  change (lower (String c col)) with (String (lower_ascii c) (lower col)).
  change (contains "Ratio" (String (lower_ascii c) (lower col)))
    with (String.prefix "Ratio" (String (lower_ascii c) (lower col))
          || contains "Ratio" (lower col)).
  rewrite IH, orb_false_r.
  apply (prefix_Ratio_lower (String c col)).
Qed.

End Placeholder.

(** C10, at a summary with a "Pay Ratio" column: the test
    ["Ratio" in col.lower()] never holds, so the helper sums the ratio
    column where a placeholder was meant. *)
Theorem add_grand_total_sums_ratio_column :
  (forall col, contains "Ratio" (lower col) = false) /\
  is_placeholder "Pay Ratio" = false /\
  exists totals v,
    add_grand_total ratio_summary "Account Status" "Grand Total" = Some totals /\
    lookup "Account Status" totals = Some (Str "Grand Total") /\
    lookup "% of Accounts" totals = Some (Num NaN) /\
    lookup "Pay Ratio" totals = Some (Num v) /\ v =~ Fin (3 # 4).
Proof.
  split; [exact ratio_test_is_dead|]. split; [reflexivity|].
  eexists. eexists. split; [vm_compute; reflexivity|].
  repeat split.
Qed.

(* ================================================================= *)
(** ** Guards and row order *)

Section GuardedColumns.

Lemma nth_error_nums (l : list num) (i : nat) (x : num) :
  nth_error (nums l) i = Some (Num x) <-> nth_error l i = Some x.
Proof.
  unfold nums. rewrite nth_error_map.
  destruct (nth_error l i); simpl; split; congruence.
Qed.

Lemma ratio_column_guard (items scaled : list num) (i : nat) (x : num) :
  List.length scaled = List.length items ->
  nth_error (nums items) i = Some (Num x) -> (x >? Fin 0)%num = false ->
  nth_error (nums (np_where (s_gt items (Fin 0)) scaled (Fin 0))) i
  = Some (Num (Fin 0)).
Proof.
  intros Hlen Hx Hgt. apply nth_error_nums in Hx. apply nth_error_nums.
  apply (np_where_guard items scaled i x Hx Hgt).
  rewrite Hlen. apply nth_error_Some. congruence.
Qed.

Lemma ratio_lengths {K} (f h : Row -> num) (g : list (K * list Row)) (p : nat) :
  List.length (s_round (s_div2 (agg_sum f g) (agg_sum h g)) p)
  = List.length (agg_sum h g).
Proof.
  unfold s_round, s_div2, agg_sum.
  rewrite !length_map, length_combine, !length_map. lia.
Qed.

Lemma rate_lengths {K} (f h : Row -> num) (g : list (K * list Row)) (k : num)
  (p : nat) :
  List.length (s_round (s_mul (s_div2 (agg_sum f g) (agg_sum h g)) k) p)
  = List.length (agg_sum h g).
Proof.
  unfold s_round, s_mul, s_div2, agg_sum.
  rewrite !length_map, length_combine, !length_map. lia.
Qed.

End GuardedColumns.

(** A group that presented no item has pay ratio (pay rate) 0: the
    [np.where] guard of the six tables with such a column. *)
Theorem zero_items_zero_ratio (df : list Row) (mask : Row -> bool)
  (T : DataFrame) (items ratio : string) (i : nat) (x : num) :
  In (T, items, ratio) (ratio_tables mask df) ->
  (exists s, group_cells items T = Some s /\ nth_error s i = Some (Num x)) ->
  (x >? Fin 0)%num = false ->
  exists s', group_cells ratio T = Some s' /\
             nth_error s' i = Some (Num (Fin 0)).
Proof.
  intros HT [s [Hs Hx]] Hgt. unfold ratio_tables in HT. simpl in HT.
  repeat (destruct HT as [[= <- <- <-]|HT];
          [revert Hs; table_simpl; intros [= <-]; eexists;
           split; [reflexivity|];
           apply (ratio_column_guard _ _ i x);
           [first [apply ratio_lengths | apply rate_lengths]|exact Hx|exact Hgt]|]).
  destruct HT.
Qed.

Lemma zero_items_zero_ratio_witness :
  exists s', group_cells "% Pay Rate" (nsf_pay_p scenario_C) = Some s' /\
             nth_error s' 0 = Some (Num (Fin 0)).
Proof.
  apply (zero_items_zero_ratio scenario_C PERSONAL_OPEN (nsf_pay_p scenario_C)
           "Total OD/NSF Items" "% Pay Rate" 0 (Fin 0)).
  - unfold ratio_tables. do 2 right. left. reflexivity.
  - eexists. split; [reflexivity|vm_compute; reflexivity].
  - reflexivity.
Defined.

Section NatKeys.

Lemma nat_cmp_eq (a b : nat) : Nat.compare a b = Eq <-> a = b.
Proof. apply Nat.compare_eq_iff. Qed.

Lemma nat_cmp_trans (a b c : nat) :
  Nat.compare a b = Lt -> Nat.compare b c = Lt -> Nat.compare a c = Lt.
Proof. rewrite !Nat.compare_lt_iff. lia. Qed.

Lemma nat_cmp_antisym (a b : nat) :
  Nat.compare a b = CompOpp (Nat.compare b a).
Proof. apply Nat.compare_antisym. Qed.

Lemma bins_sorted (key : Row -> option nat) (rows : list Row) :
  StronglySorted lt (map fst (groupby Nat.compare key rows)).
Proof.
  pose proof (groupby_sorted Nat.compare nat_cmp_eq nat_cmp_trans
                nat_cmp_antisym key rows) as H.
  unfold keys in H.
  induction H as [|a l Hs IH Hall]; constructor; [exact IH|].
  eapply Forall_impl; [|exact Hall]. intros b Hb.
  now apply Nat.compare_lt_iff.
Qed.

End NatKeys.


Section OptIn.

Lemma get_generated (g : string -> Series) (f : string) (l : list string) :
  In f l -> get f (map (fun c => (c, g c)) l) = Some (g f).
Proof.
  induction l as [|c l IH]; intro H; [destruct H|]. simpl.
  destruct (String.eqb_spec f c) as [->|Hne]; [reflexivity|].
  destruct H as [->|H]; [contradiction|now apply IH].
Qed.

Lemma accounts_length (df : list Row) :
  List.length (get_nums "# of Accounts" (pivot_with_accounts df))
  = List.length (pivot_index df).
Proof.
  unfold get_nums, pivot_with_accounts. rewrite get_assign. simpl.
  rewrite values_nums. unfold sum_axis1. now rewrite length_map, length_seq.
Qed.

Lemma opt_in_flag_column (df : list Row) (f : string) :
  opt_in_flag df = Some f ->
  List.length (get_nums f (pivot_with_accounts df))
  = List.length (pivot_index df).
Proof.
  intro Hf.
  assert (Hin : In f (reg_e_flags df)).
  { unfold opt_in_flag in Hf.
    destruct (existsb (String.eqb "Y") (reg_e_flags df)) eqn:E.
    - injection Hf as <-. apply existsb_exists in E as [c [Hc Heq]].
      apply String.eqb_eq in Heq. now subst c.
    - destruct (reg_e_flags df) as [|c l]; [discriminate|].
      injection Hf as <-. now left. }
  unfold get_nums, pivot_with_accounts. rewrite get_assign.
  destruct (String.eqb f "# of Accounts").
  - rewrite values_nums. unfold sum_axis1. now rewrite length_map, length_seq.
  - unfold pivot_reindexed.
    rewrite (get_generated (fun c => nums (pivoted df (Some c))) f _ Hin).
    rewrite values_nums. apply pivoted_length.
Qed.

End OptIn.



(* ================================================================= *)
(** ** The theorems at concrete tables *)

Lemma scenario_C_nonneg : nonneg_items scenario_C.
Proof.
  unfold nonneg_items, scenario_C. repeat constructor; simpl; lra.
Qed.

Lemma scenario_D_nonneg : nonneg_items scenario_D.
Proof.
  unfold nonneg_items. apply Forall_forall. intros r Hr.
  unfold scenario_D in Hr.
  repeat (apply in_app_or in Hr as [Hr|Hr]);
    apply repeat_spec in Hr; subst r; simpl; lra.
Qed.



(** C6, at the Reg E summary of scenario D. *)
Lemma percentages_close_witness :
  pct_of (reg_e_summary scenario_D) "# of Accounts" "% of Accounts" 2 /\
  closes (reg_e_summary scenario_D) "% of Accounts" 2.
Proof.
  apply (percentages_close scenario_D).
  - exact scenario_D_nonneg.
  - unfold single_key_tables, report_tables. cbn [removelast].
    do 12 right. left. reflexivity.
  - unfold pct_pairs. left. reflexivity.
  - vm_compute. reflexivity.
  - vm_compute. reflexivity.
  - vm_compute. intro H. discriminate H.
Defined.


(* ================================================================= *)
(** ** Bins and the rows they leave out *)

Section Coverage.

Lemma cut_label_some (bins : list bound) (labels : list string) (v : Q) (i : nat) :
  List.length bins = S (List.length labels) ->
  cut bins v = Some i -> exists l, cut_label bins labels v = Some l.
Proof.
  intros Hlen Hc. unfold cut_label. rewrite Hc.
  apply cut_some in Hc as [_ Hi].
  destruct (nth_error labels i) as [l|] eqn:E; [eauto|].
  apply nth_error_None in E. lia.
Qed.

Lemma has_key_nsf_bin (r : Row) :
  has_key nsf_bin r = Qltb (-1) (Total_Items r).
Proof.
  unfold has_key, nsf_bin. destruct (Qltb (-1) (Total_Items r)) eqn:E.
  - apply Qltb_lt in E.
    destruct (cut_covered NSF_BINS (Total_Items r) (-1)) as [i ->];
      [reflexivity|exact E|simpl; tauto|reflexivity].
  - apply Qltb_ge in E.
    rewrite (cut_below_first NSF_BINS (Total_Items r) (B (-1)));
      [reflexivity|reflexivity|exact E].
Qed.

Lemma Qltb_inject_Z (a b : Z) : Qltb (inject_Z a) (inject_Z b) = (a <? b)%Z.
Proof.
  destruct (Z.ltb_spec a b) as [H|H].
  - apply Qltb_lt. rewrite <- Zlt_Qlt. exact H.
  - apply Qltb_ge. rewrite <- Zle_Qle. exact H.
Qed.

Lemma has_key_dep_bin (r : Row) :
  has_key (fun r => cut DEP_BINS (inject_Z (Deposit_Count r))) r
  = (-1 <? Deposit_Count r)%Z.
Proof.
  unfold has_key. rewrite <- Qltb_inject_Z.
  change (inject_Z (-1)) with (-1).
  destruct (Qltb (-1) (inject_Z (Deposit_Count r))) eqn:E.
  - apply Qltb_lt in E.
    destruct (cut_covered DEP_BINS (inject_Z (Deposit_Count r)) (-1)) as [i ->];
      [reflexivity|exact E|simpl; tauto|reflexivity].
  - apply Qltb_ge in E.
    rewrite (cut_below_first DEP_BINS (inject_Z (Deposit_Count r)) (B (-1)));
      [reflexivity|reflexivity|exact E].
Qed.

Lemma sum_agg_count_groupby {K} (cmp : K -> K -> comparison)
  (key : Row -> option K) (rows : list Row) :
  sum (agg_count (groupby cmp key rows))
  =~ of_nat (List.length (filter (has_key key) rows)).
Proof.
  rewrite sum_agg_count. unfold of_nat. simpl.
  rewrite gsum_ones, gsum_groupby, qsum_ones. reflexivity.
Qed.

End Coverage.

(** Bin coverage.  For increasing edges that start at a number [b0] and
    end at infinity, with one label per interval, [pd.cut] gives a label to
    exactly the values above [b0]: each of them falls in one interval and
    gets its label.  Both bin specs of the script are of this form, with
    [b0 = -1]. *)
Theorem bins_cover_values_above_first_edge (bins : list bound)
  (labels : list string) (b0 v : Q) :
  increasing bins = true ->
  List.length bins = S (List.length labels) ->
  hd_error bins = Some (B b0) -> In Inf bins ->
  (b0 < v <->
   exists i l, cut bins v = Some i /\ cut_label bins labels v = Some l /\
               nth_error labels i = Some l /\ in_bin bins i v).
Proof.
  intros Hinc Hlen Hhd Hinf. split.
  - intro Hlt. destruct (cut_covered bins v b0 Hhd Hlt Hinf) as [i Hi].
    destruct (cut_label_some bins labels v i Hlen Hi) as [l Hl].
    exists i, l. repeat split; try assumption.
    + unfold cut_label in Hl. now rewrite Hi in Hl.
    + now apply cut_in_bin.
  - intros (i & l & Hi & _).
    destruct (Qlt_le_dec b0 v) as [H|H]; [exact H|].
    rewrite (cut_below_first bins v (B b0) Hhd H) in Hi. discriminate.
Qed.

(** At the deposit bins and the count 12, and at the NSF bins and 0 items. *)
Lemma bins_cover_values_above_first_edge_witness :
  (-1 < 12 <->
   exists i l, cut DEP_BINS 12 = Some i /\
               cut_label DEP_BINS DEP_LABELS 12 = Some l /\
               nth_error DEP_LABELS i = Some l /\ in_bin DEP_BINS i 12) /\
  (-1 < 0 <->
   exists i l, cut NSF_BINS 0 = Some i /\
               cut_label NSF_BINS NSF_LABELS 0 = Some l /\
               nth_error NSF_LABELS i = Some l /\ in_bin NSF_BINS i 0).
Proof.
  split.
  - apply (bins_cover_values_above_first_edge DEP_BINS DEP_LABELS (-1) 12);
      [reflexivity|reflexivity|reflexivity|simpl; tauto].
  - apply (bins_cover_values_above_first_edge NSF_BINS NSF_LABELS (-1) 0);
      [reflexivity|reflexivity|reflexivity|simpl; tauto].
Defined.

(** The binned tables leave out the rows that no bin holds: the grand total
    of the NSF stratification counts, and sums the items of, the accounts
    with more than -1 items; the grand total of the deposit distribution
    counts the accounts with more than -1 deposits, while its two averages
    are taken over every account of the subset, binned or not. *)
Theorem binned_totals_leave_out_low_rows (df : list Row) (mask : Row -> bool) :
  let sub := filter mask df in
  total_is (nsf_strat mask df) "# of Accounts"
    (of_nat (List.length (binned_items sub))) /\
  total_is (nsf_strat mask df) "Total OD/NSF Items"
    (Fin (qsum Total_Items (binned_items sub))) /\
  total_is (deposit_summary mask df) "Accounts"
    (of_nat (List.length (binned_deposits sub))) /\
  total_is (deposit_summary mask df) "Avg # Deposits"
    (population_mean Deposit_Count_Q sub) /\
  total_is (deposit_summary mask df) "Avg $$ Deposits"
    (population_mean Deposit_Amount sub).
Proof.
  intro sub. repeat split.
  - table_simpl. eexists. split; [reflexivity|].
    eapply eqv_trans; [apply sum_agg_count_groupby|].
    unfold binned_items.
    rewrite (filter_ext _ _ has_key_nsf_bin). apply eqv_refl.
  - table_simpl. eexists. split; [reflexivity|].
    unfold total_items. rewrite sum_agg_sum. simpl.
    rewrite gsum_groupby. unfold binned_items.
    rewrite (filter_ext _ _ has_key_nsf_bin). reflexivity.
  - table_simpl. eexists. split; [reflexivity|].
    eapply eqv_trans; [apply sum_agg_count_groupby|].
    unfold binned_deposits.
    rewrite (filter_ext _ _ has_key_dep_bin). apply eqv_refl.
  - total_mean.
  - total_mean.
Qed.

(* ================================================================= *)
(** ** The rows of the status summary, and totals across tables *)

Section StatusGroups.

Lemma rows_with_status (k : string) (pop : list Row) :
  rows_with String.compare (fun r => Some (Account_Status r)) k pop
  = with_status k pop.
Proof.
  unfold rows_with, with_status. apply filter_ext. intro r.
  destruct (String.eqb_spec (Account_Status r) k) as [->|Hne].
  - now rewrite (proj2 (string_cmp_eq k k) eq_refl).
  - destruct (String.compare (Account_Status r) k) eqn:E; try reflexivity.
    apply string_cmp_eq in E. contradiction.
Qed.

Lemma map_groups {X} (h : list Row -> X) (key : Row -> option string)
  (pop : list Row) :
  map (fun kg => h (snd kg)) (groupby String.compare key pop)
  = map (fun k => h (rows_with String.compare key k pop))
      (map fst (groupby String.compare key pop)).
Proof.
  rewrite map_map. apply map_ext_in. intros kg Hin. f_equal.
  apply (groupby_group String.compare string_cmp_eq string_cmp_trans
           String.compare_antisym key pop kg Hin).
Qed.

Lemma key_always {K} (key : Row -> K) (pop : list Row) :
  filter (has_key (fun r => Some (key r))) pop = pop.
Proof. apply (qsum_filter_all (fun _ : Row => 0)). reflexivity. Qed.

End StatusGroups.

(** The rows of the account status summary (Analysis 1): one row per
    status that occurs, in ascending order of the status and without
    repetition, holding the number of accounts with that status and the sums
    of their presented and paid items. *)
Theorem status_summary_rows (df : list Row) :
  let T := stat_code_summary df in
  exists statuses,
    group_cells "Account Status" T = Some (strs statuses) /\
    StronglySorted (key_lt String.compare) statuses /\
    (forall k, In k statuses <-> exists r, In r df /\ Account_Status r = k) /\
    group_cells "# of Accounts" T
    = Some (nums (map (fun k => of_nat (List.length (with_status k df)))
                    statuses)) /\
    group_cells "# of Items" T
    = Some (nums (map (fun k => Fin (qsum Total_Items (with_status k df)))
                    statuses)) /\
    group_cells "# of Items Paid" T
    = Some (nums (map (fun k => Fin (qsum Paid_Items (with_status k df)))
                    statuses)).
Proof.
  intro T. subst T.
  exists (map fst (groupby String.compare
                     (fun r => Some (Account_Status r)) df)).
  split; [table_simpl; reflexivity|]. split.
  { apply (groupby_sorted String.compare string_cmp_eq string_cmp_trans
             String.compare_antisym). }
  split.
  { intro k. split.
    - intro H.
      apply (groupby_keys String.compare string_cmp_eq) in H
        as [r [Hr [= Hk]]]. eauto.
    - intros [r [Hr Hk]].
      apply (groupby_keys String.compare string_cmp_eq). exists r.
      split; [exact Hr|now rewrite Hk]. }
  split; [|split].
  - table_simpl. unfold agg_count.
    rewrite (map_groups (fun rs => of_nat (List.length rs))).
    do 2 f_equal. apply map_ext. intro k. now rewrite rows_with_status.
  - table_simpl. unfold total_items. rewrite agg_sum_Fin.
    rewrite (map_groups (fun rs => Fin (qsum Total_Items rs))).
    do 2 f_equal. apply map_ext. intro k. now rewrite rows_with_status.
  - table_simpl. unfold paid_items. rewrite agg_sum_Fin.
    rewrite (map_groups (fun rs => Fin (qsum Paid_Items rs))).
    do 2 f_equal. apply map_ext. intro k. now rewrite rows_with_status.
Qed.

Section Ownership.

Lemma length_filter_split {X} (p q : X -> bool) (l : list X) :
  (forall x, p x && q x = false) ->
  List.length (filter (fun x => p x || q x) l)
  = (List.length (filter p l) + List.length (filter q l))%nat.
Proof.
  intro Hd. induction l as [|x l IH]; [reflexivity|]. simpl.
  specialize (Hd x).
  destruct (p x), (q x); simpl in *; try discriminate; rewrite IH; lia.
Qed.

Lemma open_accounts_split (df : list Row) :
  List.length (filter OPEN_MASK df)
  = (List.length (filter PERSONAL_OPEN df)
     + List.length (filter BUSINESS_OPEN df)
     + List.length (filter OTHER_OPEN df))%nat.
Proof.
  rewrite <- (length_filter_split PERSONAL_OPEN BUSINESS_OPEN).
  - rewrite <- (length_filter_split
                  (fun r => PERSONAL_OPEN r || BUSINESS_OPEN r) OTHER_OPEN).
    + f_equal. apply filter_ext. intro r.
      unfold PERSONAL_OPEN, BUSINESS_OPEN, OTHER_OPEN.
      destruct (OPEN_MASK r), (String.eqb (Business_Flag r) "P"),
        (String.eqb (Business_Flag r) "B"); reflexivity.
    + intro r. unfold PERSONAL_OPEN, BUSINESS_OPEN, OTHER_OPEN.
      destruct (OPEN_MASK r), (String.eqb (Business_Flag r) "P"),
        (String.eqb (Business_Flag r) "B"); reflexivity.
  - intro r. unfold PERSONAL_OPEN, BUSINESS_OPEN.
    destruct (String.eqb_spec (Business_Flag r) "P") as [->|];
      destruct (OPEN_MASK r); reflexivity.
Qed.

Lemma total_key_count {K} (cmp : K -> K -> comparison) (key : Row -> K)
  (pop : list Row) :
  sum (agg_count (groupby cmp (fun r => Some (key r)) pop))
  =~ of_nat (List.length pop).
Proof.
  eapply eqv_trans; [apply sum_agg_count_groupby|].
  rewrite key_always. apply eqv_refl.
Qed.

End Ownership.


(* ================================================================= *)
(** ** The columns a run needs *)

Section FirstMissing.

Lemma find_app {X} (p : X -> bool) (l1 l2 : list X) :
  find p (l1 ++ l2)
  = match find p l1 with Some x => Some x | None => find p l2 end.
Proof.
  induction l1 as [|x l1 IH]; [reflexivity|]. simpl.
  destruct (p x); [reflexivity|exact IH].
Qed.

Lemma require_all_find (cs : list string) (e : Env) :
  require_all cs e
  = match find (missing (df e)) cs with
    | Some c => inl (KeyError c)
    | None => inr (tt, e)
    end.
Proof.
  induction cs as [|c cs IH]; [reflexivity|].
  simpl. unfold bind, require, missing at 1.
  destruct (existsb (String.eqb c) (frame_columns (df e))); simpl;
    [exact IH|reflexivity].
Qed.

Lemma run_block (name : string) (reads : list string)
  (build : list Row -> DataFrame) (rest : M unit) (e : Env) :
  (analysis name reads build ;; rest) e
  = match find (missing (df e)) reads with
    | Some c => inl (KeyError c)
    | None =>
        rest {| df := df e; clock := clock e;
                globals := lookup_assign name (build (frame_rows (df e)))
                             (globals e) |}
    end.
Proof.
  unfold analysis, bind. rewrite require_all_find.
  destruct (find (missing (df e)) reads); reflexivity.
Qed.

Ltac next_block :=
  rewrite run_block; cbn [df clock globals];
  rewrite find_app;
  match goal with
  | |- context [find ?p ?l] =>
      destruct (find p l) eqn:?; [reflexivity|]
  end.

Lemma run_analyses_find (e : Env) :
  exists e',
    run_analyses e
    = match find (missing (df e)) read_order with
      | Some c => inl (KeyError c)
      | None => inr (tt, e')
      end.
Proof.
  eexists.
  unfold run_analyses, common_filters, read_order.
  unfold bind at 1. rewrite require_all_find, find_app.
  destruct (find (missing (df e)) ["Account Status"; "Business Flag"])
    eqn:E0; [reflexivity|].
  unfold script. cbn [run_steps snd].
  do 14 next_block.
  rewrite run_block; cbn [df clock globals].
  match goal with
  | |- context [find ?p ?l] => destruct (find p l) eqn:?; [reflexivity|]
  end.
  reflexivity.
Qed.

Lemma find_none_all {X} (p : X -> bool) (l : list X) :
  find p l = None <-> forall x, In x l -> p x = false.
Proof.
  split.
  - intros H x Hx. exact (find_none p l H x Hx).
  - induction l as [|x l IH]; [reflexivity|]. intro H. simpl.
    rewrite (H x (or_introl eq_refl)). apply IH. intros y Hy.
    apply H. now right.
Qed.

Lemma missing_false (f : Frame) (c : string) :
  missing f c = false <-> In c (frame_columns f).
Proof.
  unfold missing. rewrite negb_false_iff, existsb_exists. split.
  - intros [x [Hx E]]. apply String.eqb_eq in E. now subst.
  - intro H. exists c. split; [exact H|apply String.eqb_refl].
Qed.

End FirstMissing.


(* ================================================================= *)
(** ** The entries of [add_grand_total] *)

Section TotalsDict.

Variables label_col label : string.

Lemma lookup_assign_new {X} (c : string) (v : X) (t : list (string * X)) :
  lookup c t = None -> lookup_assign c v t = t ++ [(c, v)].
Proof.
  induction t as [|[c' w] t IH]; [reflexivity|]. simpl.
  destruct (String.eqb c c'); [discriminate|]. intro H. now rewrite IH.
Qed.

Lemma lookup_app {X} (c : string) (t u : list (string * X)) :
  lookup c (t ++ u)
  = match lookup c t with Some v => Some v | None => lookup c u end.
Proof.
  induction t as [|[c' w] t IH]; [reflexivity|]. simpl.
  destruct (String.eqb c c'); [reflexivity|exact IH].
Qed.

Lemma lookup_none_keys {X} (c : string) (t : list (string * X)) :
  lookup c t = None <-> ~ In c (map fst t).
Proof.
  induction t as [|[c' w] t IH]; simpl; [tauto|].
  destruct (String.eqb_spec c c') as [->|Hne].
  - split; [discriminate|]. intro H. exfalso. apply H. now left.
  - rewrite IH. split; [intros H [E|E]; [congruence|tauto]|tauto].
Qed.

Lemma add_grand_total_step (cs : string * Series) (t : list (string * cell)) :
  (let col := fst cs in
   if String.eqb col label_col then Some (lookup_assign col (Str label) t)
   else if is_placeholder col then Some (lookup_assign col (Num NaN) t)
   else option_map (fun v => lookup_assign col v t) (series_sum (snd cs)))
  = option_map (fun v => lookup_assign (fst cs) v t)
      (total_entry label_col label cs).
Proof.
  unfold total_entry. simpl.
  destruct (String.eqb (fst cs) label_col); [reflexivity|].
  destruct (is_placeholder (fst cs)); reflexivity.
Qed.

Lemma add_grand_total_none (l : DataFrame) :
  fold_left
    (fun totals cs =>
       match totals with
       | None => None
       | Some t =>
           let col := fst cs in
           if String.eqb col label_col
           then Some (lookup_assign col (Str label) t)
           else if is_placeholder col
                then Some (lookup_assign col (Num NaN) t)
                else option_map (fun v => lookup_assign col v t)
                       (series_sum (snd cs))
       end) l None = None.
Proof. induction l as [|cs l IH]; [reflexivity|exact IH]. Qed.

Lemma add_grand_total_fold (l : DataFrame) :
  forall t : list (string * cell),
    NoDup (map fst l) ->
    (forall c, In c (map fst l) -> lookup c t = None) ->
    match fold_left
            (fun totals cs =>
               match totals with
               | None => None
               | Some t =>
                   let col := fst cs in
                   if String.eqb col label_col
                   then Some (lookup_assign col (Str label) t)
                   else if is_placeholder col
                        then Some (lookup_assign col (Num NaN) t)
                        else option_map (fun v => lookup_assign col v t)
                               (series_sum (snd cs))
               end) l (Some t) with
    | None => exists cs, In cs l /\ total_entry label_col label cs = None
    | Some t' =>
        exists vs,
          Forall2 (fun cs v => total_entry label_col label cs = Some v) l vs /\
          t' = t ++ combine (map fst l) vs
    end.
Proof.
  induction l as [|cs l IH]; intros t Hnd Hnew.
  - simpl. exists []. split; [constructor|now rewrite app_nil_r].
  - cbn [fold_left]. rewrite add_grand_total_step.
    inversion Hnd as [|c l' Hc Hnd']; subst.
    destruct (total_entry label_col label cs) as [v|] eqn:E.
    + cbn [option_map].
      rewrite lookup_assign_new by (apply Hnew; now left).
      specialize (IH (t ++ [(fst cs, v)]) Hnd').
      match type of IH with
      | ?P -> _ => assert (Hp : P)
      end.
      { intros c Hin. rewrite lookup_app.
        rewrite (Hnew c) by now right. simpl.
        destruct (String.eqb_spec c (fst cs)) as [->|]; [|reflexivity].
        contradiction. }
      specialize (IH Hp).
      match goal with
      | |- match ?F with _ => _ end => destruct F as [t'|]
      end.
      * destruct IH as (vs & Hvs & ->). exists (v :: vs). split.
        -- now constructor.
        -- simpl. now rewrite <- app_assoc.
      * destruct IH as [cs' [Hin Hn]]. exists cs'. split; [now right|exact Hn].
    + cbn [option_map]. rewrite add_grand_total_none.
      exists cs. split; [now left|exact E].
Qed.

Lemma lookup_combine (l : DataFrame) (vs : list cell) :
  Forall2 (fun cs v => total_entry label_col label cs = Some v) l vs ->
  NoDup (map fst l) ->
  map fst (combine (map fst l) vs) = map fst l /\
  forall cs, In cs l ->
             lookup (fst cs) (combine (map fst l) vs)
             = total_entry label_col label cs.
Proof.
  induction 1 as [|cs v l vs Hv Hrest IH]; intro Hnd.
  - split; [reflexivity|intros cs []].
  - inversion Hnd as [|c l' Hc Hnd']; subst.
    destruct (IH Hnd') as [Hk Hl]. split; [simpl; now rewrite Hk|].
    intros cs' [<-|Hin]; simpl.
    + now rewrite String.eqb_refl.
    + destruct (String.eqb_spec (fst cs') (fst cs)) as [E|_].
      * exfalso. apply Hc. rewrite <- E. now apply in_map.
      * now apply Hl.
Qed.

Lemma total_entry_none (cs : string * Series) :
  total_entry label_col label cs = None <->
  fst cs <> label_col /\ is_placeholder (fst cs) = false /\
  series_sum (snd cs) = None.
Proof.
  unfold total_entry. destruct (String.eqb_spec (fst cs) label_col) as [E|E].
  - split; [discriminate|]. intros [H _]. contradiction.
  - destruct (is_placeholder (fst cs)).
    + split; [discriminate|]. intros (_ & H & _). discriminate.
    + tauto.
Qed.

End TotalsDict.

(** The helper [add_grand_total] on a summary with distinct column names.
    When it returns, the dict has one entry per column, in the order of the
    columns: the label under the label column, NaN under a column whose
    name matches the placeholder test, the sum of the column otherwise.  It
    raises exactly when a column that is to be summed mixes text and
    numbers. *)
Theorem add_grand_total_entries (summary_df : DataFrame)
  (label_col label : string) :
  NoDup (map fst summary_df) ->
  match add_grand_total summary_df label_col label with
  | None =>
      exists c s, In (c, s) summary_df /\ c <> label_col /\
                  is_placeholder c = false /\ series_sum s = None
  | Some totals =>
      map fst totals = map fst summary_df /\
      forall c s, In (c, s) summary_df ->
        lookup c totals
        = if String.eqb c label_col then Some (Str label)
          else if is_placeholder c then Some (Num NaN)
          else series_sum s
  end.
Proof.
  intro Hnd. unfold add_grand_total.
  pose proof (add_grand_total_fold label_col label summary_df [] Hnd
                (fun c _ => eq_refl)) as H.
  match goal with
  | |- match ?F with _ => _ end => destruct F as [totals|]
  end.
  - destruct H as (vs & Hvs & ->). simpl.
    destruct (lookup_combine label_col label summary_df vs Hvs Hnd) as [Hk Hl].
    split; [exact Hk|]. intros c s Hin. exact (Hl (c, s) Hin).
  - destruct H as [[c s] [Hin Hn]]. apply total_entry_none in Hn.
    exists c, s. split; [exact Hin|exact Hn].
Qed.

(** At the summary with a ratio column. *)
Lemma add_grand_total_entries_witness :
  match add_grand_total ratio_summary "Account Status" "Grand Total" with
  | None =>
      exists c s, In (c, s) ratio_summary /\ c <> "Account Status" /\
                  is_placeholder c = false /\ series_sum s = None
  | Some totals =>
      map fst totals = map fst ratio_summary /\
      forall c s, In (c, s) ratio_summary ->
        lookup c totals
        = if String.eqb c "Account Status" then Some (Str "Grand Total")
          else if is_placeholder c then Some (Num NaN)
          else series_sum s
  end.
Proof.
  apply (add_grand_total_entries ratio_summary "Account Status" "Grand Total").
  repeat constructor; simpl; intuition discriminate.
Defined.

(* ================================================================= *)
(** ** The size of the slide tables *)

Section Sizing.

Lemma min2_le_r (a b : Q) : min2 a b <= b.
Proof.
  unfold min2. destruct (Qltb b a) eqn:E; [apply Qle_refl|].
  now apply Qltb_ge in E.
Qed.

Lemma min2_pos (a b : Q) : 0 < a -> 0 < b -> 0 < min2 a b.
Proof. unfold min2. destruct (Qltb b a); auto. Qed.

Lemma of_int_le (n m : nat) : (n <= m)%nat <-> of_int n <= of_int m.
Proof. unfold of_int. rewrite <- Zle_Qle. lia. Qed.

Lemma of_int_S (n : nat) : of_int (S n) == of_int n + 1.
Proof.
  unfold of_int. rewrite Nat2Z.inj_succ, <- Z.add_1_r, inject_Z_plus.
  reflexivity.
Qed.

Lemma of_int_pos (n : nat) : 1 <= of_int (S n).
Proof. apply (of_int_le 1 (S n)). lia. Qed.

Lemma height_value (n : nat) :
  min2 ((28 # 100) * of_int n + (3 # 10)) (55 # 10)
  == if (n <=? 18)%nat then (28 # 100) * of_int n + (3 # 10) else 55 # 10.
Proof.
  unfold min2. destruct (Nat.leb_spec n 18) as [H|H].
  - apply of_int_le in H. change (of_int 18) with 18 in H.
    destruct (Qltb (55 # 10) ((28 # 100) * of_int n + (3 # 10))) eqn:E;
      [|reflexivity].
    apply Qltb_lt in E. lra.
  - assert (H' : (19 <= n)%nat) by lia.
    apply of_int_le in H'. change (of_int 19) with 19 in H'.
    destruct (Qltb (55 # 10) ((28 # 100) * of_int n + (3 # 10))) eqn:E;
      [reflexivity|].
    apply Qltb_ge in E. lra.
Qed.

Lemma width_value (n : nat) :
  (0 < n)%nat ->
  min2 (min2 (9 / of_int n) (15 # 10) * of_int n + (5 # 10)) (95 # 10)
  == if (n <=? 6)%nat then (15 # 10) * of_int n + (5 # 10) else 95 # 10.
Proof.
  intro Hn. destruct n as [|n]; [lia|].
  pose proof (of_int_pos n) as Hx.
  assert (Hdiv : 9 / of_int (S n) * of_int (S n) == 9).
  { field. lra. }
  set (x := of_int (S n)) in *.
  assert (Hcol : min2 (9 / x) (15 # 10) * x
                 == if (S n <=? 6)%nat then (15 # 10) * x else 9).
  { unfold min2. destruct (Nat.leb_spec (S n) 6) as [H|H].
    - apply of_int_le in H. change (of_int 6) with 6 in H. fold x in H.
      destruct (Qltb (15 # 10) (9 / x)) eqn:E; [reflexivity|].
      apply Qltb_ge in E.
      assert (9 / x * x <= (15 # 10) * x) by (apply Qmult_le_compat_r; lra).
      lra.
    - assert (H' : (7 <= S n)%nat) by lia.
      apply of_int_le in H'. change (of_int 7) with 7 in H'. fold x in H'.
      destruct (Qltb (15 # 10) (9 / x)) eqn:E; [|exact Hdiv].
      apply Qltb_lt in E.
      assert ((15 # 10) * x < 9 / x * x) by (apply Qmult_lt_compat_r; lra).
      lra. }
  unfold min2 at 1.
  destruct (Nat.leb_spec (S n) 6) as [H|H].
  - apply of_int_le in H. change (of_int 6) with 6 in H. fold x in H.
    destruct (Qltb (95 # 10) (min2 (9 / x) (15 # 10) * x + (5 # 10))) eqn:E.
    + apply Qltb_lt in E. lra.
    + lra.
  - destruct (Qltb (95 # 10) (min2 (9 / x) (15 # 10) * x + (5 # 10))) eqn:E.
    + reflexivity.
    + lra.
Qed.

End Sizing.

(** The sizing of [add_slide_with_table].  A frame without columns makes
    [9.0 / n_cols] raise ZeroDivisionError, and no other frame does.
    Otherwise the table has one row more than the frame; its height is
    0.28 in per row plus 0.3 in up to 18 rows and 5.5 in beyond; its width
    is 1.5 in per column plus 0.5 in up to 6 columns and 9.5 in beyond; so
    the table, placed at (0.3 in, 1.2 in), ends within 9.8 in by 6.7 in, on
    a slide of 10 in by 7.5 in. *)
Theorem slide_table_fits (data_df : DataFrame) :
  (add_slide_with_table data_df = inl ZeroDivisionError <-> data_df = []) /\
  forall box,
    add_slide_with_table data_df = inr box ->
    n_rows box = S (nrows data_df) /\ n_cols box = List.length data_df /\
    table_height box
    == (if (n_rows box <=? 18)%nat
        then (28 # 100) * of_int (n_rows box) + (3 # 10) else 55 # 10) /\
    table_width box
    == (if (n_cols box <=? 6)%nat
        then (15 # 10) * of_int (n_cols box) + (5 # 10) else 95 # 10) /\
    0 < table_height box /\ box_top box + table_height box <= 67 # 10 /\
    0 < table_width box /\ box_left box + table_width box <= 98 # 10.
Proof.
  unfold add_slide_with_table, shape. cbn [fst snd]. split.
  - destruct data_df as [|cs rest]; simpl; [tauto|].
    split; discriminate.
  - intros box H.
    destruct (Nat.eqb_spec (List.length data_df) 0) as [E|E]; [discriminate|].
    injection H as <-. cbn [n_rows n_cols table_height table_width box_left
                             box_top].
    assert (Hn : (0 < List.length data_df)%nat) by lia.
    split; [reflexivity|]. split; [reflexivity|].
    split; [apply height_value|]. split; [now apply width_value|].
    pose proof (of_int_pos (nrows data_df)) as Hr.
    destruct (List.length data_df) as [|m] eqn:El; [lia|].
    pose proof (of_int_pos m) as Hc.
    repeat split.
    + apply min2_pos; lra.
    + pose proof (min2_le_r ((28 # 100) * of_int (S (nrows data_df)) + (3 # 10))
                    (55 # 10)). lra.
    + apply min2_pos; [|lra].
      assert (0 < min2 (9 / of_int (S m)) (15 # 10)).
      { apply min2_pos; [|lra]. apply Qlt_shift_div_l; lra. }
      assert (0 < min2 (9 / of_int (S m)) (15 # 10) * of_int (S m)).
      { apply Qmult_lt_0_compat; lra. }
      lra.
    + pose proof (min2_le_r
                    (min2 (9 / of_int (S m)) (15 # 10) * of_int (S m) + (5 # 10))
                    (95 # 10)). lra.
Qed.

(** At a summary of two rows and four columns. *)
Lemma slide_table_fits_witness :
  exists box,
    add_slide_with_table ratio_summary = inr box /\
    n_rows box = 3%nat /\ n_cols box = 4%nat /\
    table_height box == 114 # 100 /\ table_width box == 65 # 10.
Proof.
  eexists. split; [reflexivity|].
  destruct (proj2 (slide_table_fits ratio_summary) _ eq_refl)
    as (Hr & Hc & Hh & Hw & _).
  split; [exact Hr|]. split; [exact Hc|]. split.
  - rewrite Hh. reflexivity.
  - rewrite Hw. reflexivity.
Defined.

Section ReportShapes.

Lemma two_columns (c1 c2 : string) (T : DataFrame) :
  has_col c1 T = true -> has_col c2 T = true -> c1 <> c2 ->
  (2 <= List.length T)%nat.
Proof.
  unfold has_col. destruct T as [|[a s] [|bs rest]]; simpl; try discriminate.
  - destruct (String.eqb_spec c1 a), (String.eqb_spec c2 a);
      try discriminate; congruence.
  - intros. lia.
Qed.

Lemma length_fold_round (l : list string) :
  forall X : DataFrame,
    List.length (fold_left (fun t c => round_col c 0 t) l X) = List.length X.
Proof.
  induction l as [|c l IH]; intro X; [reflexivity|]. simpl. rewrite IH.
  unfold round_col. apply length_map.
Qed.

Lemma pivot_table_columns (df : list Row) :
  (3 <= List.length (pivot_table df))%nat.
Proof.
  destruct (pivot_table_sorted df) as [P [-> _]].
  unfold take. rewrite length_map. unfold pivot_with_index.
  cbn [List.length].
  unfold pivot_cleaned, round_col at 1. rewrite length_map, length_fold_round.
  unfold pivot_joined, concat_row. rewrite length_app, !length_map.
  assert (H : (2 <= List.length (pivot_with_opt_in df))%nat);
    [|apply le_n_S; eapply Nat.le_trans; [exact H|apply Nat.le_add_r]].
  apply (two_columns "# of Accounts" "Opt In %"); [| |discriminate].
  - unfold has_col, pivot_with_opt_in, pivot_with_accounts.
    now rewrite !get_assign.
  - unfold has_col, pivot_with_opt_in. now rewrite get_assign.
Qed.

End ReportShapes.



(* ================================================================= *)
(** ** Bold rows *)

Section BoldRows.

Lemma nsf_label_plain (code : nat) :
  bold_row (Str (bin_label NSF_LABELS code)) = false.
Proof. do 8 (destruct code as [|code]; [reflexivity|]). reflexivity. Qed.

Lemma dep_label_plain (code : nat) :
  bold_row (Str (bin_label DEP_LABELS code)) = false.
Proof. do 7 (destruct code as [|code]; [reflexivity|]). reflexivity. Qed.

Lemma year_bin_plain (yo : option Z) :
  bold_row (Str (assign_year_bin yo)) = false.
Proof.
  destruct yo as [y|]; [|reflexivity]. unfold assign_year_bin.
  destruct (Z.ltb_spec y 2010); [reflexivity|].
  destruct (Z.leb_spec y 2025); [|reflexivity].
  assert (Hy : exists i, (i < 16)%nat /\ y = (2010 + Z.of_nat i)%Z).
  { exists (Z.to_nat (y - 2010)). split; lia. }
  destruct Hy as [i [Hi ->]].
  do 16 (destruct i as [|i]; [reflexivity|]). lia.
Qed.

Lemma labels_plain (labels : list string) (codes : list nat) (c : cell) :
  (forall code, bold_row (Str (bin_label labels code)) = false) ->
  In c (strs (map (bin_label labels) codes)) -> bold_row c = false.
Proof.
  intros H Hin. unfold strs in Hin. rewrite map_map in Hin.
  apply in_map_iff in Hin as [code [<- _]]. apply H.
Qed.

Lemma pivot_labels_plain (df : list Row) (c : cell) :
  In c (removelast (label_column (pivot_table df))) -> bold_row c = false.
Proof.
  destruct (pivot_table_sorted df) as [P [-> HP]].
  unfold pivot_with_index, take. simpl.
  rewrite map_app. cbn [map]. rewrite removelast_last.
  intro Hin. apply in_map_iff in Hin as [i [<- Hi]].
  apply perm_seq_bound in HP. rewrite Forall_forall in HP.
  specialize (HP i Hi).
  unfold strs. rewrite map_app. rewrite app_nth1 by now rewrite length_map.
  rewrite (nth_indep _ (Num NaN) (Str "")) by now rewrite length_map.
  rewrite (map_nth Str).
  destruct (pivot_index_year_bin df (nth i (pivot_index df) ""))
    as [r ->]; [now apply nth_In|].
  apply year_bin_plain.
Qed.

End BoldRows.



(* ================================================================= *)
(** ** Thousands separators *)

Section Thousands.


Lemma uint_no_comma (d : Decimal.uint) :
  Forall (fun c => Ascii.eqb c "," = false)
    (list_ascii_of_string (NilEmpty.string_of_uint d)).
Proof.
  induction d; simpl; constructor; try reflexivity; assumption.
Qed.

Lemma str_no_comma (z : Z) :
  Forall (fun c => Ascii.eqb c "," = false)
    (list_ascii_of_string (str (Z.abs z))).
Proof.
  unfold str.
  assert (H : forall d, Forall (fun c => Ascii.eqb c "," = false)
                (list_ascii_of_string (NilZero.string_of_uint d))).
  { intro d. destruct d; try apply uint_no_comma.
    simpl. constructor; [reflexivity|constructor]. }
  destruct z as [|p|p];
    [repeat constructor|apply (H (Pos.to_uint p))|apply (H (Pos.to_uint p))].
Qed.

Lemma str_sign (z : Z) :
  (z < 0)%Z -> str z = String "-" (str (Z.abs z)).
Proof. destruct z as [|p|p]; intro H; try lia. reflexivity. Qed.

Lemma group3_filter (n : nat) :
  forall l : list ascii,
    (List.length l <= n)%nat ->
    filter (fun c => negb (Ascii.eqb c ",")) (group3 l)
    = filter (fun c => negb (Ascii.eqb c ",")) l.
Proof.
  induction n as [|n IH]; intros l Hl.
  - destruct l; [reflexivity|simpl in Hl; lia].
  - destruct l as [|a [|b [|c [|d rest]]]]; try reflexivity.
    change (group3 (a :: b :: c :: d :: rest))
      with (a :: b :: c :: ","%char :: group3 (d :: rest)).
    cbn [filter]. change (negb (Ascii.eqb "," ",")) with false. cbv iota.
    rewrite (IH (d :: rest)) by (simpl in *; lia). reflexivity.
Qed.

Lemma filter_all {X} (p : X -> bool) (l : list X) :
  Forall (fun x => p x = true) l -> filter p l = l.
Proof.
  induction 1 as [|x l Hx _ IH]; [reflexivity|]. simpl. now rewrite Hx, IH.
Qed.

Lemma strip_grouped (l : list ascii) :
  Forall (fun c => Ascii.eqb c "," = false) l ->
  filter (fun c => negb (Ascii.eqb c ",")) (rev (group3 (rev l))) = l.
Proof.
  intro H. rewrite filter_rev, (group3_filter (List.length (rev l))) by lia.
  rewrite <- filter_rev, rev_involutive. apply filter_all.
  eapply Forall_impl; [|exact H]. intros c Hc. simpl. now rewrite Hc.
Qed.

Lemma group3_places (n : nat) :
  forall (l : list ascii) (i : nat),
    (List.length l <= n)%nat ->
    Forall (fun c => Ascii.eqb c "," = false) l ->
    (i < List.length (group3 l))%nat ->
    (nth_error (group3 l) i = Some ","%char <-> i mod 4 = 3)%nat.
Proof.
  induction n as [|n IH]; intros l i Hl Hd Hi.
  - destruct l; simpl in *; lia.
  - destruct l as [|a [|b [|c [|d rest]]]].
    + simpl in Hi. lia.
    + simpl in Hi. assert (i = 0)%nat by lia. subst. simpl.
      inversion Hd; subst. split; [|discriminate].
      intros [= ->]. discriminate.
    + simpl in Hi. inversion Hd as [|? ? Ha Hd']; subst.
      inversion Hd' as [|? ? Hb _]; subst.
      destruct i as [|[|i]]; simpl; try lia;
        (split; [intros [= ->]; discriminate|discriminate]).
    + simpl in Hi. inversion Hd as [|? ? Ha Hd']; subst.
      inversion Hd' as [|? ? Hb Hd'']; subst.
      inversion Hd'' as [|? ? Hc _]; subst.
      destruct i as [|[|[|i]]]; simpl; try lia;
        (split; [intros [= ->]; discriminate|discriminate]).
    + change (group3 (a :: b :: c :: d :: rest))
        with (a :: b :: c :: ","%char :: group3 (d :: rest)) in *.
      inversion Hd as [|? ? Ha Hd']; subst.
      inversion Hd' as [|? ? Hb Hd'']; subst.
      inversion Hd'' as [|? ? Hc Hd3]; subst.
      destruct i as [|[|[|[|i]]]].
      * simpl. split; [intros [= ->]; discriminate|discriminate].
      * simpl. split; [intros [= ->]; discriminate|discriminate].
      * simpl. split; [intros [= ->]; discriminate|discriminate].
      * simpl. split; reflexivity.
      * cbn [nth_error].
        replace (S (S (S (S i))) mod 4)%nat with (i mod 4)%nat.
        -- apply IH; [simpl in *; lia|exact Hd3|].
           cbn [List.length] in Hi. lia.
        -- change (S (S (S (S i)))) with (4 + i)%nat.
           rewrite <- (Nat.Div0.add_mod_idemp_l 4 i 4). reflexivity.
Qed.

End Thousands.

(** [f"{val:,}"] on an integer.  Without its commas the text is [str(val)];
    the text of a negative number is a minus sign before the text of its
    absolute value; and in the text of a number that is not negative,
    counted from the right, every fourth character is a comma and no other
    is. *)
Theorem thousands_groups_digits (val : Z) :
  strip_commas (thousands val) = str val /\
  ((val < 0)%Z -> thousands val = String "-" (thousands (- val))) /\
  ((0 <= val)%Z ->
   forall i c, from_right (thousands val) i = Some c ->
               (c = ","%char <-> i mod 4 = 3)%nat).
Proof.
  pose proof (str_no_comma val) as Hd.
  split; [|split].
  - unfold strip_commas, thousands.
    destruct (Z.ltb_spec val 0) as [H|H].
    + cbn [list_ascii_of_string filter].
      change (negb (Ascii.eqb "-" ",")) with true. cbv iota.
      rewrite list_ascii_of_string_of_list_ascii, (strip_grouped _ Hd).
      cbn [string_of_list_ascii].
      rewrite string_of_list_ascii_of_string. symmetry. now apply str_sign.
    + rewrite list_ascii_of_string_of_list_ascii, (strip_grouped _ Hd).
      rewrite string_of_list_ascii_of_string. now rewrite Z.abs_eq.
  - intro H. unfold thousands.
    destruct (Z.ltb_spec val 0) as [_|H']; [|lia].
    destruct (Z.ltb_spec (- val) 0) as [H'|_]; [lia|].
    now rewrite Z.abs_opp.
  - intros H i c Hc. unfold from_right, thousands in Hc.
    destruct (Z.ltb_spec val 0) as [H'|_]; [lia|].
    rewrite list_ascii_of_string_of_list_ascii, rev_involutive in Hc.
    assert (Hi : (i < List.length
                        (group3 (rev (list_ascii_of_string (str (Z.abs val))))))%nat).
    { apply nth_error_Some. congruence. }
    pose proof (group3_places _ _ i (Nat.le_refl _)
                  (Forall_rev Hd) Hi) as Hp.
    rewrite Hc in Hp. rewrite <- Hp. split; congruence.
Qed.

(** At 1234567 and -1000. *)
Lemma thousands_groups_digits_witness :
  thousands 1234567 = "1,234,567" /\
  strip_commas (thousands 1234567) = "1234567" /\
  thousands (-1000) = "-1,000" /\
  (forall i c, from_right (thousands 1234567) i = Some c ->
               (c = ","%char <-> i mod 4 = 3)%nat).
Proof.
  split; [reflexivity|]. split.
  - exact (proj1 (thousands_groups_digits 1234567)).
  - split.
    + exact (proj1 (proj2 (thousands_groups_digits (-1000))) eq_refl).
    + apply (proj2 (proj2 (thousands_groups_digits 1234567))). discriminate.
Defined.

(* ================================================================= *)
(** ** The order of the year bins *)

Section SortedRows.

Lemma code_leb_trans (a b c : option nat) :
  code_leb a b = true -> code_leb b c = true -> code_leb a c = true.
Proof.
  destruct a, b, c; simpl; try discriminate; try reflexivity.
  rewrite !Nat.leb_le. lia.
Qed.

Lemma insert_by_In (x y : option nat * nat) (l : list (option nat * nat)) :
  In y (insert_by x l) -> y = x \/ In y l.
Proof.
  intro H. apply (Permutation_in _ (insert_by_perm x l)) in H.
  destruct H as [<-|H]; auto.
Qed.

Lemma insert_by_sorted (x : option nat * nat) (l : list (option nat * nat)) :
  StronglySorted (fun a b => code_leb (fst a) (fst b) = true) l ->
  StronglySorted (fun a b => code_leb (fst a) (fst b) = true) (insert_by x l).
Proof.
  induction 1 as [|y l Hs IH Hy]; simpl.
  - constructor; constructor.
  - destruct (code_leb (fst x) (fst y)) eqn:E.
    + constructor; [now constructor|]. constructor; [exact E|].
      eapply Forall_impl; [|exact Hy]. intros z Hz.
      eapply code_leb_trans; eauto.
    + constructor; [exact IH|]. apply Forall_forall. intros z Hz.
      apply insert_by_In in Hz as [->|Hz].
      * now apply code_lt_leb.
      * rewrite Forall_forall in Hy. now apply Hy.
Qed.

Lemma isort_sorted (l : list (option nat * nat)) :
  StronglySorted (fun a b => code_leb (fst a) (fst b) = true)
    (fold_right insert_by [] l).
Proof.
  induction l as [|x l IH]; simpl; [constructor|].
  now apply insert_by_sorted.
Qed.

Lemma combine_seq_nth {X} (l : list X) :
  forall (k i : nat) (c : X),
    In (c, i) (combine l (seq k (List.length l))) ->
    (k <= i)%nat /\ nth_error l (i - k) = Some c.
Proof.
  induction l as [|x l IH]; intros k i c H; [destruct H|].
  simpl in H. destruct H as [[= -> ->]|H].
  - split; [lia|]. now rewrite Nat.sub_diag.
  - apply IH in H as [Hk Hn]. split; [lia|].
    replace (i - k)%nat with (S (i - S k)) by lia. exact Hn.
Qed.

Lemma argsort_snoc_eq (codes : list (option nat)) (g : option nat) :
  Forall (fun c => code_lt c g) codes ->
  argsort (codes ++ [g]) = argsort codes ++ [List.length codes].
Proof.
  intro H. unfold argsort.
  rewrite length_app. simpl List.length. rewrite Nat.add_1_r.
  rewrite seq_S. simpl.
  rewrite combine_snoc by (now rewrite length_seq).
  rewrite isort_snoc.
  - now rewrite map_app.
  - apply Forall_forall. intros [c i] Hin. simpl.
    apply in_combine_l in Hin. rewrite Forall_forall in H. now apply H.
Qed.

Lemma argsort_perm (codes : list (option nat)) :
  Permutation (argsort codes) (seq 0 (List.length codes)).
Proof.
  unfold argsort. rewrite isort_perm.
  now rewrite map_snd_combine by (now rewrite length_seq).
Qed.

Lemma index_of_inj (l : list string) (a b : string) (i : nat) :
  index_of a l = Some i -> index_of b l = Some i -> a = b.
Proof.
  revert i. induction l as [|x l IH]; intros i Ha Hb; [discriminate|].
  simpl in Ha, Hb.
  destruct (String.eqb_spec a x) as [->|Hax];
    destruct (String.eqb_spec b x) as [->|Hbx]; try reflexivity.
  - destruct (index_of b l); simpl in Hb; [|discriminate].
    injection Ha as <-. discriminate.
  - destruct (index_of a l); simpl in Ha; [|discriminate].
    injection Hb as <-. discriminate.
  - destruct (index_of a l) as [ia|] eqn:Ea; [|discriminate].
    destruct (index_of b l) as [ib|] eqn:Eb; [|discriminate].
    simpl in Ha, Hb. apply (IH ia); [reflexivity|].
    f_equal. congruence.
Qed.

Lemma sorted_map_strict {X Y} (R : X -> X -> Prop) (R' : Y -> Y -> Prop)
  (h : X -> Y) (l : list X) :
  StronglySorted R l -> NoDup (map h l) ->
  (forall x y, In x l -> In y l -> R x y -> h x <> h y -> R' (h x) (h y)) ->
  StronglySorted R' (map h l).
Proof.
  induction 1 as [|x l Hs IH Hx]; intros Hnd Hr; simpl; [constructor|].
  inversion Hnd as [|? ? Hnin Hnd']; subst.
  constructor.
  - apply IH; [exact Hnd'|]. intros a b Ha Hb. apply Hr; now right.
  - apply Forall_forall. intros y Hy.
    apply in_map_iff in Hy as [z [<- Hz]].
    apply Hr; [now left|now right| |].
    + rewrite Forall_forall in Hx. now apply Hx.
    + intro E. apply Hnin. rewrite E. now apply in_map.
Qed.

Lemma pivot_index_members (df : list Row) (y : string) :
  In y (pivot_index df) <-> exists r, In r (p_hist df) /\ year_bin r = y.
Proof.
  unfold pivot_index.
  rewrite (unique_sorted_In String.compare string_cmp_eq). split.
  - intro H. apply in_map_iff in H as [[[y0 f] rs] [Hy Hin]].
    simpl in Hy. subst y0.
    assert (Hk : In (y, f) (keys (pivot_raw df))).
    { unfold keys. apply in_map_iff. exists ((y, f), rs). auto. }
    apply pivot_raw_keys in Hk as [r [Hr [Hy _]]]. eauto.
  - intros [r [Hr Hy]].
    assert (Hk : In (y, Reg_E_Flag r) (keys (pivot_raw df))).
    { apply pivot_raw_keys. eauto. }
    unfold keys in Hk. apply in_map_iff in Hk as [kg [Hk Hin]].
    apply in_map_iff. exists kg. split; [now rewrite Hk|exact Hin].
Qed.

Lemma pivot_index_nodup (df : list Row) : NoDup (pivot_index df).
Proof.
  unfold pivot_index, unique_sorted.
  apply (sorted_nodup String.compare string_cmp_eq).
  apply (groupby_sorted String.compare string_cmp_eq string_cmp_trans
           String.compare_antisym).
Qed.

Lemma year_bin_known (y : Z) : assign_year_bin (Some y) <> "Unknown".
Proof.
  unfold assign_year_bin.
  destruct (Z.ltb_spec y 2010); [discriminate|].
  destruct (Z.leb_spec y 2025); [|discriminate].
  assert (Hy : exists i, (i < 16)%nat /\ y = (2010 + Z.of_nat i)%Z).
  { exists (Z.to_nat (y - 2010)). split; lia. }
  destruct Hy as [i [Hi ->]].
  do 16 (destruct i as [|i]; [discriminate|]). lia.
Qed.

End SortedRows.


(* ================================================================= *)
(** ** Weighted means and numeric keys *)

Section WeightedMeans.

Context {K : Type} (cmp : K -> K -> comparison).

Lemma qcount_nonzero {A} (l : list A) : l <> [] -> 0 < qcount l.
Proof. destruct l as [|x l]; [congruence|]. intros _. apply qcount_pos. Qed.

Lemma agg_mean_Fin (f : Row -> Q) (g : list (K * list Row)) :
  Forall (fun kg => snd kg <> []) g ->
  agg_mean (fun r => Fin (f r)) g
  = map Fin (map (fun kg => qsum f (snd kg) / qcount (snd kg)) g).
Proof.
  intro H. unfold agg_mean. rewrite map_map. apply map_ext_in.
  intros kg Hin. rewrite Forall_forall in H. specialize (H kg Hin).
  rewrite mean_population. unfold population_mean.
  destruct (snd kg); [congruence|reflexivity].
Qed.

Lemma qsum_combine_maps {A} (a b : A -> Q) (l : list A) :
  qsum (fun p => fst p * snd p) (combine (map a l) (map b l))
  == qsum (fun x => a x * b x) l.
Proof.
  induction l as [|x l IH]; [reflexivity|]. simpl. now rewrite IH.
Qed.

Lemma qsum_map {A B} (h : A -> B) (f : B -> Q) (l : list A) :
  qsum f (map h l) == qsum (fun x => f (h x)) l.
Proof.
  induction l as [|x l IH]; [reflexivity|]. simpl. now rewrite IH.
Qed.

Lemma weighted_mean_groups (key : Row -> option K) (f : Row -> Q)
  (rows : list Row) :
  rows <> [] -> (forall r, In r rows -> has_key key r = true) ->
  qsum f rows / qcount rows
  == weighted_mean
       (map (fun kg => qcount (snd kg)) (groupby cmp key rows))
       (map (fun kg => qsum f (snd kg) / qcount (snd kg))
          (groupby cmp key rows)).
Proof.
  intros Hne Hkey. unfold weighted_mean.
  rewrite qsum_combine_maps, qsum_map.
  assert (Hnum : qsum (fun kg : K * list Row =>
                         qcount (snd kg) * (qsum f (snd kg) / qcount (snd kg)))
                   (groupby cmp key rows) == qsum f rows).
  { rewrite (qsum_ext _ (fun kg => qsum f (snd kg))).
    - fold (gsum f (groupby cmp key rows)). rewrite gsum_groupby.
      now rewrite (qsum_filter_all f (has_key key) rows Hkey).
    - intros kg Hin.
      pose proof (groupby_nonempty cmp key rows) as Hg.
      rewrite Forall_forall in Hg. specialize (Hg kg Hin).
      apply qcount_nonzero in Hg. field. lra. }
  assert (Hden : qsum (fun kg : K * list Row => qcount (snd kg))
                   (groupby cmp key rows) == qcount rows).
  { rewrite gsum_ones, gsum_groupby, qsum_ones.
    now rewrite (qsum_filter_all (fun _ => 0) (has_key key) rows Hkey). }
  rewrite Hnum, Hden. reflexivity.
Qed.

End WeightedMeans.

Ltac weighted cmp key f rows Hne Hkey :=
  unfold total_is_weighted_mean;
  exists (map (fun kg => qcount (snd kg)) (groupby cmp key rows)),
         (map (fun kg => qsum f (snd kg) / qcount (snd kg))
            (groupby cmp key rows)),
         (qsum f rows / qcount rows);
  split; [table_simpl; rewrite agg_count_Fin; reflexivity|];
  split; [table_simpl;
          unfold deposit_amount, deposit_count, swipes, of_Z;
          rewrite (agg_mean_Fin f) by apply groupby_nonempty;
          reflexivity|];
  split; [table_simpl;
          unfold deposit_amount, deposit_count, swipes, of_Z;
          rewrite (mean_population f); unfold population_mean;
          destruct rows eqn:?; [congruence|reflexivity]|];
  apply (weighted_mean_groups cmp key f rows Hne Hkey).

(** Where every account of the subset falls in a group and the averages
    are not rounded, the grand-total average is the mean of the group
    averages weighted by the group counts: in the OD limit table for its
    three averages, and in the deposit distribution when no deposit count is
    negative. *)
Theorem total_average_is_weighted_mean (df : list Row) (mask : Row -> bool) :
  (filter PERSONAL_OPEN df <> [] ->
   total_is_weighted_mean (od_limit_summary df)
     "# of Accounts" "Avg # Dep/Month" /\
   total_is_weighted_mean (od_limit_summary df)
     "# of Accounts" "Avg $$ Dep/Month" /\
   total_is_weighted_mean (od_limit_summary df)
     "# of Accounts" "Average of Swipes") /\
  (filter mask df <> [] ->
   Forall (fun r => (0 <= Deposit_Count r)%Z) df ->
   total_is_weighted_mean (deposit_summary mask df)
     "Accounts" "Avg $$ Deposits" /\
   total_is_weighted_mean (deposit_summary mask df)
     "Accounts" "Avg # Deposits").
Proof.
  split.
  - intro Hne.
    assert (Hkey : forall r, In r (filter PERSONAL_OPEN df) ->
                     has_key (fun r => Some (OD_Limit r)) r = true)
      by reflexivity.
    repeat split.
    + weighted Qcompare (fun r : Row => Some (OD_Limit r)) Deposit_Count_Q
        (filter PERSONAL_OPEN df) Hne Hkey.
    + weighted Qcompare (fun r : Row => Some (OD_Limit r)) Deposit_Amount
        (filter PERSONAL_OPEN df) Hne Hkey.
    + weighted Qcompare (fun r : Row => Some (OD_Limit r)) Swipes
        (filter PERSONAL_OPEN df) Hne Hkey.
  - intros Hne Hdep.
    assert (Hkey : forall r, In r (filter mask df) ->
                     has_key (fun r => cut DEP_BINS (inject_Z (Deposit_Count r)))
                       r = true).
    { intros r Hr. rewrite has_key_dep_bin. apply filter_In in Hr as [Hr _].
      rewrite Forall_forall in Hdep. specialize (Hdep r Hr).
      apply Z.ltb_lt. lia. }
    split.
    + weighted Nat.compare
        (fun r : Row => cut DEP_BINS (inject_Z (Deposit_Count r)))
        Deposit_Amount (filter mask df) Hne Hkey.
    + weighted Nat.compare
        (fun r : Row => cut DEP_BINS (inject_Z (Deposit_Count r)))
        Deposit_Count_Q (filter mask df) Hne Hkey.
Qed.

(** At the accounts of scenario C. *)
Lemma total_average_is_weighted_mean_witness :
  total_is_weighted_mean (od_limit_summary scenario_C)
    "# of Accounts" "Average of Swipes" /\
  total_is_weighted_mean (deposit_summary PERSONAL_OPEN scenario_C)
    "Accounts" "Avg # Deposits".
Proof.
  split.
  - apply (proj1 (total_average_is_weighted_mean scenario_C PERSONAL_OPEN)).
    discriminate.
  - apply (proj2 (total_average_is_weighted_mean scenario_C PERSONAL_OPEN)).
    + discriminate.
    + repeat constructor; simpl; lia.
Defined.

Section OrderedKeys.

Context {A K : Type} (cmp : K -> K -> comparison).
Hypothesis cmp_refl : forall a, cmp a a = Eq.
Hypothesis cmp_trans :
  forall a b c, cmp a b = Lt -> cmp b c = Lt -> cmp a c = Lt.
Hypothesis cmp_gt : forall a b, cmp a b = Gt -> cmp b a = Lt.

Lemma add_row_keys_sorted (k : K) (r : A) (gs : list (K * list A)) :
  StronglySorted (key_lt cmp) (map fst gs) ->
  StronglySorted (key_lt cmp) (map fst (add_row cmp k r gs)).
Proof.
  induction gs as [|[k' rs] gs IH]; intro Hs; simpl.
  - constructor; constructor.
  - inversion Hs as [|? ? Hs' Hall]; subst.
    destruct (cmp k k') eqn:E; simpl.
    + now constructor.
    + constructor; [exact Hs|]. constructor; [exact E|].
      eapply Forall_impl; [|exact Hall]. intros x Hx.
      eapply cmp_trans; eauto.
    + constructor; [now apply IH|].
      apply Forall_forall. intros x Hx.
      apply add_row_keys_from in Hx as [->|Hx].
      * now apply cmp_gt.
      * rewrite Forall_forall in Hall. now apply Hall.
Qed.

Lemma groupby_keys_sorted (key : A -> option K) (rows : list A) :
  StronglySorted (key_lt cmp) (map fst (groupby cmp key rows)).
Proof.
  induction rows as [|r rows IH]; simpl; [constructor|].
  destruct (key r); [now apply add_row_keys_sorted|exact IH].
Qed.

Lemma add_row_keeps (k x : K) (r : A) (gs : list (K * list A)) :
  In x (map fst gs) -> In x (map fst (add_row cmp k r gs)).
Proof.
  induction gs as [|[k' rs] gs IH]; simpl; [tauto|].
  destruct (cmp k k'); simpl; intuition.
Qed.

Lemma add_row_files (k : K) (r : A) (gs : list (K * list A)) :
  exists k', In k' (map fst (add_row cmp k r gs)) /\ cmp k k' = Eq.
Proof.
  induction gs as [|[k' rs] gs IH]; simpl.
  - exists k. split; [now left|apply cmp_refl].
  - destruct (cmp k k') eqn:E; simpl.
    + exists k'. split; [now left|exact E].
    + exists k. split; [now left|apply cmp_refl].
    + destruct IH as [k0 [Hin H0]]. exists k0. split; [now right|exact H0].
Qed.

Lemma groupby_files (key : A -> option K) (rows : list A) (r : A) (k : K) :
  In r rows -> key r = Some k ->
  exists k', In k' (map fst (groupby cmp key rows)) /\ cmp k k' = Eq.
Proof.
  induction rows as [|r' rows IH]; intros Hin Hk; [destruct Hin|].
  simpl. destruct Hin as [->|Hin].
  - rewrite Hk. apply add_row_files.
  - destruct (IH Hin Hk) as [k' [Hin' Hk']].
    exists k'. split; [|exact Hk'].
    destruct (key r'); [now apply add_row_keeps|exact Hin'].
Qed.

End OrderedKeys.

(** The rows of the OD limit table are in increasing order of the limit
    as a number (the labels are made from the limits after the grouping),
    one row per limit of a personal open account. *)
Theorem od_limit_rows_in_numeric_order (df : list Row) :
  let personal := filter PERSONAL_OPEN df in
  exists limits,
    group_cells "OD Limit" (od_limit_summary df)
    = Some (strs (map int_str limits)) /\
    StronglySorted Qlt limits /\
    (forall q, In q limits -> exists r, In r personal /\ OD_Limit r = q) /\
    (forall r, In r personal -> exists q, In q limits /\ OD_Limit r == q).
Proof.
  intro personal.
  exists (map fst (groupby Qcompare (fun r => Some (OD_Limit r)) personal)).
  split; [table_simpl; reflexivity|]. split; [|split].
  - assert (H : StronglySorted (key_lt Qcompare)
                  (map fst (groupby Qcompare (fun r => Some (OD_Limit r))
                              personal))).
    { apply groupby_keys_sorted.
      - intros a b c Hab Hbc. apply Qlt_alt in Hab, Hbc. apply Qlt_alt.
        eapply Qlt_trans; eauto.
      - intros a b Hab. apply Qgt_alt in Hab. now apply Qlt_alt. }
    revert H. generalize (map fst (groupby Qcompare
                                     (fun r => Some (OD_Limit r)) personal)).
    induction 1 as [|q l Hs IH Hq]; constructor; [exact IH|].
    eapply Forall_impl; [|exact Hq]. intros x Hx. now apply Qlt_alt.
  - intros q Hq. apply groupby_keys_from in Hq as [r [Hr [= Hq]]]. eauto.
  - intros r Hr.
    destruct (groupby_files Qcompare (fun a => proj1 (Qeq_alt a a) (Qeq_refl a))
                (fun r => Some (OD_Limit r)) personal r (OD_Limit r) Hr
                eq_refl) as [q [Hq Hc]].
    exists q. split; [exact Hq|now apply Qeq_alt].
Qed.

(* ================================================================= *)
(** ** The cells of the historical table *)

Section PairKeys.

Lemma cmp_flag_trans (a b c : option string) :
  cmp_flag a b = Lt -> cmp_flag b c = Lt -> cmp_flag a c = Lt.
Proof.
  destruct a, b, c; simpl; try discriminate; try reflexivity.
  apply string_cmp_trans.
Qed.

Lemma cmp_flag_antisym (a b : option string) :
  cmp_flag a b = CompOpp (cmp_flag b a).
Proof.
  destruct a, b; simpl; try reflexivity. apply String.compare_antisym.
Qed.

Lemma cmp_pair_trans (a b c : string * option string) :
  cmp_pair a b = Lt -> cmp_pair b c = Lt -> cmp_pair a c = Lt.
Proof.
  destruct a as [a1 a2], b as [b1 b2], c as [c1 c2]. unfold cmp_pair. simpl.
  destruct (String.compare a1 b1) eqn:Eab; try discriminate;
    destruct (String.compare b1 c1) eqn:Ebc; try discriminate; intros H1 H2.
  - apply string_cmp_eq in Eab, Ebc. subst.
    rewrite (proj2 (string_cmp_eq c1 c1) eq_refl).
    eapply cmp_flag_trans; eauto.
  - apply string_cmp_eq in Eab. subst. now rewrite Ebc.
  - apply string_cmp_eq in Ebc. subst. now rewrite Eab.
  - now rewrite (string_cmp_trans _ _ _ Eab Ebc).
Qed.

Lemma cmp_pair_antisym (a b : string * option string) :
  cmp_pair a b = CompOpp (cmp_pair b a).
Proof.
  destruct a as [a1 a2], b as [b1 b2]. unfold cmp_pair. simpl.
  rewrite (String.compare_antisym b1 a1).
  destruct (String.compare a1 b1); simpl; try reflexivity.
  apply cmp_flag_antisym.
Qed.

Lemma rows_with_pair (df : list Row) (y f : string) :
  rows_with cmp_pair (fun r => Some (year_bin r, Reg_E_Flag r)) (y, Some f)
    (p_hist df)
  = filter (fun r => in_year_bin y r && carries f r) (p_hist df).
Proof.
  unfold rows_with. apply filter_ext. intro r.
  unfold in_year_bin, carries.
  destruct (cmp_pair (year_bin r, Reg_E_Flag r) (y, Some f)) eqn:E.
  - apply cmp_pair_eq in E. injection E as -> ->.
    now rewrite !String.eqb_refl.
  - destruct (String.eqb_spec (year_bin r) y) as [Hy|]; [|reflexivity].
    destruct (Reg_E_Flag r) as [f'|] eqn:Ef; [|reflexivity].
    destruct (String.eqb_spec f' f) as [Hf|]; [|reflexivity].
    subst. rewrite (proj2 (cmp_pair_eq _ _) eq_refl) in E. discriminate.
  - destruct (String.eqb_spec (year_bin r) y) as [Hy|]; [|reflexivity].
    destruct (Reg_E_Flag r) as [f'|] eqn:Ef; [|reflexivity].
    destruct (String.eqb_spec f' f) as [Hf|]; [|reflexivity].
    subst. rewrite (proj2 (cmp_pair_eq _ _) eq_refl) in E. discriminate.
Qed.

Lemma pivot_value_count (df : list Row) (y f : string) :
  fillna1 (pivot_value (pivot_raw df) y (Some f)) (Fin 0)
  = of_nat (hist_count df y f).
Proof.
  unfold pivot_value, hist_count.
  rewrite <- rows_with_pair.
  destruct (find _ (pivot_raw df)) as [kg|] eqn:E.
  - apply find_some in E as [Hin Hk].
    destruct (cmp_pair (fst kg) (y, Some f)) eqn:Ek; try discriminate.
    apply cmp_pair_eq in Ek.
    unfold pivot_raw in Hin.
    pose proof (groupby_group cmp_pair cmp_pair_eq cmp_pair_trans
                  cmp_pair_antisym _ _ kg Hin) as Hg.
    rewrite Ek in Hg. rewrite Hg. reflexivity.
  - simpl.
    assert (Hnone : rows_with cmp_pair
                      (fun r => Some (year_bin r, Reg_E_Flag r)) (y, Some f)
                      (p_hist df) = []).
    { destruct (rows_with _ _ _ _) as [|r rest] eqn:Er; [reflexivity|].
      exfalso.
      assert (Hr : In r (rows_with cmp_pair
                           (fun r => Some (year_bin r, Reg_E_Flag r))
                           (y, Some f) (p_hist df)))
        by (rewrite Er; now left).
      unfold rows_with in Hr. apply filter_In in Hr as [Hr Hk].
      destruct (cmp_pair (year_bin r, Reg_E_Flag r) (y, Some f)) eqn:Ek;
        try discriminate.
      apply cmp_pair_eq in Ek.
      assert (Hkey : In (y, Some f) (keys (pivot_raw df))).
      { apply pivot_raw_keys. exists r. injection Ek as <- <-. auto. }
      unfold keys in Hkey. apply in_map_iff in Hkey as [kg [Hkg Hin]].
      pose proof (find_none _ _ E kg Hin) as Hf. simpl in Hf.
      rewrite Hkg, (proj2 (cmp_pair_eq _ _) eq_refl) in Hf. discriminate. }
    rewrite Hnone. reflexivity.
Qed.

Lemma pivoted_counts (df : list Row) (f : string) :
  pivoted df (Some f)
  = map (fun y => of_nat (hist_count df y f)) (pivot_index df).
Proof.
  unfold pivoted, fillna. rewrite map_map. apply map_ext. intro y.
  apply pivot_value_count.
Qed.

End PairKeys.

Section RowSums.

Lemma sum_of_nat {X} (g : X -> nat) (l : list X) :
  sum (map (fun x => of_nat (g x)) l) =~ of_nat (list_sum (map g l)).
Proof.
  unfold of_nat.
  rewrite (sum_map_Fin (fun x => inject_Z (Z.of_nat (g x)))). simpl.
  induction l as [|x l IH]; [reflexivity|]. simpl.
  rewrite IH, Nat2Z.inj_add, inject_Z_plus. reflexivity.
Qed.

Lemma one_flag (f0 : string) (flags : list string) :
  NoDup flags -> In f0 flags ->
  list_sum (map (fun f => if String.eqb f0 f then 1 else 0)%nat flags) = 1%nat.
Proof.
  induction 1 as [|f flags Hnin Hnd IH]; intro Hin; [destruct Hin|].
  simpl. destruct (String.eqb_spec f0 f) as [->|Hne].
  - assert (H0 : list_sum (map (fun f' => if String.eqb f f' then 1 else 0)%nat
                             flags) = 0%nat).
    { clear - Hnin. induction flags as [|g flags IH]; [reflexivity|].
      simpl. destruct (String.eqb_spec f g) as [->|_].
      - exfalso. apply Hnin. now left.
      - apply IH. intro H. apply Hnin. now right. }
    now rewrite H0.
  - destruct Hin as [->|Hin]; [contradiction|]. now apply IH.
Qed.

Lemma no_flag (flags : list string) :
  list_sum (map (fun _ : string => 0%nat) flags) = 0%nat.
Proof. induction flags as [|f flags IH]; [reflexivity|exact IH]. Qed.

Lemma list_sum_add {X} (g h : X -> nat) (l : list X) :
  list_sum (map (fun x => g x + h x)%nat l)
  = (list_sum (map g l) + list_sum (map h l))%nat.
Proof.
  induction l as [|x l IH]; [reflexivity|]. simpl. rewrite IH. lia.
Qed.

Lemma flag_counts_add_up (y : string) (flags : list string) (rows : list Row) :
  NoDup flags ->
  (forall r f, In r rows -> Reg_E_Flag r = Some f -> In f flags) ->
  list_sum
    (map (fun f => List.length
                     (filter (fun r => in_year_bin y r && carries f r) rows))
       flags)
  = List.length
      (filter (fun r => in_year_bin y r && notna (Reg_E_Flag r)) rows).
Proof.
  intros Hnd Hall. induction rows as [|r rows IH].
  - simpl. apply no_flag.
  - assert (Hrest : forall r' f, In r' rows -> Reg_E_Flag r' = Some f ->
                                 In f flags).
    { intros r' f Hr'. apply Hall. now right. }
    specialize (IH Hrest).
    rewrite (map_ext
               (fun f => List.length
                           (filter (fun r0 => in_year_bin y r0 && carries f r0)
                              (r :: rows)))
               (fun f => ((if in_year_bin y r && carries f r then 1 else 0)
                          + List.length
                              (filter (fun r0 => in_year_bin y r0
                                                 && carries f r0) rows))%nat)).
    2:{ intro f. simpl. destruct (in_year_bin y r && carries f r); reflexivity. }
    rewrite list_sum_add, IH. simpl.
    destruct (in_year_bin y r); simpl.
    + unfold carries. destruct (Reg_E_Flag r) as [f0|] eqn:Ef; simpl.
      * rewrite (one_flag f0 flags Hnd); [reflexivity|].
        apply (Hall r f0); [now left|exact Ef].
      * now rewrite no_flag.
    + now rewrite no_flag.
Qed.

Lemma insert_sorted_perm (x : string) (l : list string) :
  Permutation (insert_sorted x l) (x :: l).
Proof.
  induction l as [|y l IH]; [reflexivity|]. simpl.
  destruct (String.compare x y); try reflexivity.
  rewrite IH. apply perm_swap.
Qed.

Lemma sorted_perm (l : list string) : Permutation (sorted l) l.
Proof.
  induction l as [|x l IH]; [reflexivity|]. simpl.
  rewrite insert_sorted_perm. now constructor.
Qed.

Lemma recorded_nodup (l : list (option string)) :
  NoDup l ->
  NoDup (flat_map (fun c => match c with Some s => [s] | None => [] end) l).
Proof.
  induction 1 as [|c l Hnin Hnd IH]; simpl; [constructor|].
  destruct c as [s|]; [|exact IH]. simpl. constructor; [|exact IH].
  intro H. apply in_flat_map in H as [[s'|] [Hin Hs]]; [|destruct Hs].
  destruct Hs as [->|[]]. contradiction.
Qed.

Lemma reg_e_flags_nodup (df : list Row) : NoDup (reg_e_flags df).
Proof.
  unfold reg_e_flags.
  apply (Permutation_NoDup (Permutation_sym (sorted_perm _))).
  apply recorded_nodup. unfold pivot_columns, unique_sorted.
  apply (sorted_nodup cmp_flag cmp_flag_eq).
  apply (groupby_sorted cmp_flag cmp_flag_eq cmp_flag_trans cmp_flag_antisym).
Qed.

Lemma sum_axis1_counts (df : list Row) :
  Forall2 Num.eqv
    (sum_axis1 (List.length (pivot_index df)) (pivot_reindexed df))
    (map (fun y => of_nat (hist_recorded df y)) (pivot_index df)).
Proof.
  unfold sum_axis1.
  replace (map (fun y => of_nat (hist_recorded df y)) (pivot_index df))
    with (map (fun i => of_nat (hist_recorded df (nth i (pivot_index df) "")))
            (seq 0 (List.length (pivot_index df))))
    by (rewrite <- (map_map (fun i => nth i (pivot_index df) "")
                      (fun y => of_nat (hist_recorded df y)));
        now rewrite map_nth_seq).
  assert (H : forall l : list nat,
             Forall (fun i => (i < List.length (pivot_index df))%nat) l ->
             Forall2 Num.eqv
               (map (fun i => sum (flat_map
                                     (fun cs => values [nth i (snd cs) (Num NaN)])
                                     (pivot_reindexed df))) l)
               (map (fun i => of_nat (hist_recorded df
                                        (nth i (pivot_index df) ""))) l)).
  { induction 1 as [|i l Hi _ IH]; simpl; constructor; [|exact IH].
    unfold pivot_reindexed. rewrite flat_map_concat_map, map_map.
    rewrite <- flat_map_concat_map.
    rewrite (flat_map_ext _
               (fun f => [of_nat (hist_count df (nth i (pivot_index df) "") f)])).
    2:{ intro f. simpl. rewrite pivoted_counts. unfold nums.
        rewrite map_map.
        rewrite (nth_indep _ (Num NaN)
                   (Num (of_nat (hist_count df "" f))))
          by now rewrite length_map.
        rewrite (map_nth (fun y => Num (of_nat (hist_count df y f)))).
        reflexivity. }
    rewrite flat_map_concat_map.
    rewrite <- (map_map (fun f => of_nat (hist_count df _ f)) (fun v => [v])).
    rewrite <- flat_map_concat_map.
    assert (Hflat : forall vs : list num, flat_map (fun v => [v]) vs = vs).
    { induction vs as [|v vs IHv]; [reflexivity|]. simpl. now rewrite IHv. }
    rewrite Hflat.
    eapply eqv_trans; [apply sum_of_nat|].
    unfold hist_count, hist_recorded.
    rewrite flag_counts_add_up; [apply eqv_refl|apply reg_e_flags_nodup|].
    intros r f Hr Hf. apply reg_e_flags_recorded. eauto. }
  apply H. apply Forall_forall. intros i Hi. apply in_seq in Hi. lia.
Qed.

End RowSums.

Section FinalColumns.

Lemma pivot_table_argsort (df : list Row) :
  pivot_table df
  = take (argsort (map (category_code sort_order) (strs (pivot_index df)))
          ++ [List.length (pivot_index df)])
      (pivot_with_index df).
Proof.
  unfold pivot_table, sort_values.
  change (get "Year Opened" (pivot_with_index df))
    with (Some (strs (pivot_index df ++ ["Grand Total"]))).
  unfold strs. rewrite !map_app.
  change (map (category_code sort_order) (map Str ["Grand Total"]))
    with [Some 19%nat].
  rewrite argsort_snoc_eq by apply pivot_index_codes.
  rewrite !length_map. reflexivity.
Qed.

Lemma argsort_bound (df : list Row) :
  Forall (fun i => (i < List.length (pivot_index df))%nat)
    (argsort (map (category_code sort_order) (strs (pivot_index df)))).
Proof.
  apply perm_seq_bound.
  pose proof (argsort_perm (map (category_code sort_order)
                              (strs (pivot_index df)))) as H.
  unfold strs in H. rewrite !length_map in H. exact H.
Qed.

Lemma pivot_table_labels (df : list Row) :
  group_cells "Year Opened" (pivot_table df)
  = Some (strs (map (fun i => nth i (pivot_index df) "")
                  (argsort (map (category_code sort_order)
                              (strs (pivot_index df)))))).
Proof.
  unfold group_cells. rewrite pivot_table_argsort, get_body, get_take.
  change (get "Year Opened" (pivot_with_index df))
    with (Some (strs (pivot_index df ++ ["Grand Total"]))).
  cbn [option_map]. rewrite map_app. cbn [map]. rewrite removelast_last.
  f_equal. unfold strs at 3. rewrite map_map. apply map_ext_in. intros i Hi.
  pose proof (argsort_bound df) as Hb. rewrite Forall_forall in Hb.
  specialize (Hb i Hi). unfold strs.
  rewrite map_app. rewrite app_nth1 by now rewrite length_map.
  rewrite (nth_indep _ (Num NaN) (Str "")) by now rewrite length_map.
  apply (map_nth Str).
Qed.

Lemma Forall2_nth {X Y} (R : X -> Y -> Prop) (l : list X) (l' : list Y)
  (d : X) (d' : Y) :
  Forall2 R l l' -> R d d' -> forall i, R (nth i l d) (nth i l' d').
Proof.
  induction 1 as [|x y l l' Hxy _ IH]; intros Hd i.
  - destruct i; exact Hd.
  - destruct i as [|i]; [exact Hxy|]. simpl. now apply IH.
Qed.

Lemma Forall2_map_both {X Y Z} (R : Y -> Z -> Prop) (g : X -> Y) (h : X -> Z)
  (l : list X) :
  (forall x, In x l -> R (g x) (h x)) -> Forall2 R (map g l) (map h l).
Proof.
  induction l as [|x l IH]; intro H; simpl; constructor.
  - apply H. now left.
  - apply IH. intros y Hy. apply H. now right.
Qed.

Lemma pivot_final_column (df : list Row) (c : string) (vs : list num) :
  c <> "Opt In %" -> c <> "Year Opened" ->
  get c (pivot_with_opt_in df) = Some (nums vs) ->
  Forall integral vs -> List.length vs = List.length (pivot_index df) ->
  exists vs',
    group_cells c (pivot_table df) = Some (nums vs') /\
    Forall2 Num.eqv vs'
      (map (fun i => nth i vs NaN)
         (argsort (map (category_code sort_order) (strs (pivot_index df))))).
Proof.
  intros Hc1 Hc2 Hs Hint Hlen.
  assert (Hidx : get c (pivot_with_index df) = get c (pivot_cleaned df)).
  { unfold pivot_with_index. simpl.
    destruct (String.eqb_spec c "Year Opened"); [contradiction|reflexivity]. }
  assert (Hclean : exists k,
             get c (pivot_cleaned df)
             = option_map (map (Nat.iter k (round_cell 0)))
                 (get c (pivot_joined df))).
  { unfold pivot_cleaned. rewrite get_round_col.
    destruct (String.eqb_spec c "Opt In %"); [contradiction|].
    apply get_fold_round. }
  destruct Hclean as [k Hclean].
  assert (Hjoin : get c (pivot_joined df)
                  = Some (nums vs ++ [Num (sum vs)])).
  { unfold pivot_joined. rewrite (get_concat_row c _ _ _ Hs).
    rewrite (lookup_grand_total_hist df c Hc1), Hs. simpl.
    now rewrite values_nums. }
  rewrite Hjoin in Hclean. simpl in Hclean. rewrite map_app in Hclean.
  simpl in Hclean.
  destruct (iter_round_column k vs Hint) as [vs0 [Hmap Hall]].
  rewrite Hmap in Hclean.
  assert (Hlen0 : List.length (nums vs0) = List.length (pivot_index df)).
  { unfold nums. rewrite length_map, (Forall2_length _ _ _ Hall). exact Hlen. }
  set (P := argsort (map (category_code sort_order) (strs (pivot_index df)))).
  exists (map (fun i => nth i vs0 NaN) P). split.
  - unfold group_cells.
    rewrite pivot_table_argsort, get_body, get_take, Hidx, Hclean.
    fold P. cbn [option_map]. rewrite map_app. cbn [map].
    rewrite removelast_last. f_equal. unfold nums at 2. rewrite map_map.
    apply map_ext_in. intros i Hi.
    pose proof (argsort_bound df) as Hb. rewrite Forall_forall in Hb.
    specialize (Hb i Hi).
    rewrite app_nth1 by (rewrite Hlen0; exact Hb).
    apply (map_nth Num).
  - apply Forall2_map_both. intros i _.
    apply Forall2_nth; [exact Hall|apply eqv_refl].
Qed.

End FinalColumns.


(* ================================================================= *)
(** ** Ranges of ratios and shares *)

Section Ranges.

Lemma rint_range (y : Q) (m : Z) :
  0 <= y -> y <= inject_Z m -> (0 <= rint y <= m)%Z.
Proof.
  intros H0 Hm. pose proof (rint_err y) as He.
  apply Qabs_Qle_condition in He as [He1 He2].
  split.
  - assert (H : inject_Z (-1) < inject_Z (rint y)).
    { change (inject_Z (-1)) with (-1). lra. }
    rewrite <- Zlt_Qlt in H. lia.
  - assert (H : inject_Z (rint y) < inject_Z (m + 1)).
    { rewrite inject_Z_plus. change (inject_Z 1) with 1. lra. }
    rewrite <- Zlt_Qlt in H. lia.
Qed.

Lemma round_range (x : Q) (p : nat) (n : Z) :
  0 <= x -> x <= inject_Z n ->
  0 <= round_half_even x p /\ round_half_even x p <= inject_Z n.
Proof.
  intros H0 Hn. unfold round_half_even.
  pose proof (pow10_pos p) as Hp.
  assert (Hy0 : 0 <= x * pow10 p) by (apply Qmult_le_0_compat; lra).
  assert (Hym : x * pow10 p <= inject_Z (n * 10 ^ Z.of_nat p)).
  { rewrite inject_Z_mult. fold (pow10 p).
    apply Qmult_le_compat_r; lra. }
  destruct (rint_range _ _ Hy0 Hym) as [Hr0 Hrm].
  rewrite Zle_Qle in Hr0, Hrm. rewrite inject_Z_mult in Hrm.
  fold (pow10 p) in Hrm. change (inject_Z 0) with 0 in Hr0.
  split.
  - apply Qle_shift_div_l; [exact Hp|]. lra.
  - apply Qle_shift_div_r; [exact Hp|]. exact Hrm.
Qed.

Lemma ratio_cell_range (P I : Q) (p : nat) :
  0 <= P -> P <= I ->
  exists q,
    (if (Fin I >? Fin 0)%num then round (Fin P / Fin I)%num p else Fin 0)
    = Fin q /\ 0 <= q /\ q <= 1.
Proof.
  intros H0 H1. rewrite gtb_Fin.
  destruct (Qltb 0 I) eqn:E.
  - apply Qltb_lt in E. rewrite (div_Fin_pos P I E). simpl.
    eexists. split; [reflexivity|].
    apply (round_range (P / I) p 1).
    + apply Qle_shift_div_l; lra.
    + apply Qle_shift_div_r; [exact E|]. change (inject_Z 1) with 1. lra.
  - exists 0. split; [reflexivity|lra].
Qed.

Lemma rate_cell_range (P I : Q) (p : nat) :
  0 <= P -> P <= I ->
  exists q,
    (if (Fin I >? Fin 0)%num
     then round (Fin P / Fin I * Fin 100)%num p else Fin 0)
    = Fin q /\ 0 <= q /\ q <= 100.
Proof.
  intros H0 H1. rewrite gtb_Fin.
  destruct (Qltb 0 I) eqn:E.
  - apply Qltb_lt in E. rewrite (div_Fin_pos P I E). simpl.
    eexists. split; [reflexivity|].
    assert (Hq0 : 0 <= P / I) by (apply Qle_shift_div_l; lra).
    assert (Hq1 : P / I <= 1) by (apply Qle_shift_div_r; [exact E|lra]).
    apply (round_range (P / I * 100) p 100).
    + lra.
    + change (inject_Z 100) with 100. lra.
  - exists 0. split; [reflexivity|lra].
Qed.

Lemma qsum_le {X} (f g : X -> Q) (l : list X) :
  (forall r, In r l -> f r <= g r) -> qsum f l <= qsum g l.
Proof.
  induction l as [|x l IH]; intro H; simpl; [lra|].
  pose proof (H x (or_introl eq_refl)).
  assert (qsum f l <= qsum g l) by (apply IH; intros r Hr; apply H; now right).
  lra.
Qed.

Context {K : Type}.

Lemma ratio_column_range (g : list (K * list Row)) (p : nat) :
  Forall (fun kg => 0 <= qsum Paid_Items (snd kg) /\
                    qsum Paid_Items (snd kg) <= qsum Total_Items (snd kg)) g ->
  Forall (fun x => exists q, x = Num (Fin q) /\ 0 <= q /\ q <= 1)
    (nums (np_where (s_gt (agg_sum total_items g) (Fin 0))
             (s_round (s_div2 (agg_sum paid_items g) (agg_sum total_items g))
                p) (Fin 0))).
Proof.
  induction 1 as [|kg g [H0 H1] _ IH]; [constructor|].
  unfold nums, np_where, s_gt, s_round, s_div2, agg_sum in *.
  cbn [map combine fst snd]. constructor; [|exact IH].
  unfold total_items, paid_items. rewrite !sum_map_Fin.
  destruct (ratio_cell_range _ _ p H0 H1) as [q [-> Hq]].
  exists q. split; [reflexivity|exact Hq].
Qed.

Lemma rate_column_range (g : list (K * list Row)) (p : nat) :
  Forall (fun kg => 0 <= qsum Paid_Items (snd kg) /\
                    qsum Paid_Items (snd kg) <= qsum Total_Items (snd kg)) g ->
  Forall (fun x => exists q, x = Num (Fin q) /\ 0 <= q /\ q <= 100)
    (nums (np_where (s_gt (agg_sum total_items g) (Fin 0))
             (s_round (s_mul (s_div2 (agg_sum paid_items g)
                                (agg_sum total_items g)) (Fin 100))
                p) (Fin 0))).
Proof.
  induction 1 as [|kg g [H0 H1] _ IH]; [constructor|].
  unfold nums, np_where, s_gt, s_round, s_mul, s_div2, agg_sum in *.
  cbn [map combine fst snd]. constructor; [|exact IH].
  unfold total_items, paid_items. rewrite !sum_map_Fin.
  destruct (rate_cell_range _ _ p H0 H1) as [q [-> Hq]].
  exists q. split; [reflexivity|exact Hq].
Qed.

Lemma groups_paid_within (cmp : K -> K -> comparison) (key : Row -> option K)
  (mask : Row -> bool) (df : list Row) :
  paid_within_presented df ->
  Forall (fun kg => 0 <= qsum Paid_Items (snd kg) /\
                    qsum Paid_Items (snd kg) <= qsum Total_Items (snd kg))
    (groupby cmp key (filter mask df)).
Proof.
  intro H. unfold paid_within_presented in H. rewrite Forall_forall in H.
  apply Forall_forall. intros kg Hkg.
  assert (Hrows : forall r, In r (snd kg) ->
                    0 <= Paid_Items r /\ Paid_Items r <= Total_Items r).
  { intros r Hr. apply H.
    pose proof (groupby_rows cmp key (filter mask df) kg r Hkg Hr) as Hin.
    now apply filter_In in Hin as [Hin _]. }
  split.
  - apply qsum_nonneg. intros r Hr. now apply Hrows.
  - apply qsum_le. intros r Hr. now apply Hrows.
Qed.

Lemma total_paid_within (g : list (K * list Row)) :
  Forall (fun kg => 0 <= qsum Paid_Items (snd kg) /\
                    qsum Paid_Items (snd kg) <= qsum Total_Items (snd kg)) g ->
  0 <= gsum Paid_Items g /\ gsum Paid_Items g <= gsum Total_Items g.
Proof.
  intro H. rewrite Forall_forall in H. unfold gsum. split.
  - apply qsum_nonneg. intros kg Hkg. now apply H.
  - apply qsum_le. intros kg Hkg. now apply H.
Qed.

End Ranges.

Ltac within_ratio Hg :=
  unfold column_within; unfold_tables; simpl;
  eexists; split; [reflexivity|];
  apply Forall_app; split;
  [ first [ apply ratio_column_range | apply rate_column_range ]; exact Hg
  | constructor; [|constructor];
    unfold total_items, paid_items; rewrite !sum_agg_sum;
    destruct (total_paid_within _ Hg) as [H0 H1];
    first [ destruct (ratio_cell_range _ _ 2%nat H0 H1) as [? [-> ?]]
          | destruct (ratio_cell_range _ _ 4%nat H0 H1) as [? [-> ?]]
          | destruct (rate_cell_range _ _ 1%nat H0 H1) as [? [-> ?]] ];
    eexists; split; [reflexivity|assumption] ].

(** When no account has more paid than presented items (nor a negative
    number of paid items), every pay ratio of the report, in the rows and
    in the grand total, lies between 0 and 1, and every pay rate between 0
    and 100. *)
Theorem pay_ratio_within_bounds (df : list Row) (mask : Row -> bool)
  (T : DataFrame) (items ratio : string) :
  paid_within_presented df ->
  In (T, items, ratio) (ratio_tables mask df) ->
  column_within T ratio (if String.eqb ratio "% Pay Rate" then 100 else 1).
Proof.
  intros Hdf HT. unfold ratio_tables in HT. simpl in HT.
  assert (Hall : forall {K} (cmp : K -> K -> comparison) key m,
             Forall (fun kg => 0 <= qsum Paid_Items (snd kg) /\
                               qsum Paid_Items (snd kg)
                               <= qsum Total_Items (snd kg))
               (groupby cmp key (filter m df))).
  { intros. now apply groups_paid_within. }
  assert (Hfull : filter (fun _ => true) df = df).
  { apply (qsum_filter_all (fun _ : Row => 0)). reflexivity. }
  destruct HT as [[= <- <- <-]|[[= <- <- <-]|[[= <- <- <-]|[[= <- <- <-]|
                 [[= <- <- <-]|[[= <- <- <-]|[]]]]]]].
  - pose proof (Hall _ String.compare (fun r => Some (Account_Status r))
                  (fun _ => true)) as Hg. rewrite Hfull in Hg.
    within_ratio Hg.
  - pose proof (Hall _ String.compare (fun r => Some (Business_Flag r))
                  OPEN_MASK) as Hg.
    within_ratio Hg.
  - pose proof (Hall _ Nat.compare nsf_bin mask) as Hg. within_ratio Hg.
  - pose proof (Hall _ Nat.compare nsf_bin mask) as Hg. within_ratio Hg.
  - pose proof (Hall _ String.compare (fun r => Some (OD_Status r)) mask) as Hg.
    within_ratio Hg.
  - pose proof (Hall _ Qcompare (fun r => Some (OD_Limit r)) PERSONAL_OPEN)
      as Hg.
    within_ratio Hg.
Qed.

(** At the accounts of scenario C. *)
Lemma pay_ratio_within_bounds_witness :
  column_within (nsf_pay PERSONAL_OPEN scenario_C) "% Pay Rate" 100 /\
  column_within (stat_code_summary scenario_C) "Pay Ratio" 1.
Proof.
  split.
  - apply (pay_ratio_within_bounds scenario_C PERSONAL_OPEN _
             "Total OD/NSF Items" "% Pay Rate").
    + repeat constructor; simpl; lra.
    + unfold ratio_tables. simpl. tauto.
  - apply (pay_ratio_within_bounds scenario_C PERSONAL_OPEN _
             "# of Items" "Pay Ratio").
    + repeat constructor; simpl; lra.
    + unfold ratio_tables. simpl. tauto.
Defined.

Section Shares.

Context {K : Type}.

Lemma member_le_qsum (qs : list Q) (q : Q) :
  (forall x, In x qs -> 0 <= x) -> In q qs -> q <= qsum (fun x => x) qs.
Proof.
  induction qs as [|x qs IH]; intros H0 Hin; [destruct Hin|]. simpl.
  assert (0 <= qsum (fun x => x) qs).
  { apply qsum_nonneg. intros r Hr. apply H0. now right. }
  destruct Hin as [->|Hin].
  - lra.
  - assert (q <= qsum (fun x => x) qs)
      by (apply IH; [intros y Hy; apply H0; now right|exact Hin]).
    pose proof (H0 x (or_introl eq_refl)). lra.
Qed.

Lemma share_column_range (qs : list Q) :
  (forall x, In x qs -> 0 < x) ->
  Forall (fun x => exists q, x = Num (Fin q) /\ 0 <= q /\ q <= 100)
    (nums (s_round (s_mul (s_div (map Fin qs) (sum (map Fin qs))) (Fin 100))
             2)).
Proof.
  intro Hpos. rewrite pct_map.
  rewrite (sum_map_Fin (fun q : Q => q)).
  destruct qs as [|q0 qs0] eqn:Eq; [constructor|]. rewrite <- Eq in *.
  assert (Hin0 : In q0 qs) by (rewrite Eq; now left).
  assert (Hnn : forall x, In x qs -> 0 <= x).
  { intros x Hx. apply Qlt_le_weak. now apply Hpos. }
  assert (HX : 0 < qsum (fun x => x) qs).
  { pose proof (member_le_qsum qs q0 Hnn Hin0). pose proof (Hpos q0 Hin0).
    lra. }
  rewrite pct_Fin by lra.
  unfold nums. rewrite map_map. apply Forall_forall. intros c Hc.
  apply in_map_iff in Hc as [q [<- Hq]].
  eexists. split; [reflexivity|].
  pose proof (member_le_qsum qs q Hnn Hq) as Hle.
  pose proof (Hnn q Hq) as Hq0.
  assert (H0 : 0 <= q / qsum (fun x => x) qs)
    by (apply Qle_shift_div_l; lra).
  assert (H1 : q / qsum (fun x => x) qs <= 1)
    by (apply Qle_shift_div_r; lra).
  apply (round_range (q / qsum (fun x => x) qs * 100) 2 100).
  - lra.
  - change (inject_Z 100) with 100. lra.
Qed.

Lemma share_of_accounts_range (g : list (K * list Row)) :
  Forall (fun kg => snd kg <> []) g ->
  Forall (fun x => exists q, x = Num (Fin q) /\ 0 <= q /\ q <= 100)
    (nums (s_round (s_mul (s_div (agg_count g) (sum (agg_count g)))
                      (Fin 100)) 2)).
Proof.
  intro Hne. rewrite agg_count_Fin. apply share_column_range.
  intros x Hx. apply in_map_iff in Hx as [kg [<- Hkg]].
  rewrite Forall_forall in Hne. specialize (Hne kg Hkg).
  destruct (snd kg) as [|r rs]; [congruence|apply qcount_pos].
Qed.

End Shares.

(** In each of the fourteen tables grouped by a single key, every
    "% of Accounts", in the rows and in the grand total, lies between 0 and
    100. *)
Theorem share_of_accounts_within_bounds (df : list Row) (T : DataFrame) :
  In T (single_key_tables df) -> column_within T "% of Accounts" 100.
Proof.
  intro HT. unfold single_key_tables, report_tables in HT. simpl in HT.
  assert (Htot : exists q, Num (Fin 100) = Num (Fin q) /\ 0 <= q /\ q <= 100).
  { exists 100. split; [reflexivity|lra]. }
  repeat (destruct HT as [<-|HT];
          [unfold column_within; unfold_tables; unfold pct_of_total; simpl;
           eexists; split; [reflexivity|];
           apply Forall_app; split;
           [apply share_of_accounts_range; apply groupby_nonempty
           |constructor; [exact Htot|constructor]]|]).
  destruct HT.
Qed.

(** At the Reg E summary of scenario D. *)
Lemma share_of_accounts_within_bounds_witness :
  column_within (reg_e_summary scenario_D) "% of Accounts" 100.
Proof.
  apply (share_of_accounts_within_bounds scenario_D).
  unfold single_key_tables, report_tables. simpl. tauto.
Defined.

(* ================================================================= *)
(** ** The opt-in rate *)

Section OptInRate.

Lemma get_fold_round_other (c : string) (l : list string) :
  ~ In c l ->
  forall X : DataFrame,
    get c (fold_left (fun t c' => round_col c' 0 t) l X) = get c X.
Proof.
  induction l as [|c' l IH]; intros Hc X; [reflexivity|]. simpl.
  rewrite IH by (intro H; apply Hc; now right).
  rewrite get_round_col.
  destruct (String.eqb_spec c c') as [->|_]; [|reflexivity].
  exfalso. apply Hc. now left.
Qed.

Lemma opt_in_cell (a r : nat) (n : num) :
  n =~ of_nat r ->
  fillna1
    (of_nat a
     / match n with
       | Fin q => if Qeq_bool q 0 then NaN else n
       | _ => n
       end * Fin 100)%num (Fin 0)
  =~ share a r.
Proof.
  intro Hq. destruct n as [q| | |]; simpl in Hq; try contradiction.
  cbv beta iota.
  destruct r as [|r].
  - change (inject_Z (Z.of_nat 0)) with 0 in Hq.
    rewrite (proj2 (Qeq_bool_iff q 0) Hq). simpl. reflexivity.
  - assert (Hpos : 0 < inject_Z (Z.of_nat (S r))).
    { change 0 with (inject_Z 0). rewrite <- Zlt_Qlt. lia. }
    destruct (Qeq_bool q 0) eqn:E.
    + apply Qeq_bool_iff in E. lra.
    + unfold of_nat. rewrite div_Fin_nonzero by (rewrite Hq; lra).
      cbn [Num.mul fillna1 isna share Num.eqv]. now rewrite Hq.
Qed.

Lemma opt_in_cells (cnt rec : string -> nat) (index : list string) :
  forall N : list num,
    Forall2 Num.eqv N (map (fun y => of_nat (rec y)) index) ->
    Forall2 (fun y v => v =~ share (cnt y) (rec y)) index
      (fillna (s_mul (s_div2 (map (fun y => of_nat (cnt y)) index)
                        (replace_zero_na N)) (Fin 100)) (Fin 0)).
Proof.
  induction index as [|y index IH]; intros N HN.
  - inversion HN. constructor.
  - inversion HN as [|n w N' ws Hn Hrest]; subst.
    unfold fillna, s_mul, s_div2, replace_zero_na in *.
    cbn [map combine fst snd]. constructor.
    + now apply opt_in_cell.
    + apply IH. exact Hrest.
Qed.

Lemma opt_in_flag_listed (df : list Row) (f : string) :
  opt_in_flag df = Some f -> In f (reg_e_flags df).
Proof.
  unfold opt_in_flag.
  destruct (existsb (String.eqb "Y") (reg_e_flags df)) eqn:E.
  - intros [= <-]. apply existsb_exists in E as [x [Hx Ex]].
    apply String.eqb_eq in Ex. now subst.
  - destruct (reg_e_flags df); [discriminate|]. intros [= <-]. now left.
Qed.

Lemma opt_in_rows (df : list Row) (f : string) :
  opt_in_flag df = Some f -> f <> "" -> f <> "# of Accounts" ->
  Forall2 (fun y v => v =~ share (hist_count df y f) (hist_recorded df y))
    (pivot_index df) (opt_in df).
Proof.
  intros Hf He Ha. unfold opt_in. rewrite Hf. simpl.
  destruct (String.eqb_spec f ""); [contradiction|]. simpl.
  unfold get_nums, pivot_with_accounts. rewrite !get_assign. simpl.
  destruct (String.eqb_spec f "# of Accounts"); [contradiction|].
  unfold pivot_reindexed.
  rewrite (get_generated (fun c => nums (pivoted df (Some c))))
    by now apply opt_in_flag_listed.
  rewrite !values_nums, pivoted_counts.
  apply opt_in_cells. apply sum_axis1_counts.
Qed.

Lemma opt_in_not_rounded_to_units (df : list Row) :
  ~ In "Opt In %" (reg_e_flags df) -> ~ In "Opt In %" (int_cols df).
Proof.
  intros H Hin. unfold int_cols in Hin. apply filter_In in Hin as [_ Hp].
  apply orb_true_iff in Hp as [Hp|Hp]; [|discriminate].
  apply existsb_exists in Hp as [x [Hx Ex]].
  apply String.eqb_eq in Ex. subst. contradiction.
Qed.

End OptInRate.



Section OptInTotal.

Lemma one_bin (y0 : string) (index : list string) :
  NoDup index -> In y0 index ->
  list_sum (map (fun y => if String.eqb y0 y then 1 else 0)%nat index) = 1%nat.
Proof. apply one_flag. Qed.

Lemma bin_counts_add_up (p : Row -> bool) (index : list string)
  (rows : list Row) :
  NoDup index ->
  (forall r, In r rows -> In (year_bin r) index) ->
  list_sum
    (map (fun y => List.length (filter (fun r => in_year_bin y r && p r) rows))
       index)
  = List.length (filter p rows).
Proof.
  intros Hnd Hall. induction rows as [|r rows IH].
  - simpl. apply no_flag.
  - assert (Hrest : forall r', In r' rows -> In (year_bin r') index).
    { intros r' Hr'. apply Hall. now right. }
    specialize (IH Hrest).
    rewrite (map_ext
               (fun y => List.length
                           (filter (fun r0 => in_year_bin y r0 && p r0)
                              (r :: rows)))
               (fun y => ((if in_year_bin y r && p r then 1 else 0)
                          + List.length
                              (filter (fun r0 => in_year_bin y r0 && p r0)
                                 rows))%nat)).
    2:{ intro y. simpl. destruct (in_year_bin y r && p r); reflexivity. }
    rewrite list_sum_add, IH. simpl. destruct (p r); simpl.
    + rewrite (map_ext _ (fun y => if String.eqb (year_bin r) y then 1 else 0)%nat).
      * rewrite one_bin; [reflexivity|exact Hnd|]. apply Hall. now left.
      * intro y. unfold in_year_bin. now rewrite andb_true_r.
    + rewrite (map_ext _ (fun _ => 0%nat)); [now rewrite no_flag|].
      intro y. now rewrite andb_false_r.
Qed.

Lemma hist_counts_total (df : list Row) (f : string) :
  list_sum (map (fun y => hist_count df y f) (pivot_index df))
  = List.length (filter (carries f) (p_hist df)).
Proof.
  unfold hist_count. apply bin_counts_add_up; [apply pivot_index_nodup|].
  intros r Hr. apply pivot_index_members. eauto.
Qed.

Lemma hist_recorded_total (df : list Row) :
  list_sum (map (fun y => hist_recorded df y) (pivot_index df))
  = List.length (flag_recorded (p_hist df)).
Proof.
  unfold hist_recorded, flag_recorded.
  apply (bin_counts_add_up (fun r => notna (Reg_E_Flag r)));
    [apply pivot_index_nodup|].
  intros r Hr. apply pivot_index_members. eauto.
Qed.

Lemma carrying_le_recorded (f : string) (rows : list Row) :
  (List.length (filter (carries f) rows)
   <= List.length (flag_recorded rows))%nat.
Proof.
  unfold flag_recorded, carries. induction rows as [|r rows IH]; [simpl; lia|].
  simpl. destruct (Reg_E_Flag r) as [f'|]; simpl; [|exact IH].
  destruct (String.eqb f' f); simpl; lia.
Qed.

Lemma total_rate_cell (A N : num) (a n : nat) :
  A =~ of_nat a -> N =~ of_nat n -> (a <= n)%nat ->
  fillna1 (A / N * Fin 100)%num (Fin 0) =~ share a n.
Proof.
  intros HA HN Hle.
  destruct A as [x| | |]; simpl in HA; try contradiction.
  destruct N as [q| | |]; simpl in HN; try contradiction.
  destruct n as [|n].
  - assert (a = 0)%nat by lia. subst a.
    change (inject_Z (Z.of_nat 0)) with 0 in HA, HN.
    unfold Num.div.
    rewrite (proj2 (Qeq_bool_iff q 0) HN), (proj2 (Qeq_bool_iff x 0) HA).
    simpl. reflexivity.
  - assert (Hpos : 0 < inject_Z (Z.of_nat (S n))).
    { change 0 with (inject_Z 0). rewrite <- Zlt_Qlt. lia. }
    rewrite div_Fin_nonzero by (rewrite HN; lra).
    cbn [Num.mul fillna1 isna share Num.eqv]. now rewrite HA, HN.
Qed.

End OptInTotal.


